(** * Throttle control engine of the FireBeetle ESP32 + THW-1060 bring-up firmware

    A shallow embedding of [functions.ino] (ESC pulse model, ramp engine,
    command interpreter, BLE callbacks, main loop) and the properties of it
    that the specification states.

    Conventions of the embedding:
    - C [int] values are [Z]; arithmetic that can leave the 32-bit range is
      passed through [int_of] (two's complement), casts to [uint8_t] and
      [uint32_t] through [uint8_of] and [uint32_of];
    - C [float] is IEEE-754 binary32, round to nearest even: the Standard
      Library's [spec_float] operations at precision 24 and [emax] 128;
    - Arduino [String] is [string]; its methods are the functions of
      [Module Str];
    - the globals of the sketch are the record [Globals]; the hardware is a
      millisecond clock and the list of output events (serial text, BLE
      notifications, servo pulses, pin writes) in the order they happen. *)

From Stdlib Require Import ZArith Lia Bool List String Ascii.
From Stdlib Require Import Floats.SpecFloat.
From Stdlib Require Import DecimalString DecimalPos.
Import ListNotations.

Open Scope string_scope.
Open Scope Z_scope.

(** ** Machine integers *)

Module CInt.

(** [(int)z]: the 32-bit two's complement value of [z]. *)
Definition int_of (z : Z) : Z := (z + 2 ^ 31) mod 2 ^ 32 - 2 ^ 31.

(** [(uint8_t)z] and [(uint32_t)z]. *)
Definition uint8_of (z : Z) : Z := z mod 2 ^ 8.
Definition uint32_of (z : Z) : Z := z mod 2 ^ 32.

(** [long] on the ESP32 is 32 bits wide. *)
Definition LONG_MAX : Z := 2 ^ 31 - 1.
Definition LONG_MIN : Z := - 2 ^ 31.

End CInt.
Import CInt.

(** ** binary32 *)

Module F32.

Definition prec : Z := 24.
Definition emax : Z := 128.

Definition float := spec_float.

Definition add : float -> float -> float := SFadd prec emax.
Definition sub : float -> float -> float := SFsub prec emax.
Definition mul : float -> float -> float := SFmul prec emax.
Definition div : float -> float -> float := SFdiv prec emax.
Definition ltb : float -> float -> bool := SFltb.
Definition leb : float -> float -> bool := SFleb.
Definition fabs : float -> float := SFabs.
Definition neg : float -> float := SFopp.

(** [(float)z] for an integer [z]. *)
Definition of_Z (z : Z) : float := binary_normalize prec emax z 0 false.

(** [(int)f]: truncation toward zero.  C leaves the conversion of NaN, of an
    infinity and of a value outside the target range undefined; the model
    gives 0 for the first two. *)
Definition trunc (f : float) : Z :=
  match f with
  | S754_finite s m e =>
      let a := match e with
               | Zneg p => Z.shiftr (Zpos m) (Zpos p)
               | _ => Z.shiftl (Zpos m) e
               end in
      if s then - a else a
  | _ => 0
  end.

Definition zero : float := S754_zero false.
Definition half : float := binary_normalize prec emax 1 (-1) false.
Definition one : float := of_Z 1.
Definition hundred : float := of_Z 100.

Definition is_nan (f : float) : bool :=
  match f with S754_nan => true | _ => false end.

(** *** Values, ordering and rounding

    The finite numbers of the format are the integer multiples of [2^-149]
    (its smallest subnormal).  [V f] is the value of [f] in that unit, which
    turns ordering and distances of floats into ordering and distances of
    integers: [V (of_Z 1) = 2^149], and the neighbours of a float in
    [[64, 128)] are [2^132] units ([2^-17]) away. *)
Definition fexp32 := fexp 24 128.

Definition V (f : spec_float) : Z :=
  match f with
  | S754_finite s m e =>
      if s then - (Zpos m * 2 ^ (e + 149)) else Zpos m * 2 ^ (e + 149)
  | _ => 0
  end.

(** The distance between neighbouring floats in [[64, 128)], in units of
    [2^-149]. *)
Definition spacing_below_128 : Z := 2 ^ 132.

(** The nonnegative finite numbers of the format. *)
Definition nonneg (f : spec_float) : Prop :=
  match f with
  | S754_zero _ => True
  | S754_finite false m e => bounded 24 128 m e = true
  | _ => False
  end.

(** ... and [+infinity]. *)
Definition nonneg_inf (f : spec_float) : Prop :=
  match f with
  | S754_infinity false => True
  | _ => nonneg f
  end.

(** What [binary_round_aux] makes of the integer [q] at exponent [e1], the
    digits that do not fit dropped. *)
Definition normalize (s : bool) (q e1 : Z) : spec_float :=
  let n2 := fexp32 (Zdigits2 q + e1) - e1 in
  let m2 := if 0 <? n2 then q / 2 ^ n2 else q in
  let e2 := if 0 <? n2 then e1 + n2 else e1 in
  match m2 with
  | Z0 => S754_zero s
  | Zpos p => if e2 <=? 104 then S754_finite s p e2 else S754_infinity s
  | Zneg _ => S754_nan
  end.

(** [f] is the positive value [x] rounded to the format. *)
Definition rounds (x : Z) (f : spec_float) : Prop :=
  exists (M : positive) (e : Z),
    -149 <= e /\ x = Zpos M * 2 ^ (e + 149) /\
    f = binary_round 24 128 false M e.

(** [f] is the nonnegative value [x], exactly or rounded. *)
Definition approx (x : Z) (f : spec_float) : Prop :=
  (nonneg f /\ V f = x) \/ rounds x f.

End F32.

(** ** Arduino [String] *)

Module Str.

Definition code (c : ascii) : Z := Z.of_nat (nat_of_ascii c).

(** [isspace] of the C locale: space, and [\t \n \v \f \r]. *)
Definition isspace (c : ascii) : bool :=
  (code c =? 32) || ((9 <=? code c) && (code c <=? 13)).

Definition isdigit (c : ascii) : bool := (48 <=? code c) && (code c <=? 57).

Definition toupper (c : ascii) : ascii :=
  if (97 <=? code c) && (code c <=? 122)
  then ascii_of_nat (nat_of_ascii c - 32)
  else c.

Fixpoint ltrim (s : string) : string :=
  match s with
  | String c r => if isspace c then ltrim r else s
  | EmptyString => EmptyString
  end.

Fixpoint rtrim (s : string) : string :=
  match s with
  | String c r =>
      match rtrim r with
      | EmptyString => if isspace c then EmptyString else String c EmptyString
      | r' => String c r'
      end
  | EmptyString => EmptyString
  end.

(** [String::trim]: whitespace removed at both ends. *)
Definition trim (s : string) : string := rtrim (ltrim s).

(** [String::toUpperCase]. *)
Fixpoint toUpperCase (s : string) : string :=
  match s with
  | String c r => String (toupper c) (toUpperCase r)
  | EmptyString => EmptyString
  end.

(** [String::startsWith]. *)
Fixpoint startsWith (s p : string) {struct p} : bool :=
  match p, s with
  | EmptyString, _ => true
  | String a p', String b s' => Ascii.eqb a b && startsWith s' p'
  | String _ _, EmptyString => false
  end.

(** [String::substring(left)]: the tail from index [left]. *)
Fixpoint substring (left : nat) (s : string) : string :=
  match left, s with
  | O, _ => s
  | S n, String _ r => substring n r
  | S _, EmptyString => EmptyString
  end.

(** [String::charAt]: the character at [i], NUL out of range. *)
Definition charAt (i : nat) (s : string) : ascii :=
  match String.get i s with
  | Some c => c
  | None => zero
  end.

Definition length (s : string) : Z := Z.of_nat (String.length s).

(** [String::toInt] is [atol]: leading whitespace, an optional sign, then
    the longest run of decimal digits; 0 when there is none; the result
    saturates at the range of [long]. *)
Fixpoint digits (acc : Z) (s : string) : Z :=
  match s with
  | String c r => if isdigit c then digits (acc * 10 + (code c - 48)) r else acc
  | EmptyString => acc
  end.

Definition saturate (z : Z) : Z := Z.max LONG_MIN (Z.min LONG_MAX z).

Definition toInt (s : string) : Z :=
  match ltrim s with
  | String "-" r => saturate (- digits 0 r)
  | String "+" r => saturate (digits 0 r)
  | t => saturate (digits 0 t)
  end.

(** [String(int)], [String(uint8_t)], [String(uint32_t)]: decimal. *)
Definition ofInt (z : Z) : string := NilZero.string_of_int (Z.to_int z).

Definition ofBool (b : bool) : string := if b then "1" else "0".

End Str.

(** ** User configuration *)

(** [LED_BUILTIN] of the board, 2 when the core does not define it. *)
Definition LED_PIN : Z := 2.
Definition PIN_ESC_SIGNAL : Z := 16.

(** Control Pad mapping. *)
Definition BTN_FULL_ID : Z := 1.
Definition BTN_STOP_ID : Z := 2.
Definition BTN_UP_ID : Z := 5.
Definition BTN_DOWN_ID : Z := 6.

(** [20000.0f / 7.2f], folded in binary32. *)
Definition MOTOR_KV_RPM_PER_V : F32.float :=
  F32.div (F32.of_Z 20000) (F32.div (F32.of_Z 72) (F32.of_Z 10)).

Record EscConfig : Type := {
  pinSignal : Z;
  usMin : Z;
  usMax : Z;
  usNeutral : Z;
  usMinFwd : Z;
  usMaxFwd : Z
}.

(** The member initialisers of [struct EscConfig]. *)
Definition EscConfig_default : EscConfig := {|
  pinSignal := PIN_ESC_SIGNAL;
  usMin := 1000;
  usMax := 2000;
  usNeutral := 1500;
  usMinFwd := 1520;
  usMaxFwd := 2000
|}.

(** ** Runtime state *)

Record Globals : Type := {
  g_battVoltage_V : F32.float;
  g_escCfg : EscConfig;
  g_deviceConnected : bool;
  g_armed : bool;
  g_targetPct : Z;
  g_outputPct : F32.float;
  g_lastLoopMs : Z;
  g_lastInputMs : Z;
  g_rampTimeMs : Z;
  g_debugEnabled : bool;
  g_logEnabled : bool;
  g_logPeriodMs : Z;
  g_lastLogMs : Z;
  (** [g_txCharacteristic != nullptr] *)
  g_txCharacteristic : bool
}.

(** The initialisers of the globals. *)
Definition Globals_init : Globals := {|
  g_battVoltage_V := F32.div (F32.of_Z 84) (F32.of_Z 10);
  g_escCfg := EscConfig_default;
  g_deviceConnected := false;
  g_armed := false;
  g_targetPct := 0;
  g_outputPct := F32.zero;
  g_lastLoopMs := 0;
  g_lastInputMs := 0;
  g_rampTimeMs := 300;
  g_debugEnabled := true;
  g_logEnabled := false;
  g_logPeriodMs := 200;
  g_lastLogMs := 0;
  g_txCharacteristic := false
|}.

Definition set_deviceConnected (v : bool) (s : Globals) : Globals :=
  {| g_battVoltage_V := g_battVoltage_V s; g_escCfg := g_escCfg s;
     g_deviceConnected := v; g_armed := g_armed s;
     g_targetPct := g_targetPct s; g_outputPct := g_outputPct s;
     g_lastLoopMs := g_lastLoopMs s; g_lastInputMs := g_lastInputMs s;
     g_rampTimeMs := g_rampTimeMs s; g_debugEnabled := g_debugEnabled s;
     g_logEnabled := g_logEnabled s; g_logPeriodMs := g_logPeriodMs s;
     g_lastLogMs := g_lastLogMs s; g_txCharacteristic := g_txCharacteristic s |}.

Definition set_armed (v : bool) (s : Globals) : Globals :=
  {| g_battVoltage_V := g_battVoltage_V s; g_escCfg := g_escCfg s;
     g_deviceConnected := g_deviceConnected s; g_armed := v;
     g_targetPct := g_targetPct s; g_outputPct := g_outputPct s;
     g_lastLoopMs := g_lastLoopMs s; g_lastInputMs := g_lastInputMs s;
     g_rampTimeMs := g_rampTimeMs s; g_debugEnabled := g_debugEnabled s;
     g_logEnabled := g_logEnabled s; g_logPeriodMs := g_logPeriodMs s;
     g_lastLogMs := g_lastLogMs s; g_txCharacteristic := g_txCharacteristic s |}.

Definition set_targetPct (v : Z) (s : Globals) : Globals :=
  {| g_battVoltage_V := g_battVoltage_V s; g_escCfg := g_escCfg s;
     g_deviceConnected := g_deviceConnected s; g_armed := g_armed s;
     g_targetPct := v; g_outputPct := g_outputPct s;
     g_lastLoopMs := g_lastLoopMs s; g_lastInputMs := g_lastInputMs s;
     g_rampTimeMs := g_rampTimeMs s; g_debugEnabled := g_debugEnabled s;
     g_logEnabled := g_logEnabled s; g_logPeriodMs := g_logPeriodMs s;
     g_lastLogMs := g_lastLogMs s; g_txCharacteristic := g_txCharacteristic s |}.

Definition set_outputPct (v : F32.float) (s : Globals) : Globals :=
  {| g_battVoltage_V := g_battVoltage_V s; g_escCfg := g_escCfg s;
     g_deviceConnected := g_deviceConnected s; g_armed := g_armed s;
     g_targetPct := g_targetPct s; g_outputPct := v;
     g_lastLoopMs := g_lastLoopMs s; g_lastInputMs := g_lastInputMs s;
     g_rampTimeMs := g_rampTimeMs s; g_debugEnabled := g_debugEnabled s;
     g_logEnabled := g_logEnabled s; g_logPeriodMs := g_logPeriodMs s;
     g_lastLogMs := g_lastLogMs s; g_txCharacteristic := g_txCharacteristic s |}.

Definition set_lastLoopMs (v : Z) (s : Globals) : Globals :=
  {| g_battVoltage_V := g_battVoltage_V s; g_escCfg := g_escCfg s;
     g_deviceConnected := g_deviceConnected s; g_armed := g_armed s;
     g_targetPct := g_targetPct s; g_outputPct := g_outputPct s;
     g_lastLoopMs := v; g_lastInputMs := g_lastInputMs s;
     g_rampTimeMs := g_rampTimeMs s; g_debugEnabled := g_debugEnabled s;
     g_logEnabled := g_logEnabled s; g_logPeriodMs := g_logPeriodMs s;
     g_lastLogMs := g_lastLogMs s; g_txCharacteristic := g_txCharacteristic s |}.

Definition set_lastInputMs (v : Z) (s : Globals) : Globals :=
  {| g_battVoltage_V := g_battVoltage_V s; g_escCfg := g_escCfg s;
     g_deviceConnected := g_deviceConnected s; g_armed := g_armed s;
     g_targetPct := g_targetPct s; g_outputPct := g_outputPct s;
     g_lastLoopMs := g_lastLoopMs s; g_lastInputMs := v;
     g_rampTimeMs := g_rampTimeMs s; g_debugEnabled := g_debugEnabled s;
     g_logEnabled := g_logEnabled s; g_logPeriodMs := g_logPeriodMs s;
     g_lastLogMs := g_lastLogMs s; g_txCharacteristic := g_txCharacteristic s |}.

Definition set_rampTimeMs (v : Z) (s : Globals) : Globals :=
  {| g_battVoltage_V := g_battVoltage_V s; g_escCfg := g_escCfg s;
     g_deviceConnected := g_deviceConnected s; g_armed := g_armed s;
     g_targetPct := g_targetPct s; g_outputPct := g_outputPct s;
     g_lastLoopMs := g_lastLoopMs s; g_lastInputMs := g_lastInputMs s;
     g_rampTimeMs := v; g_debugEnabled := g_debugEnabled s;
     g_logEnabled := g_logEnabled s; g_logPeriodMs := g_logPeriodMs s;
     g_lastLogMs := g_lastLogMs s; g_txCharacteristic := g_txCharacteristic s |}.

Definition set_debugEnabled (v : bool) (s : Globals) : Globals :=
  {| g_battVoltage_V := g_battVoltage_V s; g_escCfg := g_escCfg s;
     g_deviceConnected := g_deviceConnected s; g_armed := g_armed s;
     g_targetPct := g_targetPct s; g_outputPct := g_outputPct s;
     g_lastLoopMs := g_lastLoopMs s; g_lastInputMs := g_lastInputMs s;
     g_rampTimeMs := g_rampTimeMs s; g_debugEnabled := v;
     g_logEnabled := g_logEnabled s; g_logPeriodMs := g_logPeriodMs s;
     g_lastLogMs := g_lastLogMs s; g_txCharacteristic := g_txCharacteristic s |}.

Definition set_logEnabled (v : bool) (s : Globals) : Globals :=
  {| g_battVoltage_V := g_battVoltage_V s; g_escCfg := g_escCfg s;
     g_deviceConnected := g_deviceConnected s; g_armed := g_armed s;
     g_targetPct := g_targetPct s; g_outputPct := g_outputPct s;
     g_lastLoopMs := g_lastLoopMs s; g_lastInputMs := g_lastInputMs s;
     g_rampTimeMs := g_rampTimeMs s; g_debugEnabled := g_debugEnabled s;
     g_logEnabled := v; g_logPeriodMs := g_logPeriodMs s;
     g_lastLogMs := g_lastLogMs s; g_txCharacteristic := g_txCharacteristic s |}.

Definition set_logPeriodMs (v : Z) (s : Globals) : Globals :=
  {| g_battVoltage_V := g_battVoltage_V s; g_escCfg := g_escCfg s;
     g_deviceConnected := g_deviceConnected s; g_armed := g_armed s;
     g_targetPct := g_targetPct s; g_outputPct := g_outputPct s;
     g_lastLoopMs := g_lastLoopMs s; g_lastInputMs := g_lastInputMs s;
     g_rampTimeMs := g_rampTimeMs s; g_debugEnabled := g_debugEnabled s;
     g_logEnabled := g_logEnabled s; g_logPeriodMs := v;
     g_lastLogMs := g_lastLogMs s; g_txCharacteristic := g_txCharacteristic s |}.

Definition set_lastLogMs (v : Z) (s : Globals) : Globals :=
  {| g_battVoltage_V := g_battVoltage_V s; g_escCfg := g_escCfg s;
     g_deviceConnected := g_deviceConnected s; g_armed := g_armed s;
     g_targetPct := g_targetPct s; g_outputPct := g_outputPct s;
     g_lastLoopMs := g_lastLoopMs s; g_lastInputMs := g_lastInputMs s;
     g_rampTimeMs := g_rampTimeMs s; g_debugEnabled := g_debugEnabled s;
     g_logEnabled := g_logEnabled s; g_logPeriodMs := g_logPeriodMs s;
     g_lastLogMs := v; g_txCharacteristic := g_txCharacteristic s |}.

Definition set_txCharacteristic (v : bool) (s : Globals) : Globals :=
  {| g_battVoltage_V := g_battVoltage_V s; g_escCfg := g_escCfg s;
     g_deviceConnected := g_deviceConnected s; g_armed := g_armed s;
     g_targetPct := g_targetPct s; g_outputPct := g_outputPct s;
     g_lastLoopMs := g_lastLoopMs s; g_lastInputMs := g_lastInputMs s;
     g_rampTimeMs := g_rampTimeMs s; g_debugEnabled := g_debugEnabled s;
     g_logEnabled := g_logEnabled s; g_logPeriodMs := g_logPeriodMs s;
     g_lastLogMs := g_lastLogMs s; g_txCharacteristic := v |}.

(** ** Hardware: clock and outputs *)

Inductive Event : Type :=
| SerialPrint (s : string)
| SerialPrintln (s : string)
| BleNotify (s : string)
| BleStartAdvertising
| EscAttach (pin lo hi : Z)
| EscWrite (us : Z)
| PinModeOutput (pin : Z)
| DigitalWrite (pin : Z) (level : bool).

Record World : Type := {
  globals : Globals;
  (** milliseconds since boot *)
  clock : Z;
  (** everything the sketch has sent out, oldest first *)
  events : list Event
}.

Definition World_boot : World :=
  {| globals := Globals_init; clock := 0; events := [] |}.

(** ** The sketch as a state transformer *)

Definition M (A : Type) : Type := World -> A * World.

Definition ret {A : Type} (a : A) : M A := fun w => (a, w).

Definition bind {A B : Type} (c : M A) (k : A -> M B) : M B :=
  fun w => k (fst (c w)) (snd (c w)).

Notation "x <- c ;; k" := (bind c (fun x => k))
  (at level 61, c at next level, right associativity).
Notation "c ;; k" := (bind c (fun _ => k))
  (at level 61, right associativity).

Definition exec {A : Type} (c : M A) (w : World) : World := snd (c w).

Definition get {A : Type} (f : Globals -> A) : M A :=
  fun w => (f (globals w), w).

Definition put (f : Globals -> Globals) : M unit :=
  fun w => (tt, {| globals := f (globals w); clock := clock w;
                   events := events w |}).

Definition emit (e : Event) : M unit :=
  fun w => (tt, {| globals := globals w; clock := clock w;
                   events := (events w ++ [e])%list |}).

(** [millis()] is a [uint32_t]. *)
Definition millis : M Z := fun w => (uint32_of (clock w), w).

Definition delay (ms : Z) : M unit :=
  fun w => (tt, {| globals := globals w; clock := clock w + ms;
                   events := events w |}).

Definition when (b : bool) (c : M unit) : M unit := if b then c else ret tt.

(** ** Utilities *)

Definition clampInt (v lo hi : Z) : Z :=
  if v <? lo then lo else if v >? hi then hi else v.

Definition clampFloat (v lo hi : F32.float) : F32.float :=
  if F32.ltb v lo then lo else if F32.ltb hi v then hi else v.

(** Send to Serial + BLE (if connected). *)
Definition logLine (line : string) : M unit :=
  emit (SerialPrintln line) ;;
  conn <- get g_deviceConnected ;;
  tx <- get g_txCharacteristic ;;
  when (conn && tx) (emit (BleNotify line)).

(** ** ESC / motor low level *)

Definition escClampForwardOnly (cfg : EscConfig) (us : Z) : Z :=
  let us := clampInt us (usMin cfg) (usMax cfg) in
  let us := if us <? usMinFwd cfg then usNeutral cfg else us in
  let us := if us >? usMaxFwd cfg then usMaxFwd cfg else us in
  us.

Definition escWriteMicrosecondsSafe (us : Z) : M unit :=
  cfg <- get g_escCfg ;;
  emit (EscWrite (escClampForwardOnly cfg us)).

(** [pct] is the [uint8_t] argument. *)
(** The parameter is a [uint8_t]: an argument is converted to it by the
    call, that is, taken modulo 256. *)
Definition escPulseFromPercent (cfg : EscConfig) (pct : Z) : Z :=
  let pct := uint8_of pct in
  let pct := uint8_of (clampInt pct 0 100) in
  if pct =? 0 then usNeutral cfg
  else
    let span := int_of (usMaxFwd cfg - usMinFwd cfg) in
    let us := int_of (usMinFwd cfg + Z.quot (int_of (span * pct)) 100) in
    escClampForwardOnly cfg us.

Definition estimateRpmFromPercent (batt pct : F32.float) : F32.float :=
  let pct := clampFloat pct F32.zero F32.hundred in
  let rpmNoLoad := F32.mul MOTOR_KV_RPM_PER_V batt in
  F32.mul rpmNoLoad (F32.div pct F32.hundred).

Definition percentFromTargetRpm (batt rpmTarget : F32.float) : Z :=
  if F32.leb rpmTarget F32.zero then 0
  else
    let rpmNoLoad := F32.mul MOTOR_KV_RPM_PER_V batt in
    if F32.leb rpmNoLoad F32.one then 0
    else
      let pct := F32.mul F32.hundred (F32.div rpmTarget rpmNoLoad) in
      let pct := clampFloat pct F32.zero F32.hundred in
      uint8_of (F32.trunc (F32.add pct F32.half)).

(** [(uint8_t)(g_outputPct + 0.5f)], the argument the sketch gives to
    [escPulseFromPercent]. *)
Definition roundedOutputPct (out : F32.float) : Z :=
  uint8_of (F32.trunc (F32.add out F32.half)).

(** The loop [while (millis() - t0 < msHold) delay(10);]: [fuel] bounds the
    number of iterations. *)
Fixpoint holdNeutral (fuel : nat) (t0 msHold : Z) : M unit :=
  match fuel with
  | O => ret tt
  | S fuel' =>
      now <- millis ;;
      if uint32_of (now - t0) <? msHold
      then delay 10 ;; holdNeutral fuel' t0 msHold
      else ret tt
  end.

Definition escArmNeutral (msHold : Z) : M unit :=
  cfg <- get g_escCfg ;;
  escWriteMicrosecondsSafe (usNeutral cfg) ;;
  t0 <- millis ;;
  holdNeutral (Z.to_nat (msHold / 10 + 1)) t0 msHold ;;
  put (set_armed true).

(** ** Throttle state update *)

(** [pct] is the [uint8_t] argument. *)
Definition setTargetPercent (pct : Z) : M unit :=
  put (set_targetPct (uint8_of (clampInt pct 0 100))) ;;
  now <- millis ;;
  put (set_lastInputMs now).

Definition stopMotor : M unit :=
  put (set_targetPct 0) ;;
  put (set_outputPct F32.zero) ;;
  cfg <- get g_escCfg ;;
  escWriteMicrosecondsSafe (usNeutral cfg) ;;
  now <- millis ;;
  put (set_lastInputMs now).

(** The ramp step of one tick: the new [g_outputPct] before the final
    clamp. *)
Definition rampStep (rampTimeMs dt targetPct : Z) (outputPct : F32.float)
  : F32.float :=
  if (rampTimeMs =? 0) || (dt =? 0) then F32.of_Z targetPct
  else
    let maxDelta :=
      F32.mul F32.hundred (F32.div (F32.of_Z dt) (F32.of_Z rampTimeMs)) in
    let target := F32.of_Z targetPct in
    let delta := F32.sub target outputPct in
    if F32.leb (F32.fabs delta) maxDelta then target
    else F32.add outputPct
           (if F32.ltb F32.zero delta then maxDelta else F32.neg maxDelta).

Definition applyThrottleWithRamping : M unit :=
  now <- millis ;;
  last <- get g_lastLoopMs ;;
  let dt := if last =? 0 then 0 else uint32_of (now - last) in
  put (set_lastLoopMs now) ;;
  armed <- get g_armed ;;
  cfg <- get g_escCfg ;;
  if negb armed then
    escWriteMicrosecondsSafe (usNeutral cfg) ;;
    put (set_outputPct F32.zero)
  else
    rampTimeMs <- get g_rampTimeMs ;;
    targetPct <- get g_targetPct ;;
    outputPct <- get g_outputPct ;;
    put (set_outputPct (rampStep rampTimeMs dt targetPct outputPct)) ;;
    outputPct <- get g_outputPct ;;
    put (set_outputPct (clampFloat outputPct F32.zero F32.hundred)) ;;
    outputPct <- get g_outputPct ;;
    let pulse := escPulseFromPercent cfg (roundedOutputPct outputPct) in
    escWriteMicrosecondsSafe pulse.

(** ** Text and [float]

    [String::toFloat] and [String(float, decimalPlaces)] belong to the
    Arduino core.  The sketch is parameterised by them below; these two
    functions are the instances the worked examples run with: plain decimal
    notation read to the nearest binary32 value, and fixed-point notation
    rounded half up, in [decimalPlaces + 2] characters at least (the width
    the ESP32 core passes to [dtostrf]), with blanks in front of a shorter
    text. *)

Module FloatText.

Fixpoint fraction (num den : Z) (s : string) : Z * Z :=
  match s with
  | String c r =>
      if Str.isdigit c
      then fraction (num * 10 + (Str.code c - 48)) (den * 10) r
      else (num, den)
  | EmptyString => (num, den)
  end.

Fixpoint mantissa (num : Z) (s : string) : Z * Z :=
  match s with
  | String c r =>
      if Str.isdigit c then mantissa (num * 10 + (Str.code c - 48)) r
      else if Ascii.eqb c "." then fraction num 1 r
      else (num, 1)
  | EmptyString => (num, 1)
  end.

Definition ratio (sign : bool) (nd : Z * Z) : F32.float :=
  match fst nd, snd nd with
  | Zpos n, Zpos d =>
      F32.div (S754_finite sign n 0) (S754_finite false d 0)
  | _, _ => S754_zero sign
  end.

Definition toFloat (s : string) : F32.float :=
  match Str.ltrim s with
  | String "-" r => ratio true (mantissa 0 r)
  | String "+" r => ratio false (mantissa 0 r)
  | t => ratio false (mantissa 0 t)
  end.

Definition fixed (m : Z) (e : Z) (decimalPlaces : Z) : string :=
  let scale := 10 ^ decimalPlaces in
  let n := m * scale in
  let q := match e with
           | Zneg p => (2 * n + 2 ^ Zpos p) / (2 * 2 ^ Zpos p)
           | _ => n * 2 ^ e
           end in
  let whole := Str.ofInt (q / scale) in
  if decimalPlaces =? 0 then whole
  else whole ++ "." ++ Str.substring 1 (Str.ofInt (scale + q mod scale)).

Fixpoint blanks (n : nat) : string :=
  match n with
  | O => ""
  | S n' => String " " (blanks n')
  end.

Definition pad (width : Z) (s : string) : string :=
  blanks (Z.to_nat (width - Str.length s)) ++ s.

Definition ofFloat (f : F32.float) (decimalPlaces : Z) : string :=
  match f with
  | S754_nan => "nan"
  | S754_infinity s => if s then "-inf" else "inf"
  | S754_zero s =>
      pad (decimalPlaces + 2)
        ((if s then "-" else "") ++ fixed 0 0 decimalPlaces)
  | S754_finite s m e =>
      pad (decimalPlaces + 2)
        ((if s then "-" else "") ++ fixed (Zpos m) e decimalPlaces)
  end.

End FloatText.

(** ** Command parsing *)

(** [String::operator==]. *)
Infix "==" := String.eqb (at level 70, no associativity).

Section Firmware.

(** Two conversions of the Arduino core between text and [float] are taken
    as given: [String::toFloat] and [String(float, decimalPlaces)]. *)
Variable toFloat : string -> F32.float.
Variable ofFloat : F32.float -> Z -> string.

Definition printHelp : M unit :=
  logLine "HELP: ARM, STOP, FULL, SET <0..100>, RPM <val>, US <1000..2000>, RAMP <ms>, DBG ON|OFF, LOG START|STOP, LOG PERIOD <ms>, STATUS, LED ON|OFF".

(** The text [printStatus] builds. *)
Definition statusText (reason : string) (s : Globals) : string :=
  let pulse := escPulseFromPercent (g_escCfg s)
                 (roundedOutputPct (g_outputPct s)) in
  let rpmEst := estimateRpmFromPercent (g_battVoltage_V s) (g_outputPct s) in
  "STATUS [" ++ reason ++ "] "
  ++ "conn=" ++ Str.ofBool (g_deviceConnected s)
  ++ " armed=" ++ Str.ofBool (g_armed s)
  ++ " targetPct=" ++ Str.ofInt (g_targetPct s)
  ++ " outPct=" ++ ofFloat (g_outputPct s) 1
  ++ " pulse_us=" ++ Str.ofInt pulse
  ++ " rpm_est=" ++ ofFloat rpmEst 0
  ++ " ramp_ms=" ++ Str.ofInt (g_rampTimeMs s)
  ++ " log=" ++ Str.ofBool (g_logEnabled s).

Definition printStatus (reason : string) : M unit :=
  s <- get (fun s => s) ;;
  logLine (statusText reason s).

(** The text [logCsvNow] builds at time [t]. *)
Definition csvText (t : Z) (tag : string) (s : Globals) : string :=
  let pulse := escPulseFromPercent (g_escCfg s)
                 (roundedOutputPct (g_outputPct s)) in
  let rpmEst := estimateRpmFromPercent (g_battVoltage_V s) (g_outputPct s) in
  Str.ofInt t
  ++ "," ++ tag
  ++ "," ++ Str.ofBool (g_deviceConnected s)
  ++ "," ++ Str.ofBool (g_armed s)
  ++ "," ++ Str.ofInt (g_targetPct s)
  ++ "," ++ ofFloat (g_outputPct s) 2
  ++ "," ++ Str.ofInt pulse
  ++ "," ++ ofFloat rpmEst 0.

Definition logCsvNow (tag : string) : M unit :=
  t <- millis ;;
  s <- get (fun s => s) ;;
  logLine (csvText t tag s).

(** The Control Pad branch of [handleTextCommand], entered when the line
    starts with ["!B"] and has at least 4 characters. *)
Definition handleControlPad (cmd : string) : M unit :=
  let btn := Str.code (Str.charAt 2 cmd) - 48 in
  let state := Str.code (Str.charAt 3 cmd) - 48 in
  dbg <- get g_debugEnabled ;;
  when dbg (
    emit (SerialPrint "CPAD raw=") ;;
    emit (SerialPrint cmd) ;;
    emit (SerialPrint " btn=") ;;
    emit (SerialPrint (Str.ofInt btn)) ;;
    emit (SerialPrint " state=") ;;
    emit (SerialPrintln (Str.ofInt state))) ;;
  if negb (state =? 1) then ret tt
  else if btn =? BTN_UP_ID then
    t <- get g_targetPct ;;
    let next := clampInt (t + 5) 0 100 in
    setTargetPercent (uint8_of next) ;;
    printStatus "CPAD_UP"
  else if btn =? BTN_DOWN_ID then
    t <- get g_targetPct ;;
    let next := clampInt (t - 5) 0 100 in
    setTargetPercent (uint8_of next) ;;
    printStatus "CPAD_DOWN"
  else if btn =? BTN_FULL_ID then
    setTargetPercent 100 ;;
    printStatus "CPAD_FULL"
  else if btn =? BTN_STOP_ID then
    stopMotor ;;
    printStatus "CPAD_STOP"
  else
    logLine "CPAD: unknown button".

Definition handleTextCommand (cmd : string) : M unit :=
  let cmd := Str.trim cmd in
  if Str.length cmd =? 0 then ret tt
  else if Str.startsWith cmd "!B" && (Str.length cmd >=? 4) then
    handleControlPad cmd
  else
    let upper := Str.toUpperCase cmd in
    if upper == "HELP" then printHelp
    else if upper == "LED ON" then
      emit (DigitalWrite LED_PIN true) ;; logLine "LED ON"
    else if upper == "LED OFF" then
      emit (DigitalWrite LED_PIN false) ;; logLine "LED OFF"
    else if upper == "ARM" then
      escArmNeutral 3000 ;; stopMotor ;; printStatus "ARMED"
    else if (upper == "STOP") || (upper == "0") then
      stopMotor ;; printStatus "STOP"
    else if (upper == "FULL") || (upper == "1") then
      setTargetPercent 100 ;; printStatus "FULL"
    else if upper == "DBG ON" then
      put (set_debugEnabled true) ;; logLine "DBG ON"
    else if upper == "DBG OFF" then
      put (set_debugEnabled false) ;; logLine "DBG OFF"
    else if upper == "LOG START" then
      put (set_logEnabled true) ;; logLine "LOG START (CSV)"
    else if upper == "LOG STOP" then
      put (set_logEnabled false) ;; logLine "LOG STOP"
    else if upper == "STATUS" then printStatus "MANUAL"
    else if Str.startsWith upper "SET " then
      let v := Str.toInt (Str.substring 4 cmd) in
      setTargetPercent (uint8_of (clampInt v 0 100)) ;;
      printStatus "SET"
    else if Str.startsWith upper "RPM " then
      let rpm := toFloat (Str.substring 4 cmd) in
      batt <- get g_battVoltage_V ;;
      let pct := percentFromTargetRpm batt rpm in
      setTargetPercent pct ;;
      printStatus "RPM"
    else if Str.startsWith upper "US " then
      let us := Str.toInt (Str.substring 3 cmd) in
      escWriteMicrosecondsSafe us ;;
      t <- get g_targetPct ;;
      put (set_outputPct (F32.of_Z t)) ;;
      printStatus "US"
    else if Str.startsWith upper "RAMP " then
      let ms := Str.toInt (Str.substring 5 cmd) in
      put (set_rampTimeMs (uint32_of (clampInt ms 0 10000))) ;;
      printStatus "RAMP"
    else if Str.startsWith upper "LOG PERIOD " then
      let ms := Str.toInt (Str.substring 11 cmd) in
      put (set_logPeriodMs (uint32_of (clampInt ms 20 10000))) ;;
      printStatus "LOGPER"
    else
      logLine ("Unknown cmd: " ++ cmd).

(** ** BLE callbacks *)

Definition MyServerCallbacks_onConnect : M unit :=
  put (set_deviceConnected true) ;;
  emit (SerialPrintln "BLE: connected") ;;
  printStatus "BLE_CONNECT".

Definition MyServerCallbacks_onDisconnect : M unit :=
  put (set_deviceConnected false) ;;
  emit (SerialPrintln "BLE: disconnected, advertising again...") ;;
  emit BleStartAdvertising ;;
  printStatus "BLE_DISCONNECT".

(** [value] is what the phone wrote to the RX characteristic. *)
Definition RxCallbacks_onWrite (value : string) : M unit :=
  let cmd := Str.trim value in
  if Str.length cmd =? 0 then ret tt
  else
    dbg <- get g_debugEnabled ;;
    when dbg (emit (SerialPrint "BLE RX: ") ;; emit (SerialPrintln cmd)) ;;
    handleTextCommand cmd.

(** ** Setup and loop *)

Definition appSetup : M unit :=
  delay 300 ;;
  emit (PinModeOutput LED_PIN) ;;
  emit (DigitalWrite LED_PIN false) ;;
  cfg <- get g_escCfg ;;
  emit (EscAttach (pinSignal cfg) (usMin cfg) (usMax cfg)) ;;
  escWriteMicrosecondsSafe (usNeutral cfg) ;;
  delay 200 ;;
  put (set_txCharacteristic true) ;;
  emit BleStartAdvertising ;;
  emit (SerialPrintln "Ready: BLE UART + Control Pad + Serial") ;;
  printHelp ;;
  escArmNeutral 3000 ;;
  stopMotor ;;
  printStatus "BOOT".

(** The first block of [appLoop]; [serial] is the line
    [Serial.readStringUntil] returns when [Serial.available()], [None] when
    nothing is available. *)
Definition serialCommandInput (serial : option string) : M unit :=
  match serial with
  | Some line =>
      let cmd := Str.trim line in
      when (Str.length cmd >? 0) (handleTextCommand cmd)
  | None => ret tt
  end.

(** The third block of [appLoop], "Periodic CSV logging". *)
Definition periodicCsvLogging : M unit :=
  logEnabled <- get g_logEnabled ;;
  when logEnabled (
    now <- millis ;;
    last <- get g_lastLogMs ;;
    period <- get g_logPeriodMs ;;
    when (uint32_of (now - last) >=? period) (
      logCsvNow "LOG" ;;
      put (set_lastLogMs now))).

Definition appLoop (serial : option string) : M unit :=
  serialCommandInput serial ;;
  applyThrottleWithRamping ;;
  periodicCsvLogging ;;
  delay 5.

End Firmware.

(** ** [logCsv], and main.ino *)

(** [logCsv] reads the clock and builds nothing; the sketch never calls it. *)
Definition logCsv (tag : string) : M unit :=
  t <- millis ;;
  ret tt.

(** What drives the sketch once [setup] has returned: the Arduino core calls
    [loop] again and again ([serial] is the line waiting on the serial port,
    if any), and the BLE stack calls the callbacks when a central connects,
    disconnects or writes the RX characteristic. *)
Inductive Stimulus : Type :=
| Loop (serial : option string)
| BleConnect
| BleDisconnect
| BleWrite (value : string).

Section Sketch.

Variable toFloat : string -> F32.float.
Variable ofFloat : F32.float -> Z -> string.

Definition setup : M unit := appSetup ofFloat.

Definition loop (serial : option string) : M unit :=
  appLoop toFloat ofFloat serial.

(** One call from outside, run to completion. *)
Definition react (st : Stimulus) : M unit :=
  match st with
  | Loop serial => loop serial
  | BleConnect => MyServerCallbacks_onConnect ofFloat
  | BleDisconnect => MyServerCallbacks_onDisconnect ofFloat
  | BleWrite value => RxCallbacks_onWrite toFloat ofFloat value
  end.

Fixpoint run (l : list Stimulus) : M unit :=
  match l with
  | [] => ret tt
  | st :: l' => react st ;; run l'
  end.

End Sketch.

(** ** Vocabulary of the properties *)

(** A pulse configuration the sketch is meant to run with: the forward band
    lies inside the physical range, neutral does not exceed the band's upper
    end, and all widths fit into one 50 Hz servo frame (20000 us). *)
Definition EscConfig_ok (cfg : EscConfig) : Prop :=
  0 <= usMin cfg /\ usMin cfg <= usMinFwd cfg /\
  usMinFwd cfg <= usMaxFwd cfg /\ usMaxFwd cfg <= usMax cfg /\
  usMax cfg <= 20000 /\
  usMin cfg <= usNeutral cfg /\ usNeutral cfg <= usMaxFwd cfg.

(** What [logLine line] sends out when the globals are [s]. *)
Definition logLine_events (s : Globals) (line : string) : list Event :=
  SerialPrintln line ::
  (if g_deviceConnected s && g_txCharacteristic s
   then [BleNotify line] else []).

(** [sub] occurs in [s]. *)
Definition contains (s sub : string) : Prop :=
  exists pre post, s = pre ++ sub ++ post.

(** The world [w] after the events [l] have been sent out. *)
Definition addEvents (l : list Event) (w : World) : World :=
  {| globals := globals w; clock := clock w; events := (events w ++ l)%list |}.

(** The debug echo of a Control Pad packet. *)
Definition cpadDebug_events (s : Globals) (cmd : string) : list Event :=
  if g_debugEnabled s
  then [SerialPrint "CPAD raw="; SerialPrint cmd; SerialPrint " btn=";
        SerialPrint (Str.ofInt (Str.code (Str.charAt 2 cmd) - 48));
        SerialPrint " state=";
        SerialPrintln (Str.ofInt (Str.code (Str.charAt 3 cmd) - 48))]
  else [].

(** The debug echo of a line received over BLE. *)
Definition bleRxDebug (cmd : string) : M unit :=
  dbg <- get g_debugEnabled ;;
  when (dbg && negb (Str.length (Str.trim cmd) =? 0))
    (emit (SerialPrint "BLE RX: ") ;; emit (SerialPrintln (Str.trim cmd))).

(** The columns of a CSV log line as the specification lists them, each
    with its value at time [t]. *)
Definition csvColumns (ofFloat : F32.float -> Z -> string)
  (t : Z) (tag : string) (s : Globals) : list (string * string) :=
  [ ("t_ms", Str.ofInt t);
    ("tag", tag);
    ("connected", Str.ofBool (g_deviceConnected s));
    ("armed", Str.ofBool (g_armed s));
    ("targetPct", Str.ofInt (g_targetPct s));
    ("outputPct", ofFloat (g_outputPct s) 2);
    ("pulse_us",
     Str.ofInt (escPulseFromPercent (g_escCfg s)
                  (roundedOutputPct (g_outputPct s))));
    ("rpm_est",
     ofFloat (estimateRpmFromPercent (g_battVoltage_V s) (g_outputPct s)) 0) ].

(** The gate of the periodic CSV log at time [now]. *)
Definition logDue (s : Globals) (now : Z) : bool :=
  uint32_of (now - g_lastLogMs s) >=? g_logPeriodMs s.

(** The elapsed time a tick at [w] works with. *)
Definition tick_dt (w : World) : Z :=
  let last := g_lastLoopMs (globals w) in
  if last =? 0 then 0 else uint32_of (uint32_of (clock w) - last).

(** The largest step of one tick, as [rampStep] computes it. *)
Definition maxDeltaOf (dt rampTimeMs : Z) : F32.float :=
  F32.mul F32.hundred (F32.div (F32.of_Z dt) (F32.of_Z rampTimeMs)).

(** The ramped branch of [rampStep]. *)
Definition rampCore (target outputPct maxDelta : F32.float) : F32.float :=
  let delta := F32.sub target outputPct in
  if F32.leb (F32.fabs delta) maxDelta then target
  else F32.add outputPct
         (if F32.ltb F32.zero delta then maxDelta else F32.neg maxDelta).

(** A value [g_outputPct] is meant to hold: a number in [[0, 100]]. *)
Definition OutputPct_ok (f : F32.float) : Prop :=
  F32.nonneg f /\ F32.V f <= F32.V F32.hundred.

(** The state after [appSetup], and the same a few loop iterations later
    with a serial [SET 80] in the last one. *)
Definition World_ready : World :=
  exec (appSetup FloatText.ofFloat) World_boot.

Definition World_ramping : World :=
  exec (appLoop FloatText.toFloat FloatText.ofFloat None ;;
        appLoop FloatText.toFloat FloatText.ofFloat None ;;
        appLoop FloatText.toFloat FloatText.ofFloat (Some "SET 80"))
       World_ready.

(** The output at 64 percent and a ramp time of ten seconds: [RAMP 0] and
    [SET 64] snap the output to 64, then [RAMP 10000]. *)
Definition World_slow_ramp : World :=
  exec (appLoop FloatText.toFloat FloatText.ofFloat None ;;
        appLoop FloatText.toFloat FloatText.ofFloat (Some "RAMP 0") ;;
        appLoop FloatText.toFloat FloatText.ofFloat (Some "SET 64") ;;
        appLoop FloatText.toFloat FloatText.ofFloat (Some "RAMP 10000"))
       World_ready.

(** A state that has not been armed: the globals as initialised, some time
    after power-up. *)
Definition World_unarmed : World :=
  {| globals := Globals_init; clock := 1234; events := [] |}.

(** ** Vocabulary of the invariants *)

(** The pulse widths written to the ESC, the lines notified over BLE and the
    lines printed on the serial port, oldest first. *)
Definition pulses (l : list Event) : list Z :=
  flat_map (fun e => match e with EscWrite us => [us] | _ => [] end) l.

Definition notifications (l : list Event) : list string :=
  flat_map (fun e => match e with BleNotify s => [s] | _ => [] end) l.

Definition serialLines (l : list Event) : list string :=
  flat_map (fun e => match e with SerialPrintln s => [s] | _ => [] end) l.

(** An output other than a pulse and a notification. *)
Definition plain (e : Event) : bool :=
  match e with
  | EscWrite _ | BleNotify _ => false
  | _ => true
  end.

(** A pulse the forward-only policy allows. *)
Definition PulseSafe (cfg : EscConfig) (us : Z) : Prop :=
  us = usNeutral cfg \/ usMinFwd cfg <= us <= usMaxFwd cfg.

(** An output the forward-only policy allows: any but a pulse outside the
    forward band that is not neutral. *)
Definition safeOutput (cfg : EscConfig) (e : Event) : Prop :=
  match e with
  | EscWrite us => PulseSafe cfg us
  | _ => True
  end.

(** An output other than a BLE notification. *)
Definition silent (e : Event) : Prop :=
  match e with
  | BleNotify _ => False
  | _ => True
  end.

(** The ranges the control state is meant to stay in. *)
Definition State_ok (s : Globals) : Prop :=
  0 <= g_targetPct s <= 100 /\
  OutputPct_ok (g_outputPct s) /\
  0 <= g_rampTimeMs s <= 10000 /\
  20 <= g_logPeriodMs s <= 10000.

(** The sketch changes its globals by assignments and reaches the outside by
    outputs.  [Invariant G E] lists, assignment by assignment and output by
    output, what it takes for [G] to hold of the globals whatever the sketch
    does, and for [E] to hold of everything it sends out: the values
    assigned are the ones the code computes ([g_targetPct] only gets a
    clamped percentage, a pulse only leaves through the forward-only clamp,
    a notification only when a central is connected, ...). *)
Record Invariant (G : Globals -> Prop) (E : Event -> Prop) : Prop := {
  inv_plain : forall e, plain e = true -> E e;
  inv_pulse : forall s us,
    G s -> E (EscWrite (escClampForwardOnly (g_escCfg s) us));
  inv_notify : forall s line,
    G s -> g_deviceConnected s = true -> g_txCharacteristic s = true ->
    E (BleNotify line);
  inv_targetPct : forall s v, G s -> 0 <= v <= 100 -> G (set_targetPct v s);
  inv_outputPct_zero : forall s, G s -> G (set_outputPct F32.zero s);
  inv_outputPct_target : forall s,
    G s -> G (set_outputPct (F32.of_Z (g_targetPct s)) s);
  inv_outputPct_ramp : forall s dt,
    G s -> g_armed s = true -> 0 <= dt < 2 ^ 32 ->
    G (set_outputPct
         (clampFloat
            (rampStep (g_rampTimeMs s) dt (g_targetPct s) (g_outputPct s))
            F32.zero F32.hundred) s);
  inv_rampTimeMs : forall s v,
    G s -> 0 <= v <= 10000 -> G (set_rampTimeMs v s);
  inv_logPeriodMs : forall s v,
    G s -> 20 <= v <= 10000 -> G (set_logPeriodMs v s);
  inv_armed : forall s, G s -> G (set_armed true s);
  inv_lastLoopMs : forall s v, G s -> G (set_lastLoopMs v s);
  inv_lastInputMs : forall s v, G s -> G (set_lastInputMs v s);
  inv_lastLogMs : forall s v, G s -> G (set_lastLogMs v s);
  inv_debugEnabled : forall s b, G s -> G (set_debugEnabled b s);
  inv_logEnabled : forall s b, G s -> G (set_logEnabled b s)
}.

(** [c] started where [G] holds ends where [G] holds, and has only added
    outputs of which [E] holds. *)
Definition respects {A : Type} (G : Globals -> Prop) (E : Event -> Prop)
  (c : M A) : Prop :=
  forall w, G (globals w) ->
    G (globals (exec c w)) /\
    exists l, events (exec c w) = (events w ++ l)%list /\ Forall E l.

(** The lines [handleTextCommand] knows, in upper case: the keywords it
    compares with and the prefixes of the commands that take a value. *)
Definition keywords : list string :=
  ["HELP"; "LED ON"; "LED OFF"; "ARM"; "STOP"; "0"; "FULL"; "1";
   "DBG ON"; "DBG OFF"; "LOG START"; "LOG STOP"; "STATUS"].

Definition valuePrefixes : list string :=
  ["SET "; "RPM "; "US "; "RAMP "; "LOG PERIOD "].

Definition recognised (upper : string) : bool :=
  existsb (String.eqb upper) keywords
  || existsb (Str.startsWith upper) valuePrefixes.

(** The test of the Control Pad branch. *)
Definition isControlPad (cmd : string) : bool :=
  Str.startsWith cmd "!B" && (Str.length cmd >=? 4).

(** A line of whitespace only. *)
Fixpoint blank (s : string) : bool :=
  match s with
  | String c r => Str.isspace c && blank r
  | EmptyString => true
  end.

(** The lines that reach the actuator or the output directly (the line is
    trimmed): a press of the STOP button, [ARM], [STOP] and its alias, and
    [US]. *)
Definition actuates (cmd : string) : bool :=
  if isControlPad cmd
  then (Str.code (Str.charAt 3 cmd) - 48 =? 1)
       && (Str.code (Str.charAt 2 cmd) - 48 =? BTN_STOP_ID)
  else
    let upper := Str.toUpperCase cmd in
    String.eqb upper "ARM" || String.eqb upper "STOP" || String.eqb upper "0"
    || Str.startsWith upper "US ".

(** ** Machine integers: casts that do nothing *)

Lemma int_of_small (z : Z) : - 2 ^ 31 <= z < 2 ^ 31 -> int_of z = z.
Proof.
  intros H. unfold int_of.
  rewrite Z.mod_small by lia. lia.
Qed.

Lemma uint8_of_small (z : Z) : 0 <= z < 256 -> uint8_of z = z.
Proof. intros H. unfold uint8_of. apply Z.mod_small. simpl. lia. Qed.

Lemma uint32_of_small (z : Z) : 0 <= z < 2 ^ 32 -> uint32_of z = z.
Proof. intros H. unfold uint32_of. now apply Z.mod_small. Qed.

Lemma clampInt_range (v lo hi : Z) :
  lo <= hi -> lo <= clampInt v lo hi <= hi.
Proof.
  intros H. unfold clampInt.
  destruct (Z.ltb_spec v lo); [lia|].
  destruct (Z.gtb_spec v hi); lia.
Qed.

Lemma clampInt_id (v lo hi : Z) : lo <= v <= hi -> clampInt v lo hi = v.
Proof.
  intros H. unfold clampInt.
  destruct (Z.ltb_spec v lo); [lia|].
  destruct (Z.gtb_spec v hi); lia.
Qed.

Lemma clampInt_idem (v lo hi : Z) :
  lo <= hi -> clampInt (clampInt v lo hi) lo hi = clampInt v lo hi.
Proof. intros H. apply clampInt_id. now apply clampInt_range. Qed.

Lemma uint8_of_clampInt (v lo hi : Z) :
  0 <= lo -> lo <= hi -> hi < 256 ->
  uint8_of (clampInt v lo hi) = clampInt v lo hi.
Proof.
  intros H0 H1 H2. apply uint8_of_small.
  pose proof (clampInt_range v lo hi H1). lia.
Qed.

Lemma uint32_of_clampInt (v lo hi : Z) :
  0 <= lo -> lo <= hi -> hi < 2 ^ 32 ->
  uint32_of (clampInt v lo hi) = clampInt v lo hi.
Proof.
  intros H0 H1 H2. apply uint32_of_small.
  pose proof (clampInt_range v lo hi H1). lia.
Qed.

(** ** binary32: rounding, ordering and the four operations *)

Module F32Facts.
Import F32.

Lemma fexp32_eq (z : Z) : fexp 24 128 z = Z.max (z - 24) (-149).
Proof. reflexivity. Qed.

(** digits *)
Lemma digits2_pos_size (p : positive) : digits2_pos p = Pos.size p.
Proof. induction p; simpl; now rewrite ?IHp. Qed.

Lemma digits2_pos_bounds (p : positive) :
  2 ^ (Zpos (digits2_pos p) - 1) <= Zpos p < 2 ^ Zpos (digits2_pos p).
Proof.
  rewrite digits2_pos_size.
  pose proof (Pos.size_gt p) as Hgt. pose proof (Pos.size_le p) as Hle.
  apply Pos2Z.pos_lt_pos in Hgt. apply Pos2Z.pos_le_pos in Hle.
  rewrite Pos2Z.inj_pow in Hgt, Hle.
  change (Zpos p~0) with (2 * Zpos p) in Hle.
  split; [|exact Hgt].
  assert (E : 2 ^ Zpos (Pos.size p) = 2 * 2 ^ (Zpos (Pos.size p) - 1)).
  { rewrite <- Z.pow_succ_r by lia. f_equal. lia. }
  lia.
Qed.

Lemma Zdigits2_bounds (m : Z) :
  0 < m -> 2 ^ (Zdigits2 m - 1) <= m < 2 ^ Zdigits2 m.
Proof.
  destruct m as [|p|p]; try lia. intros _. apply digits2_pos_bounds.
Qed.

Lemma Zdigits2_pos (m : Z) : 0 < m -> 0 < Zdigits2 m.
Proof. destruct m; simpl; lia. Qed.

Lemma Zdigits2_unique (m k : Z) :
  2 ^ (k - 1) <= m < 2 ^ k -> 0 < k -> Zdigits2 m = k.
Proof.
  intros [Hlo Hhi] Hk.
  assert (Hm : 0 < m) by (pose proof (Z.pow_pos_nonneg 2 (k - 1)); lia).
  pose proof (Zdigits2_bounds m Hm) as [Dlo Dhi].
  pose proof (Zdigits2_pos m Hm) as Hd.
  destruct (Z.lt_trichotomy (Zdigits2 m) k) as [H|[H|H]]; [|exact H|].
  - assert (2 ^ Zdigits2 m <= 2 ^ (k - 1)) by (apply Z.pow_le_mono_r; lia). lia.
  - assert (2 ^ k <= 2 ^ (Zdigits2 m - 1)) by (apply Z.pow_le_mono_r; lia). lia.
Qed.

(** value order gives digit order *)
Lemma Zdigits2_le (a b : Z) : 0 < a -> a <= b -> Zdigits2 a <= Zdigits2 b.
Proof.
  intros Ha Hab.
  pose proof (Zdigits2_bounds a Ha) as [A1 A2].
  pose proof (Zdigits2_bounds b ltac:(lia)) as [B1 B2].
  pose proof (Zdigits2_pos a Ha). pose proof (Zdigits2_pos b ltac:(lia)).
  destruct (Z.le_gt_cases (Zdigits2 a) (Zdigits2 b)) as [H'|H']; [exact H'|].
  assert (2 ^ Zdigits2 b <= 2 ^ (Zdigits2 a - 1)) by (apply Z.pow_le_mono_r; lia).
  lia.
Qed.

Lemma Zdigits2_mul_pow2 (m k : Z) :
  0 < m -> 0 <= k -> Zdigits2 (m * 2 ^ k) = Zdigits2 m + k.
Proof.
  intros Hm Hk. pose proof (Zdigits2_bounds m Hm) as [A1 A2].
  pose proof (Zdigits2_pos m Hm).
  apply Zdigits2_unique; [|lia].
  replace (Zdigits2 m + k - 1) with ((Zdigits2 m - 1) + k) by lia.
  rewrite !Z.pow_add_r by lia.
  pose proof (Z.pow_pos_nonneg 2 k). nia.
Qed.

Lemma Zdigits2_div_pow2 (m k : Z) :
  0 < m -> 0 <= k -> k < Zdigits2 m -> Zdigits2 (m / 2 ^ k) = Zdigits2 m - k.
Proof.
  intros Hm Hk Hlt. pose proof (Zdigits2_bounds m Hm) as [A1 A2].
  pose proof (Z.pow_pos_nonneg 2 k ltac:(lia) Hk) as P.
  apply Zdigits2_unique; [|lia]. split.
  - apply Z.div_le_lower_bound; [lia|].
    rewrite <- Z.pow_add_r by lia. replace (k + (Zdigits2 m - k - 1)) with (Zdigits2 m - 1) by lia. lia.
  - apply Z.div_lt_upper_bound; [lia|].
    rewrite <- Z.pow_add_r by lia. replace (k + (Zdigits2 m - k)) with (Zdigits2 m) by lia. lia.
Qed.

(** iteration *)
Lemma iter_pos_comm {A} (f : A -> A) (p : positive) (x : A) :
  iter_pos f p (f x) = f (iter_pos f p x).
Proof.
  revert x. induction p as [p IH|p IH|]; intros x; simpl.
  - now rewrite !IH.
  - now rewrite !IH.
  - reflexivity.
Qed.

Lemma iter_pos_succ {A} (f : A -> A) (p : positive) (x : A) :
  iter_pos f (Pos.succ p) x = f (iter_pos f p x).
Proof.
  revert x. induction p as [p IH|p IH|]; intros x; simpl.
  - rewrite !IH. now rewrite !iter_pos_comm.
  - now rewrite !iter_pos_comm.
  - reflexivity.
Qed.

Lemma shr_1_m (m : Z) (r s : bool) :
  0 <= m ->
  shr_m (shr_1 (Build_shr_record m r s)) = m / 2 /\
  shr_r (shr_1 (Build_shr_record m r s)) = Z.odd m /\
  shr_s (shr_1 (Build_shr_record m r s)) = r || s.
Proof.
  intros Hm. destruct m as [|[p|p|]|p]; try lia; cbn [shr_1 shr_m shr_r shr_s Z.odd].
  - now split.
  - split; [|now split]. apply (Z.div_unique _ 2 _ 1); lia.
  - split; [|now split]. apply (Z.div_unique _ 2 _ 0); lia.
  - now split.
Qed.

Lemma shr_iter (n : positive) (m : Z) (r s : bool) :
  0 <= m ->
  let mrs := iter_pos shr_1 n (Build_shr_record m r s) in
  shr_m mrs = m / 2 ^ Zpos n /\
  (r = false -> s = false -> m mod 2 ^ Zpos n = 0 ->
   shr_r mrs = false /\ shr_s mrs = false).
Proof.
  intros Hm. induction n as [|n IH] using Pos.peano_ind; cbn zeta.
  - cbn [iter_pos]. destruct (shr_1_m m r s Hm) as (E1 & E2 & E3).
    split; [now rewrite E1|]. intros -> -> H0. rewrite E2, E3.
    split; [|reflexivity]. change (2 ^ 1) with 2 in H0.
    rewrite <- Z.negb_even. rewrite Zeven_mod. now rewrite H0.
  - rewrite iter_pos_succ. cbn zeta in IH. destruct IH as [IHm IHrs].
    destruct (iter_pos shr_1 n (Build_shr_record m r s)) as [m' r' s'] eqn:E.
    cbn [shr_m shr_r shr_s] in IHm, IHrs.
    assert (Hm' : 0 <= m') by (rewrite IHm; apply Z.div_pos; lia).
    destruct (shr_1_m m' r' s' Hm') as (E1 & E2 & E3).
    rewrite Pos2Z.inj_succ. rewrite Z.pow_succ_r by lia.
    split.
    + rewrite E1, IHm. rewrite Z.div_div by lia. f_equal. lia.
    + intros Hr Hs H0. rewrite E2, E3.
      assert (Hdiv : m mod 2 ^ Zpos n = 0).
      { apply Z.mod_divide; [lia|]. apply Z.mod_divide in H0; [|lia].
        destruct H0 as [c Hc]. exists (c * 2). lia. }
      destruct (IHrs Hr Hs Hdiv) as [-> ->]. split; [|reflexivity].
      rewrite IHm. apply Z.mod_divide in H0; [|lia]. destruct H0 as [c Hc].
      rewrite Hc. replace (c * (2 * 2 ^ Zpos n)) with ((c * 2) * 2 ^ Zpos n) by lia.
      rewrite Z.div_mul by lia. rewrite Z.mul_comm. now rewrite Z.odd_mul, andb_false_l || rewrite Z.odd_even.
Qed.

(** stage lemmas *)
Lemma shr_record_of_loc_m (m : Z) (l : location) :
  exists r s, shr_record_of_loc m l = Build_shr_record m r s /\
              (l = loc_Exact -> r = false /\ s = false).
Proof.
  destruct l as [|[| |]]; cbn; eexists; eexists; split; try reflexivity;
    intros H; now try discriminate H.
Qed.

Lemma loc_of_shr_record_of_loc (m : Z) (l : location) :
  loc_of_shr_record (shr_record_of_loc m l) = l.
Proof. now destruct l as [|[| |]]. Qed.

Lemma round_nearest_even_cases (m : Z) (l : location) :
  (round_nearest_even m l = m \/ round_nearest_even m l = m + 1) /\
  (l = loc_Exact -> round_nearest_even m l = m).
Proof.
  split.
  - destruct l as [|[| |]]; cbn; auto. destruct (Z.even m); auto.
  - now intros ->.
Qed.

Lemma shr_fexp_stage (m e : Z) (l : location) :
  0 <= m ->
  let n := fexp32 (Zdigits2 m + e) - e in
  0 <= n ->
  exists mrs, shr_fexp 24 128 m e l = (mrs, e + n) /\
    shr_m mrs = m / 2 ^ n /\
    (l = loc_Exact -> m mod 2 ^ n = 0 -> loc_of_shr_record mrs = loc_Exact).
Proof.
  intros Hm n Hn. unfold shr_fexp, shr. fold fexp32. fold n.
  destruct (shr_record_of_loc_m m l) as (r & s & E & Hex).
  destruct n as [|p|p] eqn:En; [| |lia].
  - exists (shr_record_of_loc m l). rewrite Z.add_0_r. split; [reflexivity|].
    rewrite E. cbn [shr_m]. rewrite Z.pow_0_r, Z.div_1_r. split; [reflexivity|].
    intros Hl _. rewrite <- E, loc_of_shr_record_of_loc. exact Hl.
  - exists (iter_pos shr_1 p (shr_record_of_loc m l)). split; [reflexivity|].
    rewrite E. destruct (shr_iter p m r s Hm) as [Em Ers].
    split; [exact Em|]. intros Hl H0. destruct (Hex Hl) as [-> ->].
    destruct (Ers eq_refl eq_refl H0) as [Hr Hs].
    destruct (iter_pos shr_1 p _) as [m' r' s']. cbn in Hr, Hs. now subst.
Qed.


Lemma binary_round_aux_normalize (s : bool) (m e : Z) (l : location) :
  0 <= m ->
  let n := fexp32 (Zdigits2 m + e) - e in
  0 <= n ->
  exists q', (q' = m / 2 ^ n \/ q' = m / 2 ^ n + 1) /\
    (l = loc_Exact -> m mod 2 ^ n = 0 -> q' = m / 2 ^ n) /\
    binary_round_aux 24 128 s m e l = normalize s q' (e + n).
Proof.
  intros Hm n Hn.
  destruct (shr_fexp_stage m e l Hm Hn) as (mrs & E1 & Em & Hex).
  fold n in E1, Em, Hex. clearbody n.
  unfold binary_round_aux. rewrite E1.
  destruct (round_nearest_even_cases (shr_m mrs) (loc_of_shr_record mrs)) as [Hq Hqe].
  remember (round_nearest_even (shr_m mrs) (loc_of_shr_record mrs)) as q' eqn:Eq'.
  clear Eq'. rewrite Em in Hq.
  exists q'.
  split; [exact Hq|]. split; [intros Hl H0; rewrite (Hqe (Hex Hl H0)); exact Em|].
  assert (Hq' : 0 <= q').
  { assert (0 <= m / 2 ^ n) by (apply Z.div_pos; [lia|apply Z.pow_pos_nonneg; lia]).
    lia. }
  unfold normalize. fold fexp32.
  set (n2 := fexp32 (Zdigits2 q' + (e + n)) - (e + n)).
  unfold shr_fexp, shr. fold fexp32. fold n2.
  destruct n2 as [|p|p] eqn:En2.
  - cbn [Z.ltb Z.compare shr_record_of_loc shr_m]. reflexivity.
  - change (0 <? Z.pos p) with true. cbv iota.
    destruct (shr_iter p q' false false Hq') as [Em2 _].
    cbn [shr_record_of_loc]. rewrite Em2. reflexivity.
  - cbn [Z.ltb Z.compare shr_record_of_loc shr_m]. reflexivity.
Qed.

Lemma Zdigits2_succ (a : Z) :
  0 < a ->
  Zdigits2 (a + 1) = Zdigits2 a \/
  (Zdigits2 (a + 1) = Zdigits2 a + 1 /\ a + 1 = 2 ^ Zdigits2 a).
Proof.
  intros Ha. pose proof (Zdigits2_bounds a Ha) as [Lo Hi].
  pose proof (Zdigits2_pos a Ha) as Hd.
  destruct (Z.eq_dec (a + 1) (2 ^ Zdigits2 a)) as [E|E].
  - right. split; [|exact E]. apply Zdigits2_unique; [|lia].
    replace (Zdigits2 a + 1 - 1) with (Zdigits2 a) by lia.
    rewrite Z.pow_add_r by lia. lia.
  - left. apply Zdigits2_unique; lia.
Qed.

Lemma fexp32_unfold (z : Z) : fexp32 z = Z.max (z - 24) (-149).
Proof. reflexivity. Qed.

Lemma canonical_iff (m : positive) (e : Z) :
  canonical_mantissa 24 128 m e = true <-> fexp32 (Zdigits2 (Zpos m) + e) = e.
Proof. unfold canonical_mantissa. apply Z.eqb_eq. Qed.

Lemma normalize_ok (s : bool) (q e1 D : Z) :
  0 < q -> e1 = fexp32 D ->
  (Zdigits2 q + e1 = D \/
   (Zdigits2 q + e1 = D + 1 /\ q = 2 ^ (Zdigits2 q - 1) /\ 1 < Zdigits2 q)) ->
  exists m2 e2,
    normalize s q e1
      = (if e2 <=? 104 then S754_finite s m2 e2 else S754_infinity s) /\
    canonical_mantissa 24 128 m2 e2 = true /\
    Zpos m2 * 2 ^ (e2 + 149) = q * 2 ^ (e1 + 149) /\ e1 <= e2 <= e1 + 1.
Proof.
  intros Hq He1 Hcase. unfold normalize.
  set (n2 := fexp32 (Zdigits2 q + e1) - e1).
  assert (Hn2 : n2 = 0 \/ (n2 = 1 /\ Zdigits2 q + e1 = D + 1 /\
                           q = 2 ^ (Zdigits2 q - 1) /\ 1 < Zdigits2 q)).
  { subst n2. destruct Hcase as [H|(H & H2 & H3)].
    - left. rewrite H. lia.
    - rewrite H. rewrite He1, !fexp32_unfold. 
      destruct (Z.le_gt_cases (-149) (D - 24)); [right|left]; lia. }
  destruct Hn2 as [Hn2|(Hn2 & Hd & Hpow & Hk)].
  - rewrite Hn2. cbn [Z.ltb Z.compare]. destruct q as [|p|p]; try lia.
    exists p, e1. split; [reflexivity|]. split; [|lia].
    apply canonical_iff. subst n2. lia.
  - rewrite Hn2. change (0 <? 1) with true. cbv iota.
    change (2 ^ 1) with 2.
    set (k := Zdigits2 q) in *.
    assert (Hq2 : q / 2 = 2 ^ (k - 2)).
    { rewrite Hpow. replace (k - 1) with (1 + (k - 2)) by lia.
      rewrite Z.pow_add_r by lia. change (2 ^ 1) with 2.
      rewrite Z.mul_comm, Z.div_mul by lia. reflexivity. }
    assert (Hpos : 0 < 2 ^ (k - 2)) by (apply Z.pow_pos_nonneg; lia).
    rewrite Hq2. destruct (2 ^ (k - 2)) as [|p|p] eqn:Ep; try lia.
    exists p, (e1 + 1). split; [reflexivity|]. split; [|split; [|lia]].
    + apply canonical_iff.
      assert (Zdigits2 (Z.pos p) = k - 1).
      { rewrite <- Ep. apply Zdigits2_unique; [|lia].
        replace (k - 1 - 1) with (k - 2) by lia. split; [lia|].
        apply Z.pow_lt_mono_r; lia. }
      rewrite H. replace (k - 1 + (e1 + 1)) with (k + e1) by lia.
      unfold n2 in Hn2. lia.
    + rewrite Hpow. replace (e1 + 1 + 149) with (1 + (e1 + 149)) by lia.
      assert (0 <= e1 + 149) by (rewrite He1, fexp32_unfold; lia).
      rewrite (Z.pow_add_r 2 1) by lia. change (2 ^ 1) with 2.
      replace (k - 1) with (1 + (k - 2)) by lia.
      rewrite (Z.pow_add_r 2 1 (k - 2)) by lia. change (2 ^ 1) with 2.
      rewrite Ep. lia.
Qed.

(** The result of [binary_round_aux] on a nonnegative mantissa that has at
    least the digits of the target format. *)
Lemma binary_round_aux_spec (s : bool) (m e : Z) (l : location) :
  0 <= m ->
  let e1 := fexp32 (Zdigits2 m + e) in
  e <= e1 ->
  let a := m / 2 ^ (e1 - e) in
  exists q', (q' = a \/ q' = a + 1) /\
    (l = loc_Exact -> m mod 2 ^ (e1 - e) = 0 -> q' = a) /\
    ((q' = 0 /\ binary_round_aux 24 128 s m e l = S754_zero s) \/
     (0 < q' /\ exists m2 e2,
        binary_round_aux 24 128 s m e l
          = (if e2 <=? 104 then S754_finite s m2 e2 else S754_infinity s) /\
        canonical_mantissa 24 128 m2 e2 = true /\
        Zpos m2 * 2 ^ (e2 + 149) = q' * 2 ^ (e1 + 149) /\
        e1 <= e2 <= e1 + 1)).
Proof.
  intros Hm e1 He a.
  destruct (binary_round_aux_normalize s m e l Hm) as (q' & Hq & Hex & E);
    [fold e1; lia|].
  fold e1 in Hq, Hex, E. fold a in Hq, Hex.
  replace (e + (e1 - e)) with e1 in E by lia.
  exists q'. split; [exact Hq|]. split; [exact Hex|].
  assert (Ha : 0 <= a) by (apply Z.div_pos; [lia|apply Z.pow_pos_nonneg; lia]).
  destruct (Z.eq_dec q' 0) as [Hz|Hnz].
  - left. split; [exact Hz|]. rewrite E, Hz. unfold normalize.
    cbn [Zdigits2]. destruct (0 <? fexp32 (0 + e1) - e1); [|reflexivity].
    now rewrite Zdiv_0_l.
  - right. assert (Hq' : 0 < q') by lia. split; [exact Hq'|]. rewrite E.
    destruct (Z.eq_dec a 0) as [Ha0|Ha0].
    + (* underflow to the smallest subnormal *)
      assert (q' = 1) by lia. subst q'.
      assert (He1 : e1 = -149).
      { destruct (Z.eq_dec m 0) as [->|Hm0].
        - subst e1. cbn [Zdigits2] in *. rewrite fexp32_unfold in *. lia.
        - assert (Hmp : 0 < m) by lia.
          pose proof (Zdigits2_bounds m Hmp) as [Lo Hi].
          pose proof (Zdigits2_pos m Hmp).
          assert (Hsmall : m < 2 ^ (e1 - e)).
          { subst a. apply Z.div_small_iff in Ha0; [|apply Z.pow_nonzero; lia].
            lia. }
          assert (Zdigits2 m - 1 < e1 - e).
          { apply (Z.pow_lt_mono_r_iff 2); lia. }
          subst e1. rewrite fexp32_unfold in *. lia. }
      apply (normalize_ok s 1 e1 (-148)); [lia|rewrite He1; reflexivity|].
      left. rewrite He1. reflexivity.
    + assert (Hap : 0 < a) by lia.
      assert (Hmp : 0 < m).
      { destruct (Z.eq_dec m 0) as [->|]; [|lia]. subst a. now rewrite Zdiv_0_l in Ha0. }
      assert (Hlt : e1 - e < Zdigits2 m).
      { pose proof (Zdigits2_bounds m Hmp) as [Lo Hi].
        destruct (Z.lt_ge_cases (e1 - e) (Zdigits2 m)) as [H|H]; [exact H|].
        exfalso. apply Ha0. subst a. apply Z.div_small. split; [lia|].
        assert (2 ^ Zdigits2 m <= 2 ^ (e1 - e)) by (apply Z.pow_le_mono_r; lia).
        lia. }
      assert (Hda : Zdigits2 a + e1 = Zdigits2 m + e).
      { subst a. rewrite Zdigits2_div_pow2 by lia. lia. }
      apply (normalize_ok s q' e1 (Zdigits2 m + e)); [exact Hq'|reflexivity|].
      destruct Hq as [->| ->]; [left; exact Hda|].
      destruct (Zdigits2_succ a Hap) as [Hs|[Hs Hp]].
      * left. lia.
      * right. split; [lia|]. pose proof (Zdigits2_pos a Hap). split; [|lia].
        rewrite Hs, Hp. f_equal. lia.
Qed.

Lemma Pos_iter_xO (m d : positive) :
  Zpos (Pos.iter xO m d) = Zpos m * 2 ^ Zpos d.
Proof.
  induction d as [|d IH] using Pos.peano_ind.
  - cbn [Pos.iter]. rewrite Pos2Z.inj_xO. change (2 ^ 1) with 2. lia.
  - rewrite Pos.iter_succ, Pos2Z.inj_xO, IH, Pos2Z.inj_succ.
    rewrite Z.pow_succ_r by lia. lia.
Qed.

Lemma shl_align_spec (m : positive) (e e' : Z) :
  (e' < e ->
   exists mz, shl_align m e e' = (mz, e') /\ Zpos mz = Zpos m * 2 ^ (e - e')) /\
  (e <= e' -> shl_align m e e' = (m, e)).
Proof.
  unfold shl_align. split; intros H.
  - destruct (e' - e) as [|p|p] eqn:E; try lia.
    eexists. split; [reflexivity|]. rewrite Pos_iter_xO. f_equal. f_equal. lia.
  - destruct (e' - e) as [|p|p] eqn:E; try lia; reflexivity.
Qed.

(** Rounding a positive integer multiple [M * 2^e] of 2^-149: the result is
    a canonical float (or an infinity when its exponent is too large) whose
    value is a multiple of the unit in the last place [u] and lies within
    [u] of the exact value, and is exact on multiples of [u]. *)
Lemma binary_round_bracket (s : bool) (M : positive) (e : Z) :
  -149 <= e ->
  let e1 := fexp32 (Zdigits2 (Zpos M) + e) in
  let u := 2 ^ (e1 + 149) in
  let x := Zpos M * 2 ^ (e + 149) in
  exists m2 e2,
    binary_round 24 128 s M e
      = (if e2 <=? 104 then S754_finite s m2 e2 else S754_infinity s) /\
    canonical_mantissa 24 128 m2 e2 = true /\ e1 <= e2 <= e1 + 1 /\
    let V' := Zpos m2 * 2 ^ (e2 + 149) in
    V' mod u = 0 /\ x - u < V' < x + u /\ (x mod u = 0 -> V' = x).
Proof.
  intros He e1 u x. unfold binary_round. fold fexp32. 
  change (Z.pos (digits2_pos M)) with (Zdigits2 (Zpos M)). fold e1.
  assert (He1 : -149 <= e1) by (subst e1; rewrite fexp32_unfold; lia).
  assert (Hu : 0 < u) by (apply Z.pow_pos_nonneg; lia).
  destruct (shl_align_spec M e e1) as [Hshl Hno].
  destruct (Z.lt_ge_cases e1 e) as [Hlt|Hge].
  - (* few digits: shifted left, exact *)
    destruct (Hshl Hlt) as (mz & -> & Hmz).
    assert (Hdz : Zdigits2 (Zpos mz) + e1 = Zdigits2 (Zpos M) + e).
    { rewrite Hmz, Zdigits2_mul_pow2 by lia. lia. }
    destruct (binary_round_aux_spec s (Zpos mz) e1 loc_Exact) as (q' & Hq & Hex & Hres);
      [lia|rewrite Hdz; fold e1; lia|].
    rewrite Hdz in Hq, Hex, Hres. fold e1 in Hq, Hex, Hres.
    rewrite Z.sub_diag, Z.pow_0_r, Z.div_1_r in *.
    assert (Eq' : q' = Zpos mz) by (apply Hex; [reflexivity|apply Z.mod_1_r]).
    destruct Hres as [[Hz _]|(_ & m2 & e2 & E & Hcan & Hval & Hle)]; [lia|].
    exists m2, e2. split; [exact E|]. split; [exact Hcan|]. split; [exact Hle|].
    cbv zeta. rewrite Hval, Eq'. fold u.
    assert (Hx : x = Zpos mz * u).
    { subst x u. rewrite Hmz. rewrite <- Z.mul_assoc, <- Z.pow_add_r by lia.
      f_equal. f_equal. lia. }
    rewrite Hx. split; [apply Z.mod_mul; lia|]. split; [lia|reflexivity].
  - (* many digits: shifted right, rounded *)
    rewrite (Hno Hge).
    destruct (binary_round_aux_spec s (Zpos M) e loc_Exact) as (q' & Hq & Hex & Hres);
      [lia|fold e1; lia|].
    fold e1 in Hq, Hex, Hres.
    set (n := e1 - e) in *. set (a := Zpos M / 2 ^ n) in *.
    assert (HN : 0 < 2 ^ n) by (apply Z.pow_pos_nonneg; lia).
    assert (HP : 0 < 2 ^ (e + 149)) by (apply Z.pow_pos_nonneg; lia).
    assert (Eu : u = 2 ^ n * 2 ^ (e + 149)).
    { subst u n. rewrite <- Z.pow_add_r by lia. f_equal. lia. }
    pose proof (Z.div_mod (Zpos M) (2 ^ n) ltac:(lia)) as Hdm. fold a in Hdm.
    pose proof (Z.mod_pos_bound (Zpos M) (2 ^ n) HN) as Hmod.
    assert (Ha : 0 < a).
    { subst a. apply Z.div_str_pos. split; [lia|].
      pose proof (Zdigits2_bounds (Zpos M) ltac:(lia)) as [Lo Hi].
      pose proof (Zdigits2_pos (Zpos M) ltac:(lia)) as Hdpos.
      assert (n <= Zdigits2 (Zpos M) - 1)
        by (unfold n, e1; rewrite fexp32_unfold; lia).
      assert (2 ^ n <= 2 ^ (Zdigits2 (Zpos M) - 1)) by (apply Z.pow_le_mono_r; lia).
      lia. }
    destruct Hres as [[Hz _]|(_ & m2 & e2 & E & Hcan & Hval & Hle)]; [lia|].
    exists m2, e2. split; [exact E|]. split; [exact Hcan|]. split; [exact Hle|].
    cbv zeta. rewrite Hval. fold u.
    set (r := Zpos M mod 2 ^ n) in *.
    assert (Hx : x = a * u + r * 2 ^ (e + 149)) by (subst x; rewrite Eu; nia).
    assert (Hr : 0 <= r * 2 ^ (e + 149) < u) by (rewrite Eu; nia).
    split; [apply Z.mod_mul; lia|]. split.
    + destruct Hq as [->| ->]; [nia|].
      destruct (Z.eq_dec r 0) as [Hr0|Hr0]; [specialize (Hex eq_refl Hr0); lia|nia].
    + intros Hxu.
      assert (Hr0 : r = 0).
      { rewrite Hx in Hxu. rewrite Z.add_comm, Z.mod_add in Hxu by lia.
        rewrite Z.mod_small in Hxu by lia. nia. }
      rewrite (Hex eq_refl Hr0). rewrite Hx, Hr0. lia.
Qed.




Lemma bounded_inv (m : positive) (e : Z) :
  bounded 24 128 m e = true ->
  fexp32 (Zdigits2 (Zpos m) + e) = e /\ e <= 104.
Proof.
  unfold bounded. intros H. apply andb_prop in H as [H1 H2].
  apply canonical_iff in H1. apply Z.leb_le in H2. now split.
Qed.

Lemma bounded_intro (m : positive) (e : Z) :
  canonical_mantissa 24 128 m e = true -> e <= 104 ->
  bounded 24 128 m e = true.
Proof.
  intros H1 H2. unfold bounded. rewrite H1. now apply Z.leb_le.
Qed.

(** the digits of a canonical mantissa *)
Lemma canonical_digits (m : positive) (e : Z) :
  fexp32 (Zdigits2 (Zpos m) + e) = e ->
  -149 <= e /\ Zdigits2 (Zpos m) <= 24 /\
  (-149 < e -> Zdigits2 (Zpos m) = 24).
Proof. rewrite fexp32_unfold. lia. Qed.

Lemma pow2_split (a b : Z) : 0 <= a -> 0 <= b -> 2 ^ (a + b) = 2 ^ a * 2 ^ b.
Proof. intros. now apply Z.pow_add_r. Qed.

(** on canonical mantissas the order of the values is the lexicographic
    order of exponent and mantissa *)
Lemma canonical_lt (m1 m2 : positive) (e1 e2 : Z) :
  fexp32 (Zdigits2 (Zpos m1) + e1) = e1 ->
  fexp32 (Zdigits2 (Zpos m2) + e2) = e2 ->
  e1 < e2 -> Zpos m1 * 2 ^ (e1 + 149) < Zpos m2 * 2 ^ (e2 + 149).
Proof.
  intros C1 C2 Hlt.
  destruct (canonical_digits m1 e1 C1) as (L1 & D1 & _).
  destruct (canonical_digits m2 e2 C2) as (L2 & _ & D2).
  specialize (D2 ltac:(lia)).
  pose proof (Zdigits2_bounds (Zpos m1) ltac:(lia)) as [_ Hi1].
  pose proof (Zdigits2_bounds (Zpos m2) ltac:(lia)) as [Lo2 _].
  rewrite D2 in Lo2.
  assert (H24 : Zpos m1 < 2 ^ 24).
  { assert (2 ^ Zdigits2 (Zpos m1) <= 2 ^ 24) by (apply Z.pow_le_mono_r; lia). lia. }
  replace (e2 + 149) with ((e1 + 149) + (e2 - e1)) by lia.
  rewrite (pow2_split (e1 + 149) (e2 - e1)) by lia.
  assert (P : 0 < 2 ^ (e1 + 149)) by (apply Z.pow_pos_nonneg; lia).
  assert (Q : 2 ^ 1 <= 2 ^ (e2 - e1)) by (apply Z.pow_le_mono_r; lia).
  change (2 ^ 1) with 2 in Q. change (2 ^ 24) with 16777216 in H24.
  change (2 ^ (24 - 1)) with 8388608 in Lo2.
  assert (R : 16777216 <= Zpos m2 * 2 ^ (e2 - e1)) by nia.
  apply Z.lt_le_trans with (16777216 * 2 ^ (e1 + 149)); [nia|].
  rewrite (Z.mul_comm (2 ^ (e1 + 149))), Z.mul_assoc.
  apply Z.mul_le_mono_nonneg_r; lia.
Qed.

Lemma compare_finite (m1 m2 : positive) (e1 e2 : Z) :
  bounded 24 128 m1 e1 = true -> bounded 24 128 m2 e2 = true ->
  SFcompare (S754_finite false m1 e1) (S754_finite false m2 e2)
  = Some (Zpos m1 * 2 ^ (e1 + 149) ?= Zpos m2 * 2 ^ (e2 + 149)).
Proof.
  intros B1 B2. destruct (bounded_inv _ _ B1) as [C1 _].
  destruct (bounded_inv _ _ B2) as [C2 _].
  cbn [SFcompare]. f_equal.
  destruct (Z.compare_spec e1 e2) as [E|E|E].
  - subst e2. rewrite Pos.compare_cont_spec. cbn [Pos.switch_Eq].
    destruct (canonical_digits m1 e1 C1) as (L1 & _).
    assert (P : 0 < 2 ^ (e1 + 149)) by (apply Z.pow_pos_nonneg; lia).
    rewrite <- Zmult_compare_compat_r by lia.
    change (Zpos m1 ?= Zpos m2) with (m1 ?= m2)%positive.
    now destruct (m1 ?= m2)%positive.
  - symmetry. apply Z.compare_lt_iff. now apply canonical_lt.
  - symmetry. apply Z.compare_gt_iff. now apply canonical_lt.
Qed.

Lemma V_pos_finite (m : positive) (e : Z) :
  bounded 24 128 m e = true -> 0 < V (S754_finite false m e).
Proof.
  intros B. destruct (bounded_inv _ _ B) as [C _].
  destruct (canonical_digits m e C) as (L & _). cbn [V].
  assert (0 < 2 ^ (e + 149)) by (apply Z.pow_pos_nonneg; lia). nia.
Qed.

Lemma V_nonneg (f : spec_float) : nonneg f -> 0 <= V f.
Proof.
  destruct f as [s|s| |[|] m e]; cbn [nonneg]; try tauto; intros H.
  - cbn; lia.
  - pose proof (V_pos_finite m e H). lia.
Qed.

Lemma compare_nonneg (f1 f2 : spec_float) :
  nonneg f1 -> nonneg f2 -> SFcompare f1 f2 = Some (V f1 ?= V f2).
Proof.
  destruct f1 as [s1|s1| |[|] m1 e1]; cbn [nonneg]; try tauto;
  destruct f2 as [s2|s2| |[|] m2 e2]; cbn [nonneg]; try tauto; intros H1 H2.
  - pose proof (V_pos_finite m2 e2 H2) as P. cbn [SFcompare].
    change (V (S754_zero s1)) with 0. f_equal. symmetry.
    now apply Z.compare_lt_iff.
  - pose proof (V_pos_finite m1 e1 H1) as P. cbn [SFcompare].
    change (V (S754_zero s2)) with 0. f_equal. symmetry.
    now apply Z.compare_gt_iff.
  - now apply compare_finite.
Qed.

Lemma SFleb_nonneg (f1 f2 : spec_float) :
  nonneg f1 -> nonneg f2 -> SFleb f1 f2 = (V f1 <=? V f2).
Proof.
  intros H1 H2. unfold SFleb. rewrite (compare_nonneg f1 f2 H1 H2).
  unfold Z.leb. now destruct (V f1 ?= V f2).
Qed.

Lemma SFltb_nonneg (f1 f2 : spec_float) :
  nonneg f1 -> nonneg f2 -> SFltb f1 f2 = (V f1 <? V f2).
Proof.
  intros H1 H2. unfold SFltb. rewrite (compare_nonneg f1 f2 H1 H2).
  unfold Z.ltb. now destruct (V f1 ?= V f2).
Qed.

Lemma fexp32_mono (a b : Z) : a <= b -> fexp32 a <= fexp32 b.
Proof. rewrite !fexp32_unfold. lia. Qed.

Lemma digits_order (M mf : positive) (e ef : Z) :
  -149 <= e -> -149 <= ef ->
  Zpos M * 2 ^ (e + 149) <= Zpos mf * 2 ^ (ef + 149) ->
  Zdigits2 (Zpos M) + e <= Zdigits2 (Zpos mf) + ef.
Proof.
  intros He Hef H.
  assert (P : 0 < 2 ^ (e + 149)) by (apply Z.pow_pos_nonneg; lia).
  assert (Hx : 0 < Zpos M * 2 ^ (e + 149)) by nia.
  pose proof (Zdigits2_le _ _ Hx H) as D.
  rewrite !Zdigits2_mul_pow2 in D by lia. lia.
Qed.

(** A value within one unit of [x] that is a multiple of the unit stays on
    the same side of every number of the format as [x]. *)
Lemma bracket_le (M m2 mf : positive) (e e2 ef : Z) :
  let u := 2 ^ (fexp32 (Zdigits2 (Zpos M) + e) + 149) in
  let x := Zpos M * 2 ^ (e + 149) in
  let V' := Zpos m2 * 2 ^ (e2 + 149) in
  let VF := Zpos mf * 2 ^ (ef + 149) in
  -149 <= e -> canonical_mantissa 24 128 m2 e2 = true ->
  V' mod u = 0 -> V' < x + u ->
  bounded 24 128 mf ef = true -> x <= VF ->
  V' <= VF /\ e2 <= 104.
Proof.
  intros u x V' VF He C2 Hmod Hlt BF Hx.
  destruct (bounded_inv _ _ BF) as [CF LF].
  destruct (canonical_digits mf ef CF) as (Lef & _).
  set (e1 := fexp32 (Zdigits2 (Zpos M) + e)) in *.
  assert (He1 : -149 <= e1) by (unfold e1; rewrite fexp32_unfold; lia).
  assert (Hle : e1 <= ef).
  { rewrite <- CF. apply fexp32_mono. now apply digits_order. }
  assert (Hu : 0 < u) by (apply Z.pow_pos_nonneg; lia).
  assert (EF : VF = Zpos mf * 2 ^ (ef - e1) * u).
  { unfold VF, u. rewrite <- Z.mul_assoc, <- Z.pow_add_r by lia.
    f_equal. f_equal. lia. }
  apply Z.mod_divide in Hmod; [|lia]. destruct Hmod as [k Hk].
  assert (Hle' : V' <= VF).
  { set (j := Zpos mf * 2 ^ (ef - e1)) in *.
    assert (Hkj : (k - j) * u < 1 * u) by lia.
    apply Z.mul_lt_mono_pos_r in Hkj; [|lia].
    rewrite Hk, EF. apply Z.mul_le_mono_nonneg_r; lia. }
  split; [exact Hle'|].
  destruct (Z.le_gt_cases e2 104) as [H|H]; [exact H|]. exfalso.
  apply canonical_iff in C2.
  pose proof (canonical_lt mf m2 ef e2 CF C2 ltac:(lia)). unfold V', VF in *. lia.
Qed.

Lemma bracket_ge (M m2 mf : positive) (e e2 ef : Z) :
  let u := 2 ^ (fexp32 (Zdigits2 (Zpos M) + e) + 149) in
  let x := Zpos M * 2 ^ (e + 149) in
  let V' := Zpos m2 * 2 ^ (e2 + 149) in
  let VF := Zpos mf * 2 ^ (ef + 149) in
  -149 <= e ->
  V' mod u = 0 -> x - u < V' ->
  bounded 24 128 mf ef = true -> VF <= x ->
  VF <= V'.
Proof.
  intros u x V' VF He Hmod Hgt BF Hx.
  destruct (bounded_inv _ _ BF) as [CF LF].
  destruct (canonical_digits mf ef CF) as (Lef & DF & _).
  set (dM := Zdigits2 (Zpos M)) in *.
  set (e1 := fexp32 (dM + e)) in *.
  assert (He1 : -149 <= e1) by (unfold e1; rewrite fexp32_unfold; lia).
  assert (Hord : Zdigits2 (Zpos mf) + ef <= dM + e) by now apply digits_order.
  assert (Hle : ef <= e1).
  { rewrite <- CF. now apply fexp32_mono. }
  assert (Hu : 0 < u) by (apply Z.pow_pos_nonneg; lia).
  apply Z.mod_divide in Hmod; [|lia]. destruct Hmod as [k Hk].
  destruct (Z.eq_dec ef e1) as [E|E].
  - assert (EF : VF = Zpos mf * u) by (unfold VF, u; now rewrite E).
    assert (Hkj : (Zpos mf - 1) * u < k * u) by lia.
    apply Z.mul_lt_mono_pos_r in Hkj; [|lia].
    rewrite Hk, EF. apply Z.mul_le_mono_nonneg_r; lia.
  - (* the exact value is in a higher binade than [VF] *)
    assert (Hlt : ef < e1) by lia.
    assert (Hnorm : e1 = dM + e - 24) by (unfold e1 in *; rewrite fexp32_unfold in *; lia).
    assert (Hd : Zdigits2 (Zpos mf) + ef < dM + e).
    { destruct (Z.eq_dec (Zdigits2 (Zpos mf) + ef) (dM + e)) as [E'|E']; [|lia].
      exfalso. rewrite E' in CF. fold e1 in CF. lia. }
    pose proof (Zdigits2_bounds (Zpos M) ltac:(lia)) as [LoM _]. fold dM in LoM.
    pose proof (Zdigits2_bounds (Zpos mf) ltac:(lia)) as [_ HiF].
    pose proof (Zdigits2_pos (Zpos mf) ltac:(lia)) as PF.
    pose proof (Zdigits2_pos (Zpos M) ltac:(lia)) as PM. fold dM in PM.
    set (P := 2 ^ (dM + e - 1 + 149)).
    assert (HP : P = 2 ^ 23 * u).
    { unfold P, u. rewrite <- Z.pow_add_r by lia. f_equal. lia. }
    assert (HxP : P <= x).
    { unfold P, x. replace (dM + e - 1 + 149) with ((dM - 1) + (e + 149)) by lia.
      rewrite pow2_split by lia.
      apply Z.mul_le_mono_nonneg_r; [apply Z.pow_nonneg; lia|lia]. }
    assert (HFP : VF < P).
    { unfold VF, P.
      apply Z.lt_le_trans with (2 ^ Zdigits2 (Zpos mf) * 2 ^ (ef + 149)).
      - apply Z.mul_lt_mono_pos_r; [apply Z.pow_pos_nonneg; lia|lia].
      - rewrite <- Z.pow_add_r by lia. apply Z.pow_le_mono_r; lia. }
    assert (Hkj : (2 ^ 23 - 1) * u < k * u) by lia.
    apply Z.mul_lt_mono_pos_r in Hkj; [|lia].
    assert (P <= V').
    { rewrite Hk, HP. apply Z.mul_le_mono_nonneg_r; lia. }
    lia.
Qed.



Lemma rounds_nonneg_inf (x : Z) (f : spec_float) : rounds x f -> nonneg_inf f /\ 0 < x.
Proof.
  intros (M & e & He & Hx & ->).
  destruct (binary_round_bracket false M e He) as (m2 & e2 & E & C & _).
  split.
  - rewrite E. destruct (Z.leb_spec e2 104) as [H|H]; cbn; [|exact I].
    now apply bounded_intro.
  - rewrite Hx. assert (0 < 2 ^ (e + 149)) by (apply Z.pow_pos_nonneg; lia). nia.
Qed.

Lemma rounds_le (x : Z) (f F : spec_float) :
  rounds x f -> nonneg F -> x <= V F -> nonneg f /\ V f <= V F.
Proof.
  intros Hr HF Hx. destruct (rounds_nonneg_inf x f Hr) as [_ Hpos].
  destruct Hr as (M & e & He & -> & ->).
  destruct F as [sF|sF| |[|] mf ef]; cbn [nonneg] in HF; try tauto.
  - cbn [V] in Hx. lia.
  - destruct (binary_round_bracket false M e He) as (m2 & e2 & E & C & _ & Hmod & [_ Hlt] & _).
    destruct (bracket_le M m2 mf e e2 ef He C Hmod Hlt HF Hx) as [Hle H104].
    rewrite E. apply Z.leb_le in H104. rewrite H104. cbn [nonneg V]. split; [|exact Hle].
    apply bounded_intro; [exact C|now apply Z.leb_le].
Qed.

Lemma rounds_ge (x : Z) (f F : spec_float) :
  rounds x f -> nonneg F -> V F <= x -> nonneg f -> V F <= V f.
Proof.
  intros Hr HF Hx Hf.
  destruct Hr as (M & e & He & -> & ->).
  destruct (binary_round_bracket false M e He) as (m2 & e2 & E & C & _ & Hmod & [Hgt _] & _).
  rewrite E in *. destruct (e2 <=? 104); [|contradiction]. cbn [V].
  destruct F as [sF|sF| |[|] mf ef]; cbn [nonneg] in HF; try tauto.
  - cbn [V]. assert (0 < 2 ^ (e2 + 149)); [|nia].
    apply canonical_iff in C. destruct (canonical_digits m2 e2 C) as (L & _).
    apply Z.pow_pos_nonneg; lia.
  - exact (bracket_ge M m2 mf e e2 ef He Hmod Hgt HF Hx).
Qed.

(** the rounding error of a result below 2^7 is less than 2^-17 *)
Lemma rounds_err (x : Z) (f : spec_float) :
  rounds x f -> nonneg f -> V f < 2 ^ 156 -> x - 2 ^ 132 < V f < x + 2 ^ 132.
Proof.
  intros Hr Hf Hsmall.
  destruct Hr as (M & e & He & -> & ->).
  destruct (binary_round_bracket false M e He) as (m2 & e2 & E & C & He2 & Hmod & Hbr & _).
  rewrite E in *. destruct (e2 <=? 104); [|contradiction]. cbn [V] in *.
  cbv zeta in Hbr.
  set (e1 := fexp32 (Zdigits2 (Zpos M) + e)) in *.
  assert (He1 : -149 <= e1) by (unfold e1; rewrite fexp32_unfold; lia).
  assert (Hu : 2 ^ (e1 + 149) <= 2 ^ 132).
  { apply Z.pow_le_mono_r; [lia|].
    apply canonical_iff in C. destruct (canonical_digits m2 e2 C) as (L & D & Dn).
    destruct (Z.eq_dec e2 (-149)) as [E2|E2]; [lia|].
    specialize (Dn ltac:(lia)).
    pose proof (Zdigits2_bounds (Zpos m2) ltac:(lia)) as [Lo _]. rewrite Dn in Lo.
    assert (2 ^ (23 + (e2 + 149)) < 2 ^ 156).
    { rewrite pow2_split by lia. change (24 - 1) with 23 in Lo.
      assert (0 < 2 ^ (e2 + 149)) by (apply Z.pow_pos_nonneg; lia). nia. }
    apply Z.pow_lt_mono_r_iff in H; lia. }
  lia.
Qed.

Lemma approx_le (x : Z) (f F : spec_float) :
  approx x f -> nonneg F -> x <= V F -> nonneg f /\ V f <= V F.
Proof.
  intros [[Hf <-]|Hr] HF Hx; [now split|]. now apply (rounds_le x).
Qed.

Lemma approx_ge (x : Z) (f F : spec_float) :
  approx x f -> nonneg F -> V F <= x -> nonneg f -> V F <= V f.
Proof.
  intros [[_ <-]|Hr] HF Hx Hf; [exact Hx|]. now apply (rounds_ge x).
Qed.

Lemma approx_err (x : Z) (f : spec_float) :
  approx x f -> nonneg f -> V f < 2 ^ 156 -> x - 2 ^ 132 < V f < x + 2 ^ 132.
Proof.
  intros [[_ <-]|Hr] Hf Hs; [|now apply rounds_err].
  change (2 ^ 132) with 5444517870735015415413993718908291383296. lia.
Qed.

Lemma approx_nonneg_inf (x : Z) (f : spec_float) : approx x f -> nonneg_inf f.
Proof.
  intros [[Hf _]|Hr]; [|now apply (rounds_nonneg_inf x)].
  destruct f as [s|[|]| |[|] m e]; cbn in *; tauto.
Qed.

(** addition and subtraction *)
Lemma shl_align_fst (m : positive) (e ez : Z) :
  ez <= e -> Zpos (fst (shl_align m e ez)) = Zpos m * 2 ^ (e - ez).
Proof.
  intros H. destruct (shl_align_spec m e ez) as [Hlt Hge].
  destruct (Z.eq_dec ez e) as [->|Hne].
  - rewrite Hge by lia. cbn [fst]. rewrite Z.sub_diag. cbn. lia.
  - destruct (Hlt ltac:(lia)) as (mz & -> & E). exact E.
Qed.

Lemma aligned_value (m : positive) (e ez : Z) :
  -149 <= ez -> ez <= e ->
  Zpos (fst (shl_align m e ez)) * 2 ^ (ez + 149) = Zpos m * 2 ^ (e + 149).
Proof.
  intros H1 H2. rewrite shl_align_fst by exact H2.
  rewrite <- Z.mul_assoc, <- Z.pow_add_r by lia. f_equal. f_equal. lia.
Qed.

Lemma bounded_emin (m : positive) (e : Z) :
  bounded 24 128 m e = true -> -149 <= e.
Proof.
  intros B. destruct (bounded_inv _ _ B) as [C _].
  now destruct (canonical_digits m e C).
Qed.

Lemma nonneg_finite (f : spec_float) :
  nonneg f ->
  (exists s, f = S754_zero s) \/
  (exists m e, f = S754_finite false m e /\ bounded 24 128 m e = true).
Proof.
  destruct f as [s|s| |[|] m e]; cbn; try tauto; intros H.
  - left. now exists s.
  - right. now exists m, e.
Qed.

Lemma SFadd_approx (a b : spec_float) :
  nonneg a -> nonneg b -> approx (V a + V b) (SFadd 24 128 a b).
Proof.
  intros Ha Hb.
  destruct (nonneg_finite a Ha) as [[sa ->]|(ma & ea & -> & Ba)];
  destruct (nonneg_finite b Hb) as [[sb ->]|(mb & eb & -> & Bb)].
  - left. cbn [SFadd V]. destruct sa, sb; now split.
  - left. cbn [SFadd]. split; [exact Hb|]. cbn [V]. lia.
  - left. cbn [SFadd]. split; [exact Ha|]. cbn [V]. lia.
  - right. pose proof (bounded_emin _ _ Ba). pose proof (bounded_emin _ _ Bb).
    cbn [SFadd cond_Zopp V].
    set (ez := Z.min ea eb).
    exists (fst (shl_align ma ea ez) + fst (shl_align mb eb ez))%positive, ez.
    split; [lia|]. split; [|reflexivity].
    rewrite Pos2Z.inj_add, Z.mul_add_distr_r.
    rewrite !aligned_value by lia. reflexivity.
Qed.

Lemma binary_round_sign (M : positive) (e : Z) :
  binary_round 24 128 true M e = SFopp (binary_round 24 128 false M e).
Proof.
  unfold binary_round. destruct (shl_align M e _) as [mz ez].
  unfold binary_round_aux. destruct (shr_fexp 24 128 (Z.pos mz) ez loc_Exact) as [mrs e'].
  destruct (shr_fexp 24 128 _ e' loc_Exact) as [mrs' e''].
  destruct (shr_m mrs') as [|p|p]; try reflexivity.
  now destruct (e'' <=? 128 - 24).
Qed.

Lemma SFabs_nonneg (f : spec_float) : nonneg f -> nonneg (SFabs f) /\ V (SFabs f) = V f.
Proof. destruct f as [[|]|[|]| |[|] m e]; cbn; tauto. Qed.

Lemma approx_abs (x : Z) (f : spec_float) : approx x f -> approx x (SFabs f).
Proof.
  intros [[Hf Hv]|Hr].
  - left. destruct (SFabs_nonneg f Hf) as [H1 H2]. split; [exact H1|congruence].
  - right. destruct Hr as (M & e & He & Hx & ->).
    destruct (binary_round_bracket false M e He) as (m2 & e2 & E & _).
    exists M, e. split; [exact He|]. split; [exact Hx|].
    rewrite E. now destruct (e2 <=? 104).
Qed.

Lemma SFabs_opp (f : spec_float) : SFabs (SFopp f) = SFabs f.
Proof. now destruct f. Qed.

(** [a - b] for [b <= a] *)
Lemma SFsub_approx (a b : spec_float) :
  nonneg a -> nonneg b -> V b <= V a -> approx (V a - V b) (SFsub 24 128 a b).
Proof.
  intros Ha Hb Hle.
  destruct (nonneg_finite a Ha) as [[sa ->]|(ma & ea & -> & Ba)];
  destruct (nonneg_finite b Hb) as [[sb ->]|(mb & eb & -> & Bb)].
  - left. cbn [SFsub V]. destruct sa, sb; now split.
  - pose proof (V_pos_finite mb eb Bb). cbn [V] in *. lia.
  - left. cbn [SFsub]. split; [exact Ha|]. cbn [V]. lia.
  - pose proof (bounded_emin _ _ Ba). pose proof (bounded_emin _ _ Bb).
    cbn [SFsub cond_Zopp]. cbn [V] in *.
    set (ez := Z.min ea eb).
    pose proof (aligned_value ma ea ez ltac:(lia) ltac:(lia)) as Va.
    pose proof (aligned_value mb eb ez ltac:(lia) ltac:(lia)) as Vb.
    set (A := fst (shl_align ma ea ez)) in *.
    set (B := fst (shl_align mb eb ez)) in *.
    assert (P : 0 < 2 ^ (ez + 149)) by (apply Z.pow_pos_nonneg; lia).
    destruct (Z.pos A - Z.pos B) as [|p|p] eqn:E.
    + left. cbn [binary_normalize nonneg V]. split; [exact I|]. nia.
    + right. exists p, ez. split; [lia|]. split; [|reflexivity].
      rewrite <- E. nia.
    + exfalso. assert (Z.pos A < Z.pos B) by lia. nia.
Qed.

(** [a - b] for [a < b] is the opposite of [b - a] *)
Lemma SFsub_swap (a b : spec_float) :
  nonneg a -> nonneg b -> V a < V b ->
  SFabs (SFsub 24 128 a b) = SFabs (SFsub 24 128 b a) /\
  SFltb (S754_zero false) (SFsub 24 128 a b) = false.
Proof.
  intros Ha Hb Hlt.
  destruct (nonneg_finite a Ha) as [[sa ->]|(ma & ea & -> & Ba)];
  destruct (nonneg_finite b Hb) as [[sb ->]|(mb & eb & -> & Bb)].
  - cbn [V] in Hlt. lia.
  - cbn [SFsub negb SFabs]. split; reflexivity.
  - pose proof (V_pos_finite ma ea Ba). cbn [V] in *. lia.
  - pose proof (bounded_emin _ _ Ba). pose proof (bounded_emin _ _ Bb).
    cbn [SFsub cond_Zopp]. cbn [V] in *.
    rewrite (Z.min_comm eb ea).
    set (ez := Z.min ea eb).
    pose proof (aligned_value ma ea ez ltac:(lia) ltac:(lia)) as Va.
    pose proof (aligned_value mb eb ez ltac:(lia) ltac:(lia)) as Vb.
    set (A := fst (shl_align ma ea ez)) in *.
    set (B := fst (shl_align mb eb ez)) in *.
    assert (P : 0 < 2 ^ (ez + 149)) by (apply Z.pow_pos_nonneg; lia).
    assert (HAB : Z.pos A < Z.pos B) by nia.
    destruct (Z.pos A - Z.pos B) as [|p|p] eqn:E; try lia.
    assert (E' : Z.pos B - Z.pos A = Z.pos p) by lia. rewrite E'.
    cbn [binary_normalize]. rewrite binary_round_sign. rewrite SFabs_opp.
    split; [reflexivity|].
    destruct (binary_round_bracket false p ez ltac:(lia)) as (m2 & e2 & E2 & _).
    rewrite E2. now destruct (e2 <=? 104).
Qed.

(** [a + (-b)] is [a - b] *)
Lemma SFadd_opp (a b : spec_float) :
  nonneg a -> nonneg b -> V b <= V a ->
  approx (V a - V b) (SFadd 24 128 a (SFopp b)).
Proof.
  intros Ha Hb Hle.
  destruct (nonneg_finite a Ha) as [[sa ->]|(ma & ea & -> & Ba)];
  destruct (nonneg_finite b Hb) as [[sb ->]|(mb & eb & -> & Bb)].
  - left. cbn [SFadd SFopp V]. destruct sa, sb; now split.
  - pose proof (V_pos_finite mb eb Bb). cbn [V] in *. lia.
  - left. cbn [SFadd SFopp]. split; [exact Ha|]. cbn [V]. lia.
  - exact (SFsub_approx _ _ Ha Hb Hle).
Qed.

Lemma SFleb_inf (f : spec_float) : nonneg f -> SFleb f (S754_infinity false) = true.
Proof. destruct f as [s|s| |[|] m e]; cbn; tauto || reflexivity. Qed.

Lemma nonneg_zero : nonneg (S754_zero false).
Proof. exact I. Qed.


Lemma rampCore_spec (t o m : spec_float) :
  nonneg t -> nonneg o -> nonneg_inf m ->
  let o' := rampCore t o m in
  nonneg o' /\
  (V o <= V o' <= V t \/ V t <= V o' <= V o) /\
  (nonneg m -> V o < 2 ^ 156 -> V t < 2 ^ 156 ->
   Z.abs (V o' - V o) < V m + 2 ^ 132).
Proof.
  intros Ht Ho Hm o'. subst o'.
  unfold rampCore, sub, add, leb, ltb, fabs, neg, zero.
  change prec with 24. change emax with 128. cbv zeta.
  pose proof (V_nonneg t Ht) as Pt. pose proof (V_nonneg o Ho) as Po.
  destruct (Z.le_gt_cases (V o) (V t)) as [Hle|Hgt].
  - (* the target is not below the output *)
    pose proof (SFsub_approx t o Ht Ho Hle) as HD.
    pose proof (approx_abs _ _ HD) as HA.
    destruct (approx_le _ _ t HA Ht ltac:(lia)) as [NA LA].
    assert (Hfin : nonneg m \/ m = S754_infinity false).
    { destruct m as [s|[|]| |[|] mm em]; cbn in Hm; try tauto; left; exact Hm. }
    destruct Hfin as [Nm| ->].
    + rewrite (SFleb_nonneg _ _ NA Nm).
      pose proof (V_nonneg m Nm) as Pm.
      destruct (Z.leb_spec (V (SFabs (SFsub 24 128 t o))) (V m)) as [Hs|Hs].
      * split; [exact Ht|]. split; [left; lia|]. intros _ Bo Bt.
        pose proof (approx_err _ _ HA NA ltac:(lia)). lia.
      * assert (Hx : V m < V t - V o).
        { destruct (Z.lt_ge_cases (V m) (V t - V o)) as [H|H]; [exact H|].
          destruct (approx_le _ _ m HA Nm H). lia. }
        destruct (approx_le _ _ t HD Ht ltac:(lia)) as [ND _].
        destruct (SFabs_nonneg _ ND) as [_ EV].
        rewrite (SFltb_nonneg _ _ nonneg_zero ND). cbn [V].
        destruct (Z.ltb_spec 0 (V (SFsub 24 128 t o))) as [_|Hc]; [|lia].
        pose proof (SFadd_approx o m Ho Nm) as HS.
        destruct (approx_le _ _ t HS Ht ltac:(lia)) as [NS LS].
        pose proof (approx_ge _ _ o HS Ho ltac:(lia) NS) as GS.
        split; [exact NS|]. split; [left; lia|]. intros _ Bo Bt.
        pose proof (approx_err _ _ HS NS ltac:(lia)). lia.
    + rewrite (SFleb_inf _ NA). split; [exact Ht|]. split; [left; lia|].
      intros []. 
  - (* the target is below the output *)
    destruct (SFsub_swap t o Ht Ho Hgt) as [Eabs Esign].
    rewrite Eabs, Esign.
    pose proof (SFsub_approx o t Ho Ht ltac:(lia)) as HD.
    pose proof (approx_abs _ _ HD) as HA.
    destruct (approx_le _ _ o HA Ho ltac:(lia)) as [NA LA].
    assert (Hfin : nonneg m \/ m = S754_infinity false).
    { destruct m as [s|[|]| |[|] mm em]; cbn in Hm; try tauto; left; exact Hm. }
    destruct Hfin as [Nm| ->].
    + rewrite (SFleb_nonneg _ _ NA Nm).
      pose proof (V_nonneg m Nm) as Pm.
      destruct (Z.leb_spec (V (SFabs (SFsub 24 128 o t))) (V m)) as [Hs|Hs].
      * split; [exact Ht|]. split; [right; lia|]. intros _ Bo Bt.
        pose proof (approx_err _ _ HA NA ltac:(lia)). lia.
      * assert (Hx : V m < V o - V t).
        { destruct (Z.lt_ge_cases (V m) (V o - V t)) as [H|H]; [exact H|].
          destruct (approx_le _ _ m HA Nm H). lia. }
        pose proof (SFadd_opp o m Ho Nm ltac:(lia)) as HS.
        destruct (approx_le _ _ o HS Ho ltac:(lia)) as [NS LS].
        pose proof (approx_ge _ _ t HS Ht ltac:(lia) NS) as GS.
        split; [exact NS|]. split; [right; lia|]. intros _ Bo Bt.
        pose proof (approx_err _ _ HS NS ltac:(lia)). lia.
    + rewrite (SFleb_inf _ NA). split; [exact Ht|]. split; [right; lia|].
      intros [].
Qed.


Lemma of_Z_exact (z : Z) :
  0 <= z < 2 ^ 24 -> nonneg (of_Z z) /\ V (of_Z z) = z * 2 ^ 149.
Proof.
  intros Hz. destruct z as [|p|p]; try lia; [now split|].
  unfold of_Z. change prec with 24. change emax with 128.
  cbn [binary_normalize].
  destruct (binary_round_bracket false p 0 ltac:(lia)) as (m2 & e2 & E & C & He2 & Hmod & _ & Hex).
  cbv zeta in *. change (0 + 149) with 149 in *.
  set (e1 := fexp32 (Zdigits2 (Zpos p) + 0)) in *.
  assert (He1 : -149 <= e1 <= 0).
  { pose proof (Zdigits2_bounds (Zpos p) ltac:(lia)) as [Lo _].
    pose proof (Zdigits2_pos (Zpos p) ltac:(lia)).
    assert (Zdigits2 (Zpos p) <= 24).
    { destruct (Z.le_gt_cases (Zdigits2 (Zpos p)) 24) as [H'|H']; [exact H'|].
      assert (2 ^ 24 <= 2 ^ (Zdigits2 (Zpos p) - 1)) by (apply Z.pow_le_mono_r; lia).
      lia. }
    unfold e1. rewrite fexp32_unfold. lia. }
  assert (Hx : (Zpos p * 2 ^ 149) mod 2 ^ (e1 + 149) = 0).
  { apply Z.mod_divide; [apply Z.pow_nonzero; lia|].
    exists (Zpos p * 2 ^ (- e1)). rewrite <- Z.mul_assoc, <- Z.pow_add_r by lia.
    f_equal. f_equal. lia. }
  rewrite E. destruct (Z.leb_spec e2 104) as [H|H]; [|lia].
  cbn [nonneg V]. split; [apply bounded_intro; [exact C|exact H]|]. now apply Hex.
Qed.

(** a positive 32-bit integer converts to a positive number of the format
    between 1 and 2^32 *)
Lemma of_Z_pos (z : Z) :
  1 <= z < 2 ^ 32 ->
  exists m e, of_Z z = S754_finite false m e /\ bounded 24 128 m e = true /\
              1 <= Zdigits2 (Zpos m) + e <= 33.
Proof.
  intros Hz. destruct z as [|p|p]; try lia.
  unfold of_Z. change prec with 24. change emax with 128.
  cbn [binary_normalize].
  destruct (binary_round_bracket false p 0 ltac:(lia)) as (m2 & e2 & E & C & He2 & _).
  set (e1 := fexp32 (Zdigits2 (Zpos p) + 0)) in *.
  pose proof (Zdigits2_bounds (Zpos p) ltac:(lia)) as [Lo _].
  pose proof (Zdigits2_pos (Zpos p) ltac:(lia)) as Hd.
  assert (Hd32 : Zdigits2 (Zpos p) <= 32).
  { destruct (Z.le_gt_cases (Zdigits2 (Zpos p)) 32) as [H'|H']; [exact H'|].
    assert (2 ^ 32 <= 2 ^ (Zdigits2 (Zpos p) - 1)) by (apply Z.pow_le_mono_r; lia).
    lia. }
  assert (He1 : -23 <= e1 <= 8) by (unfold e1; rewrite fexp32_unfold; lia).
  exists m2, e2. rewrite E.
  destruct (Z.leb_spec e2 104) as [H|H]; [|lia].
  split; [reflexivity|]. split; [now apply bounded_intro|].
  pose proof C as C'. apply canonical_iff in C'.
  destruct (canonical_digits m2 e2 C') as (_ & D & Dn).
  specialize (Dn ltac:(lia)). lia.
Qed.

Lemma Zdigits2_nonneg (q : Z) : 0 <= Zdigits2 q.
Proof. destruct q; cbn; lia. Qed.

Lemma Zdigits2_lower (q k : Z) : 0 <= q -> 2 ^ (k - 1) <= q -> 0 < k -> k <= Zdigits2 q.
Proof.
  intros Hq H Hk.
  assert (0 < q) by (pose proof (Z.pow_pos_nonneg 2 (k - 1)); lia).
  pose proof (Zdigits2_bounds q ltac:(lia)) as [_ Hi].
  pose proof (Zdigits2_pos q ltac:(lia)).
  destruct (Z.le_gt_cases k (Zdigits2 q)) as [H'|H']; [exact H'|].
  assert (2 ^ Zdigits2 q <= 2 ^ (k - 1)) by (apply Z.pow_le_mono_r; lia). lia.
Qed.

Lemma Zdigits2_upper (q k : Z) : 0 <= q -> q < 2 ^ k -> 0 <= k -> Zdigits2 q <= k.
Proof.
  intros Hq H Hk. destruct (Z.eq_dec q 0) as [->|Hn]; [cbn; lia|].
  pose proof (Zdigits2_bounds q ltac:(lia)) as [Lo _].
  pose proof (Zdigits2_pos q ltac:(lia)).
  destruct (Z.le_gt_cases (Zdigits2 q) k) as [H'|H']; [exact H'|].
  assert (2 ^ k <= 2 ^ (Zdigits2 q - 1)) by (apply Z.pow_le_mono_r; lia). lia.
Qed.

Lemma shift_match (m s : Z) :
  0 <= s ->
  match s with
  | 0 => m
  | Z.pos _ => Z.shiftl m s
  | Z.neg _ => 0
  end = m * 2 ^ s.
Proof.
  intros Hs. destruct s as [|p|p]; try lia.
  now rewrite Z.shiftl_mul_pow2 by lia.
Qed.

(** the quotient of two positive floats: not NaN, not negative, and with an
    exponent bounded by the magnitudes of the operands *)
Lemma SFdiv_pos (m1 m2 : positive) (e1 e2 : Z) :
  let T := (Zdigits2 (Zpos m1) + e1) - (Zdigits2 (Zpos m2) + e2) in
  let f := SFdiv 24 128 (S754_finite false m1 e1) (S754_finite false m2 e2) in
  f = S754_zero false \/
  exists m e,
    f = (if e <=? 104 then S754_finite false m e else S754_infinity false) /\
    canonical_mantissa 24 128 m e = true /\
    e <= fexp32 (Z.max (T + 1) (e1 - e2)) + 1.
Proof.
  intros T f. subst f. cbn [SFdiv xorb]. unfold SFdiv_core_binary. fold fexp32.
  set (d1 := Zdigits2 (Zpos m1)) in *. set (d2 := Zdigits2 (Zpos m2)) in *.
  fold T.
  set (e' := Z.min (fexp32 T) (e1 - e2)).
  set (s := e1 - e2 - e').
  assert (Hs : 0 <= s) by (unfold s, e'; lia).
  set (m' := match s with
             | 0 => Z.pos m1
             | Z.pos _ => Z.shiftl (Z.pos m1) s
             | Z.neg _ => 0
             end).
  assert (Hm' : m' = Zpos m1 * 2 ^ s) by (apply shift_match; exact Hs).
  clearbody m'.
  pose proof (Z_div_mod m' (Zpos m2) ltac:(lia)) as Hdm.
  destruct (Z.div_eucl m' (Z.pos m2)) as [q r] eqn:Edm.
  destruct Hdm as [Hq Hr].
  pose proof (Zdigits2_bounds (Zpos m1) ltac:(lia)) as [Lo1 Hi1]. fold d1 in Lo1, Hi1.
  pose proof (Zdigits2_bounds (Zpos m2) ltac:(lia)) as [Lo2 Hi2]. fold d2 in Lo2, Hi2.
  pose proof (Zdigits2_pos (Zpos m1) ltac:(lia)) as P1. fold d1 in P1.
  pose proof (Zdigits2_pos (Zpos m2) ltac:(lia)) as P2. fold d2 in P2.
  assert (HS : 0 < 2 ^ s) by (apply Z.pow_pos_nonneg; lia).
  assert (Hq0 : 0 <= q) by nia.
  (* the quotient has at least d1 + s - d2 digits and at most one more *)
  assert (Hlo : d1 + s - d2 <= Zdigits2 q).
  { destruct (Z.le_gt_cases (d1 + s - d2) 0) as [H|H];
      [pose proof (Zdigits2_nonneg q); lia|].
    apply Zdigits2_lower; [exact Hq0| |lia].
    assert (Hlow : 2 ^ (d1 - 1) * 2 ^ s <= m') by nia.
    rewrite <- Z.pow_add_r in Hlow by lia.
    assert (Hup : Zpos m2 * 2 ^ (d1 + s - d2 - 1) < 2 ^ d2 * 2 ^ (d1 + s - d2 - 1)).
    { apply Z.mul_lt_mono_pos_r; [apply Z.pow_pos_nonneg; lia|lia]. }
    rewrite <- Z.pow_add_r in Hup by lia.
    replace (d2 + (d1 + s - d2 - 1)) with (d1 - 1 + s) in Hup by lia.
    assert (Zpos m2 * 2 ^ (d1 + s - d2 - 1) < Zpos m2 * (q + 1)) by nia.
    apply Z.mul_lt_mono_pos_l in H0; lia. }
  assert (Hhi : Zdigits2 q + e' <= Z.max (T + 1) (e1 - e2)).
  { destruct (Z.eq_dec q 0) as [->|Hq1]; [cbn [Zdigits2]; unfold e'; lia|].
    assert (Zdigits2 q <= d1 + s - d2 + 1); [|unfold T, s in *; lia].
    pose proof (Zdigits2_bounds q ltac:(lia)) as [Loq _].
    pose proof (Zdigits2_pos q ltac:(lia)) as Pq.
    destruct (Z.le_gt_cases (Zdigits2 q) (d1 + s - d2 + 1)) as [H'|H']; [exact H'|].
    exfalso.
    assert (Hup : m' < 2 ^ d1 * 2 ^ s) by nia.
    rewrite <- Z.pow_add_r in Hup by lia.
    assert (Hq2 : 2 ^ (d2 - 1) * 2 ^ (Zdigits2 q - 1) <= Zpos m2 * q).
    { apply Z.mul_le_mono_nonneg; try lia; apply Z.pow_nonneg; lia. }
    rewrite <- Z.pow_add_r in Hq2 by lia.
    assert (2 ^ (d1 + s) <= 2 ^ (d2 - 1 + (Zdigits2 q - 1)))
      by (apply Z.pow_le_mono_r; lia).
    lia. }
  assert (Hpre : e' <= fexp32 (Zdigits2 q + e')).
  { apply Z.le_trans with (fexp32 T); [unfold e'; lia|].
    apply fexp32_mono. unfold T, s in *. lia. }
  destruct (binary_round_aux_spec false q e' (new_location (Zpos m2) r) Hq0 Hpre)
    as (q' & _ & _ & [[_ E]|(_ & m & e & E & C & _ & He)]).
  - left. exact E.
  - right. exists m, e. split; [exact E|]. split; [exact C|].
    apply Z.le_trans with (fexp32 (Zdigits2 q + e') + 1); [lia|].
    apply Z.add_le_mono_r. now apply fexp32_mono.
Qed.

(** the product of a normal float and a positive float *)
Lemma SFmul_pos (m1 m2 : positive) (e1 e2 : Z) :
  24 <= Zdigits2 (Zpos m1) ->
  let T := Zdigits2 (Zpos m1) + Zdigits2 (Zpos m2) + e1 + e2 in
  let f := SFmul 24 128 (S754_finite false m1 e1) (S754_finite false m2 e2) in
  f = S754_zero false \/
  exists m e,
    f = (if e <=? 104 then S754_finite false m e else S754_infinity false) /\
    canonical_mantissa 24 128 m e = true /\ e <= fexp32 T + 1.
Proof.
  intros H24 T f. subst f. cbn [SFmul xorb].
  pose proof (Zdigits2_bounds (Zpos m1) ltac:(lia)) as [Lo1 Hi1].
  pose proof (Zdigits2_bounds (Zpos m2) ltac:(lia)) as [Lo2 Hi2].
  pose proof (Zdigits2_pos (Zpos m2) ltac:(lia)) as P2.
  set (d1 := Zdigits2 (Zpos m1)) in *. set (d2 := Zdigits2 (Zpos m2)) in *.
  assert (Hd : d1 + d2 - 1 <= Zdigits2 (Zpos (m1 * m2)) <= d1 + d2).
  { rewrite Pos2Z.inj_mul. split.
    - apply Zdigits2_lower; [lia| |lia].
      replace (d1 + d2 - 1 - 1) with ((d1 - 1) + (d2 - 1)) by lia.
      rewrite Z.pow_add_r by lia. apply Z.mul_le_mono_nonneg; try lia;
        apply Z.pow_nonneg; lia.
    - apply Zdigits2_upper; [lia| |lia].
      rewrite Z.pow_add_r by lia. apply Z.mul_lt_mono_nonneg; lia. }
  assert (Hpre : e1 + e2 <= fexp32 (Zdigits2 (Zpos (m1 * m2)) + (e1 + e2))).
  { rewrite fexp32_unfold. lia. }
  destruct (binary_round_aux_spec false (Zpos (m1 * m2)) (e1 + e2) loc_Exact
              ltac:(lia) Hpre)
    as (q' & _ & _ & [[_ E]|(_ & m & e & E & C & _ & He)]).
  - left. exact E.
  - right. exists m, e. split; [exact E|]. split; [exact C|].
    apply Z.le_trans with (fexp32 (Zdigits2 (Zpos (m1 * m2)) + (e1 + e2)) + 1); [lia|].
    apply Z.add_le_mono_r. apply fexp32_mono. unfold T. lia.
Qed.


Lemma maxDeltaOf_nonneg (dt ramp : Z) :
  1 <= dt < 2 ^ 32 -> 1 <= ramp < 2 ^ 32 -> nonneg (maxDeltaOf dt ramp).
Proof.
  intros Hdt Hramp. unfold maxDeltaOf, mul, div.
  change prec with 24. change emax with 128.
  destruct (of_Z_pos dt Hdt) as (m1 & e1 & -> & B1 & D1).
  destruct (of_Z_pos ramp Hramp) as (m2 & e2 & -> & B2 & D2).
  destruct (bounded_inv _ _ B1) as [C1 _]. destruct (bounded_inv _ _ B2) as [C2 _].
  destruct (canonical_digits _ _ C1) as (L1 & K1 & _).
  destruct (canonical_digits _ _ C2) as (L2 & K2 & _).
  pose proof (Zdigits2_pos (Zpos m1) ltac:(lia)).
  pose proof (Zdigits2_pos (Zpos m2) ltac:(lia)).
  change hundred with (S754_finite false 13107200 (-17)).
  destruct (SFdiv_pos m1 m2 e1 e2) as [->|(my & ey & -> & Cy & Hey)]; [exact I|].
  cbv zeta in Hey. rewrite fexp32_unfold in Hey.
  destruct (Z.leb_spec ey 104) as [_|Hc]; [|lia].
  pose proof Cy as Cy'. apply canonical_iff in Cy'.
  destruct (canonical_digits _ _ Cy') as (Ly & Ky & _).
  destruct (SFmul_pos 13107200 my (-17) ey ltac:(cbn; lia))
    as [->|(m & e & -> & C & He)]; [exact I|].
  cbv zeta in He. rewrite fexp32_unfold in He.
  change (Zdigits2 13107200) with 24 in He.
  destruct (Z.leb_spec e 104) as [H104|Hc]; [|lia].
  cbn [nonneg]. now apply bounded_intro.
Qed.

End F32Facts.

(** ** Pulse model *)

Lemma EscConfig_default_ok : EscConfig_ok EscConfig_default.
Proof. unfold EscConfig_ok; simpl; lia. Qed.

Lemma escClampForwardOnly_cases (cfg : EscConfig) (us : Z) :
  let c := clampInt us (usMin cfg) (usMax cfg) in
  escClampForwardOnly cfg us =
    if c <? usMinFwd cfg
    then (if usNeutral cfg >? usMaxFwd cfg then usMaxFwd cfg
          else usNeutral cfg)
    else (if c >? usMaxFwd cfg then usMaxFwd cfg else c).
Proof.
  unfold escClampForwardOnly; simpl.
  destruct (clampInt us (usMin cfg) (usMax cfg) <? usMinFwd cfg); reflexivity.
Qed.

(** The neutral pulse passes the forward-only clamp unchanged. *)
Lemma escClampForwardOnly_neutral (cfg : EscConfig) :
  EscConfig_ok cfg -> escClampForwardOnly cfg (usNeutral cfg) = usNeutral cfg.
Proof.
  intros (H0 & H1 & H2 & H3 & H4 & H5 & H6).
  rewrite escClampForwardOnly_cases; simpl.
  rewrite clampInt_id by lia.
  destruct (Z.ltb_spec (usNeutral cfg) (usMinFwd cfg));
    destruct (Z.gtb_spec (usNeutral cfg) (usMaxFwd cfg)); lia.
Qed.

(** A pulse inside the forward band passes the clamp unchanged. *)
Lemma escClampForwardOnly_forward (cfg : EscConfig) (us : Z) :
  EscConfig_ok cfg -> usMinFwd cfg <= us <= usMaxFwd cfg ->
  escClampForwardOnly cfg us = us.
Proof.
  intros (H0 & H1 & H2 & H3 & H4 & H5 & H6) Hus.
  rewrite escClampForwardOnly_cases; simpl.
  rewrite clampInt_id by lia.
  destruct (Z.ltb_spec us (usMinFwd cfg)); [lia|].
  destruct (Z.gtb_spec us (usMaxFwd cfg)); lia.
Qed.

(** C1, as the specification states it, fails on the shipped configuration:
    the neutral pulse 1500 itself lies strictly between [usMin] = 1000 and
    [usMinFwd] = 1520, and it is what the clamp returns for the raw pulse
    1200. *)
Lemma escClampForwardOnly_returns_below_forward_band :
  escClampForwardOnly EscConfig_default 1200 = 1500 /\
  usMin EscConfig_default < 1500 < usMinFwd EscConfig_default.
Proof. split; [reflexivity | simpl; lia]. Qed.

(** C1 (amended): for every raw pulse, the clamp forces a value that is
    below [usMinFwd] after clamping to [usMin, usMax] to [usNeutral], and a
    value above [usMaxFwd] to [usMaxFwd]; a value in the forward band is
    kept.  So the result is [usNeutral] or lies in [usMinFwd, usMaxFwd], and
    the only value strictly between [usMin] and [usMinFwd] it can return is
    [usNeutral] itself. *)
Theorem escClampForwardOnly_neutral_or_forward (cfg : EscConfig) (p : Z) :
  EscConfig_ok cfg ->
  let c := clampInt p (usMin cfg) (usMax cfg) in
  let r := escClampForwardOnly cfg p in
  (c < usMinFwd cfg -> r = usNeutral cfg) /\
  (usMaxFwd cfg < c -> r = usMaxFwd cfg) /\
  (usMinFwd cfg <= c <= usMaxFwd cfg -> r = c) /\
  (r = usNeutral cfg \/ usMinFwd cfg <= r <= usMaxFwd cfg) /\
  (usMin cfg < r < usMinFwd cfg -> r = usNeutral cfg).
Proof.
  intros (H0 & H1 & H2 & H3 & H4 & H5 & H6) c r.
  subst r. rewrite escClampForwardOnly_cases. fold c.
  destruct (Z.ltb_spec c (usMinFwd cfg));
    destruct (Z.gtb_spec (usNeutral cfg) (usMaxFwd cfg));
    destruct (Z.gtb_spec c (usMaxFwd cfg)); lia.
Qed.

Lemma escClampForwardOnly_neutral_or_forward_witness :
  EscConfig_ok EscConfig_default /\
  (escClampForwardOnly EscConfig_default 1200 = usNeutral EscConfig_default \/
   usMinFwd EscConfig_default <= escClampForwardOnly EscConfig_default 1200
     <= usMaxFwd EscConfig_default).
Proof.
  assert (Hok : EscConfig_ok EscConfig_default)
    by (unfold EscConfig_ok; simpl; lia).
  split; [exact Hok|].
  apply (escClampForwardOnly_neutral_or_forward EscConfig_default 1200 Hok).
Defined.

(** C3: for every percentage in 0..100, [escPulseFromPercent] returns
    [usNeutral] at 0 and, from 1 to 100, the truncated linear interpolation
    [usMinFwd + (usMaxFwd - usMinFwd) * pct / 100], which lies in
    [usMinFwd, usMaxFwd]. *)
Theorem escPulseFromPercent_interpolates (cfg : EscConfig) (pct : Z) :
  EscConfig_ok cfg -> 0 <= pct <= 100 ->
  (pct = 0 -> escPulseFromPercent cfg pct = usNeutral cfg) /\
  (1 <= pct ->
   escPulseFromPercent cfg pct
     = usMinFwd cfg + Z.quot ((usMaxFwd cfg - usMinFwd cfg) * pct) 100 /\
   usMinFwd cfg <= escPulseFromPercent cfg pct <= usMaxFwd cfg).
Proof.
  intros Hok Hpct. pose proof Hok as (H0 & H1 & H2 & H3 & H4 & H5 & H6).
  unfold escPulseFromPercent. cbv zeta.
  rewrite (uint8_of_small pct) by lia.
  rewrite uint8_of_clampInt by lia. rewrite clampInt_id by lia.
  split.
  - intros ->. reflexivity.
  - intros Hpos.
    destruct (Z.eqb_spec pct 0) as [->|_]; [lia|].
    assert (Hq : 0 <= Z.quot ((usMaxFwd cfg - usMinFwd cfg) * pct) 100
                 <= usMaxFwd cfg - usMinFwd cfg).
    { rewrite Z.quot_div_nonneg by nia. split.
      - apply Z.div_pos; nia.
      - apply Z.div_le_upper_bound; nia. }
    rewrite (int_of_small (usMaxFwd cfg - usMinFwd cfg)) by (simpl; lia).
    rewrite (int_of_small (_ * pct)) by (simpl; nia).
    rewrite int_of_small by (simpl; lia).
    rewrite escClampForwardOnly_forward by (assumption || lia).
    split; [reflexivity | lia].
Qed.

Lemma escPulseFromPercent_interpolates_witness :
  EscConfig_ok EscConfig_default /\ 0 <= 50 <= 100 /\
  escPulseFromPercent EscConfig_default 50 = 1520 + Z.quot (480 * 50) 100 /\
  1520 <= escPulseFromPercent EscConfig_default 50 <= 2000.
Proof.
  assert (Hok : EscConfig_ok EscConfig_default)
    by (unfold EscConfig_ok; simpl; lia).
  assert (Hpct : 0 <= 50 <= 100) by lia.
  split; [exact Hok|]. split; [exact Hpct|].
  apply (escPulseFromPercent_interpolates EscConfig_default 50 Hok Hpct).
  lia.
Defined.

(** ** Running the primitives *)

Lemma addEvents_nil (w : World) : addEvents [] w = w.
Proof. destruct w; unfold addEvents; simpl. now rewrite app_nil_r. Qed.

Lemma addEvents_app (l1 l2 : list Event) (w : World) :
  addEvents l2 (addEvents l1 w) = addEvents (l1 ++ l2) w.
Proof. unfold addEvents; simpl. now rewrite app_assoc. Qed.

Lemma run_emit (e : Event) (w : World) : emit e w = (tt, addEvents [e] w).
Proof. reflexivity. Qed.

Lemma run_logLine (line : string) (w : World) :
  logLine line w = (tt, addEvents (logLine_events (globals w) line) w).
Proof.
  unfold logLine, logLine_events, bind, get, emit, when, addEvents; simpl.
  destruct (g_deviceConnected (globals w) && g_txCharacteristic (globals w));
    simpl; [now rewrite <- app_assoc | reflexivity].
Qed.

Lemma run_escWriteMicrosecondsSafe (us : Z) (w : World) :
  escWriteMicrosecondsSafe us w
  = (tt, addEvents [EscWrite (escClampForwardOnly (g_escCfg (globals w)) us)] w).
Proof. reflexivity. Qed.

Lemma run_setTargetPercent (pct : Z) (w : World) :
  setTargetPercent pct w
  = (tt, {| globals := set_lastInputMs (uint32_of (clock w))
                         (set_targetPct (uint8_of (clampInt pct 0 100))
                            (globals w));
            clock := clock w; events := events w |}).
Proof. reflexivity. Qed.

Lemma run_stopMotor (w : World) :
  stopMotor w
  = (tt, {| globals := set_lastInputMs (uint32_of (clock w))
                         (set_outputPct F32.zero
                            (set_targetPct 0 (globals w)));
            clock := clock w;
            events := (events w ++
              [EscWrite (escClampForwardOnly (g_escCfg (globals w))
                           (usNeutral (g_escCfg (globals w))))])%list |}).
Proof. reflexivity. Qed.

(** A tick of the ramp engine while not armed. *)
Lemma run_applyThrottleWithRamping_unarmed (w : World) :
  g_armed (globals w) = false ->
  applyThrottleWithRamping w
  = (tt, {| globals := set_outputPct F32.zero
                         (set_lastLoopMs (uint32_of (clock w)) (globals w));
            clock := clock w;
            events := (events w ++
              [EscWrite (escClampForwardOnly (g_escCfg (globals w))
                           (usNeutral (g_escCfg (globals w))))])%list |}).
Proof.
  intros H.
  unfold applyThrottleWithRamping, bind, get, put, millis; simpl.
  rewrite H; reflexivity.
Qed.

(** A tick of the ramp engine while armed. *)
Lemma run_applyThrottleWithRamping_armed (w : World) :
  g_armed (globals w) = true ->
  let s := globals w in
  let now := uint32_of (clock w) in
  let dt := if g_lastLoopMs s =? 0 then 0
            else uint32_of (now - g_lastLoopMs s) in
  let out := clampFloat
               (rampStep (g_rampTimeMs s) dt (g_targetPct s) (g_outputPct s))
               F32.zero F32.hundred in
  applyThrottleWithRamping w
  = (tt, {| globals := set_outputPct out (set_lastLoopMs now s);
            clock := clock w;
            events := (events w ++
              [EscWrite (escClampForwardOnly (g_escCfg s)
                 (escPulseFromPercent (g_escCfg s)
                    (roundedOutputPct out)))])%list |}).
Proof.
  intros H.
  unfold applyThrottleWithRamping, bind, get, put, millis; simpl.
  rewrite H; reflexivity.
Qed.

(** ** The ramp *)

Lemma uint32_of_range (z : Z) : 0 <= uint32_of z < 2 ^ 32.
Proof. unfold uint32_of. apply Z.mod_pos_bound. lia. Qed.

Lemma tick_dt_range (w : World) : 0 <= tick_dt w < 2 ^ 32.
Proof.
  unfold tick_dt. destruct (g_lastLoopMs (globals w) =? 0); [lia|].
  apply uint32_of_range.
Qed.

Lemma rampStep_eq (rampTimeMs dt targetPct : Z) (outputPct : F32.float) :
  rampStep rampTimeMs dt targetPct outputPct
  = if (rampTimeMs =? 0) || (dt =? 0) then F32.of_Z targetPct
    else rampCore (F32.of_Z targetPct) outputPct (maxDeltaOf dt rampTimeMs).
Proof. reflexivity. Qed.

Lemma V_hundred : F32.V F32.hundred = 100 * 2 ^ 149.
Proof. reflexivity. Qed.

Lemma nonneg_hundred : F32.nonneg F32.hundred.
Proof. reflexivity. Qed.

(** The final clamp leaves a number of [[0, 100]] alone. *)
Lemma clampFloat_id (v : F32.float) :
  OutputPct_ok v -> clampFloat v F32.zero F32.hundred = v.
Proof.
  intros [N B]. unfold clampFloat, F32.ltb.
  rewrite (F32Facts.SFltb_nonneg v F32.zero N F32Facts.nonneg_zero).
  rewrite (F32Facts.SFltb_nonneg F32.hundred v nonneg_hundred N).
  pose proof (F32Facts.V_nonneg v N) as P.
  change (F32.V F32.zero) with 0.
  destruct (Z.ltb_spec (F32.V v) 0); [lia|].
  destruct (Z.ltb_spec (F32.V F32.hundred) (F32.V v)); [lia|reflexivity].
Qed.

Lemma OutputPct_ok_of_Z (pct : Z) :
  0 <= pct <= 100 ->
  OutputPct_ok (F32.of_Z pct) /\ F32.V (F32.of_Z pct) = pct * 2 ^ 149.
Proof.
  intros H. destruct (F32Facts.of_Z_exact pct ltac:(lia)) as [N E].
  split; [|exact E]. split; [exact N|]. rewrite E, V_hundred. lia.
Qed.

(** C2, as the specification states it, fails: the step of a tick can be
    larger than [maxDelta].  With the output at 64 percent, a ramp time of
    ten seconds and 5 ms since the last tick, [maxDelta] is the float next
    to 0.05, but [64 + maxDelta] is not a float: the sum is rounded to the
    next multiple of [2^-17], and the output moves by [6554 * 2^-17], which
    is more than [maxDelta] and more than [100 * 5 / 10000]. *)
Lemma ramp_step_exceeds_maxDelta :
  let w := exec (handleTextCommand FloatText.toFloat FloatText.ofFloat
                   "SET 80") World_slow_ramp in
  let s := globals w in
  let maxDelta := maxDeltaOf (tick_dt w) (g_rampTimeMs s) in
  let out := g_outputPct s in
  let out' := g_outputPct (globals (exec applyThrottleWithRamping w)) in
  g_armed s = true /\ g_targetPct s = 80 /\
  g_rampTimeMs s = 10000 /\ tick_dt w = 5 /\
  out = F32.of_Z 64 /\
  maxDelta = S754_finite false 13421773 (-28) /\
  F32.sub out' out = S754_finite false 13422592 (-28) /\
  F32.ltb maxDelta (F32.sub out' out) = true /\
  F32.V maxDelta < F32.V out' - F32.V out /\
  100 * tick_dt w * 2 ^ 149 < g_rampTimeMs s * (F32.V out' - F32.V out).
Proof. vm_compute. repeat split. Qed.

(** C2 (amended): an armed tick with the target in [[0, 100]] and the
    output a number of [[0, 100]] leaves the output a number of [[0, 100]].
    If the ramp time is 0 or no time has passed it snaps the output to the
    target.  Otherwise the new output lies between the old output and the
    target, both included: it moves toward the target and never past it;
    and it is less than [maxDelta + 2^-17] away from the old output, where
    [maxDelta] is the float [100.0f * ((float)dt / (float)rampTimeMs)] and
    [2^-17] the spacing of the floats below 128: the step is [maxDelta] up
    to the rounding of the sum.  Values are in units of [2^-149]. *)
Theorem ramp_tick_moves_toward_target (w : World) :
  let s := globals w in
  let dt := tick_dt w in
  let target := F32.of_Z (g_targetPct s) in
  let out := g_outputPct s in
  let out' := g_outputPct (globals (exec applyThrottleWithRamping w)) in
  g_armed s = true ->
  0 <= g_targetPct s <= 100 ->
  0 <= g_rampTimeMs s < 2 ^ 32 ->
  OutputPct_ok out ->
  OutputPct_ok out' /\
  F32.V target = g_targetPct s * 2 ^ 149 /\
  (g_rampTimeMs s = 0 \/ dt = 0 -> out' = target) /\
  (g_rampTimeMs s > 0 -> dt > 0 ->
   (F32.V out <= F32.V out' <= F32.V target \/
    F32.V target <= F32.V out' <= F32.V out) /\
   Z.abs (F32.V out' - F32.V out)
   < F32.V (maxDeltaOf dt (g_rampTimeMs s)) + F32.spacing_below_128).
Proof.
  intros s dt target out out' Harmed Htgt Hramp Hout.
  destruct (OutputPct_ok_of_Z (g_targetPct s) Htgt) as [Ht Vt].
  fold target in Ht, Vt.
  pose proof (tick_dt_range w) as Hdt. fold dt in Hdt.
  assert (E : out' = clampFloat
                (rampStep (g_rampTimeMs s) dt (g_targetPct s) out)
                F32.zero F32.hundred).
  { unfold out', exec.
    rewrite (run_applyThrottleWithRamping_armed w Harmed). reflexivity. }
  rewrite rampStep_eq in E. fold target in E.
  destruct (Z.eqb_spec (g_rampTimeMs s) 0) as [R0|R0].
  - (* ramping disabled *)
    cbn [orb] in E. rewrite (clampFloat_id _ Ht) in E.
    split; [rewrite E; exact Ht|]. split; [exact Vt|].
    split; [intros _; exact E|]. intros; lia.
  - destruct (Z.eqb_spec dt 0) as [D0|D0].
    + (* no time has passed *)
      cbn [orb] in E. rewrite (clampFloat_id _ Ht) in E.
      split; [rewrite E; exact Ht|]. split; [exact Vt|].
      split; [intros _; exact E|]. intros; lia.
    + cbn [orb] in E.
      assert (Nm : F32.nonneg (maxDeltaOf dt (g_rampTimeMs s)))
        by (apply F32Facts.maxDeltaOf_nonneg; lia).
      assert (Nmi : F32.nonneg_inf (maxDeltaOf dt (g_rampTimeMs s))).
      { revert Nm. destruct (maxDeltaOf dt (g_rampTimeMs s)) as [?|[|]| |[|] ? ?];
          cbn; tauto. }
      destruct Ht as [Nt Bt]. destruct Hout as [No Bo].
      destruct (F32Facts.rampCore_spec target out _ Nt No Nmi)
        as (N' & Btw & Step).
      rewrite V_hundred in Bt, Bo.
      assert (Ok : OutputPct_ok
                     (rampCore target out (maxDeltaOf dt (g_rampTimeMs s)))).
      { split; [exact N'|]. rewrite V_hundred. lia. }
      rewrite (clampFloat_id _ Ok) in E. rewrite E.
      split; [exact Ok|]. split; [exact Vt|].
      split; [intros [?|?]; contradiction|].
      intros _ _. split; [exact Btw|].
      apply Step; [exact Nm| |].
      * apply Z.le_lt_trans with (100 * 2 ^ 149); [exact Bo|].
        change (2 ^ 156) with (128 * 2 ^ 149). lia.
      * apply Z.le_lt_trans with (100 * 2 ^ 149); [exact Bt|].
        change (2 ^ 156) with (128 * 2 ^ 149). lia.
Qed.

(** ** Strings *)

Lemma append_assoc (a b c : string) : (a ++ b) ++ c = a ++ b ++ c.
Proof. induction a as [|x a IH]; simpl; [reflexivity | now rewrite IH]. Qed.

Lemma ltrim_head (s : string) :
  Str.ltrim s = "" \/
  exists c r, Str.ltrim s = String c r /\ Str.isspace c = false.
Proof.
  induction s as [|c r IH]; [now left|].
  cbn [Str.ltrim]. destruct (Str.isspace c) eqn:E; [exact IH|].
  right. now exists c, r.
Qed.

Lemma rtrim_idem (s : string) : Str.rtrim (Str.rtrim s) = Str.rtrim s.
Proof.
  induction s as [|c r IH]; [reflexivity|].
  cbn [Str.rtrim]. destruct (Str.rtrim r) as [|d r'] eqn:E.
  - destruct (Str.isspace c) eqn:Ec; [reflexivity|].
    cbn [Str.rtrim]. now rewrite Ec.
  - change (Str.rtrim (String c (String d r')))
      with (match Str.rtrim (String d r') with
            | "" => if Str.isspace c then "" else String c ""
            | String x y => String c (String x y)
            end).
    now rewrite IH.
Qed.

Lemma rtrim_head (c : ascii) (r : string) :
  Str.isspace c = false -> exists r', Str.rtrim (String c r) = String c r'.
Proof.
  intros Hc. cbn [Str.rtrim]. rewrite Hc.
  destruct (Str.rtrim r) as [|d r']; eexists; reflexivity.
Qed.

(** [trim] does nothing to a trimmed line. *)
Lemma trim_idem (s : string) : Str.trim (Str.trim s) = Str.trim s.
Proof.
  unfold Str.trim.
  destruct (ltrim_head s) as [->|(c & r & -> & Hc)]; [reflexivity|].
  destruct (rtrim_head c r Hc) as [r' E].
  rewrite E at 1. cbn [Str.ltrim]. rewrite Hc. rewrite <- E.
  apply rtrim_idem.
Qed.

Lemma startsWith_inv (p s : string) :
  Str.startsWith s p = true -> exists r, s = p ++ r.
Proof.
  revert s. induction p as [|a p IH]; intros s H.
  - now exists s.
  - destruct s as [|b s]; cbn [Str.startsWith] in H; [discriminate H|].
    apply andb_prop in H as [Hab H]. apply Ascii.eqb_eq in Hab as ->.
    destruct (IH s H) as [r ->]. now exists r.
Qed.

Lemma toupper_fixes (c : ascii) :
  (Str.code c <? 97) = true -> Str.toupper c = c.
Proof.
  intros H. unfold Str.toupper.
  destruct (Z.leb_spec 97 (Str.code c)); [|reflexivity].
  apply Z.ltb_lt in H. lia.
Qed.

(** A line whose upper-case form starts with a character below ['a'] that
    [toupper] cannot produce from another one starts with that character. *)
Lemma toUpperCase_head (cmd r : string) (c : ascii) :
  Str.toUpperCase cmd = String c r ->
  exists a t, cmd = String a t /\ Str.toupper a = c /\ Str.toUpperCase t = r.
Proof.
  destruct cmd as [|a t]; simpl; intros H; [discriminate H|].
  injection H as H1 H2. now exists a, t.
Qed.

Lemma toupper_not_bang (a : ascii) : Str.toupper a = "!"%char -> a = "!"%char.
Proof.
  unfold Str.toupper.
  destruct ((97 <=? Str.code a) && (Str.code a <=? 122)) eqn:E; [|easy].
  apply andb_prop in E as [E1 E2].
  apply Z.leb_le in E1. apply Z.leb_le in E2. unfold Str.code in *.
  intros H. apply (f_equal nat_of_ascii) in H.
  pose proof (nat_ascii_bounded a) as Hb.
  rewrite nat_ascii_embedding in H by lia.
  change (nat_of_ascii "!") with 33%nat in H. lia.
Qed.

Lemma not_controlPad (cmd r : string) (c : ascii) :
  Str.toUpperCase cmd = String c r -> c <> "!"%char ->
  Str.startsWith cmd "!B" = false.
Proof.
  intros H Hc. destruct (toUpperCase_head _ _ _ H) as (a & t & -> & Ha & _).
  cbn [Str.startsWith].
  destruct (Ascii.eqb_spec "!" a) as [<-|]; [|reflexivity].
  exfalso. apply Hc. rewrite <- Ha. reflexivity.
Qed.

Lemma length_nonempty (cmd r : string) (c : ascii) :
  Str.toUpperCase cmd = String c r -> (Str.length cmd =? 0) = false.
Proof.
  intros H. destruct (toUpperCase_head _ _ _ H) as (a & t & -> & _).
  unfold Str.length; simpl String.length. apply Z.eqb_neq. lia.
Qed.

(** ** Arming *)

Lemma holdNeutral_step (fuel : nat) (t0 msHold : Z) (w : World) :
  holdNeutral (S fuel) t0 msHold w
  = if uint32_of (uint32_of (clock w) - t0) <? msHold
    then holdNeutral fuel t0 msHold
           {| globals := globals w; clock := clock w + 10;
              events := events w |}
    else (tt, w).
Proof.
  cbn [holdNeutral]. unfold bind, millis. cbn [fst snd].
  destruct (uint32_of (uint32_of (clock w) - t0) <? msHold); reflexivity.
Qed.

Lemma holdNeutral_frame (fuel : nat) (t0 msHold : Z) (w : World) :
  globals (exec (holdNeutral fuel t0 msHold) w) = globals w /\
  events (exec (holdNeutral fuel t0 msHold) w) = events w.
Proof.
  revert w. induction fuel as [|fuel IH]; intros w; [now split|].
  unfold exec. rewrite holdNeutral_step.
  destruct (uint32_of (uint32_of (clock w) - t0) <? msHold); [|now split].
  exact (IH {| globals := globals w; clock := clock w + 10;
               events := events w |}).
Qed.

(** The hold loop leaves when [msHold] milliseconds have passed: started at
    clock [c0], it stops at the first multiple of 10 ms that is not below
    [msHold]. *)
Lemma holdNeutral_clock (fuel : nat) (c0 msHold k : Z) (w : World) :
  0 <= msHold < 2 ^ 31 -> 0 <= k -> clock w = c0 + 10 * k ->
  10 * k < msHold + 10 -> msHold <= 10 * (k + Z.of_nat fuel) ->
  clock (exec (holdNeutral fuel (uint32_of c0) msHold) w)
  = c0 + 10 * ((msHold + 9) / 10).
Proof.
  revert k w. induction fuel as [|fuel IH]; intros k w Hms Hk Hc Hlo Hhi.
  - unfold exec. cbn [holdNeutral ret snd]. rewrite Hc. f_equal. f_equal.
    assert (msHold + 9 = k * 10 + (msHold + 9 - 10 * k)) as -> by lia.
    rewrite Z.div_add_l by lia.
    rewrite Z.div_small by lia. lia.
  - unfold exec. rewrite holdNeutral_step.
    assert (E : uint32_of (uint32_of (clock w) - uint32_of c0) = 10 * k).
    { unfold uint32_of. rewrite <- Zminus_mod. rewrite Hc.
      replace (c0 + 10 * k - c0) with (10 * k) by lia.
      apply Z.mod_small. lia. }
    rewrite E.
    destruct (Z.ltb_spec (10 * k) msHold) as [Hlt|Hge].
    + apply (IH (k + 1)); cbn [clock]; lia.
    + cbn [snd]. rewrite Hc. f_equal. f_equal.
      assert (msHold + 9 = k * 10 + (msHold + 9 - 10 * k)) as -> by lia.
      rewrite Z.div_add_l by lia.
      rewrite Z.div_small by lia. lia.
Qed.

Lemma run_escArmNeutral (msHold : Z) (w : World) :
  0 <= msHold < 2 ^ 31 ->
  exec (escArmNeutral msHold) w
  = {| globals := set_armed true (globals w);
       clock := clock w + 10 * ((msHold + 9) / 10);
       events := (events w ++
         [EscWrite (escClampForwardOnly (g_escCfg (globals w))
                      (usNeutral (g_escCfg (globals w))))])%list |}.
Proof.
  intros Hms.
  unfold exec, escArmNeutral, bind, get, put, millis. cbn [fst snd].
  set (w1 := snd (escWriteMicrosecondsSafe _ w)).
  pose proof (holdNeutral_frame (Z.to_nat (msHold / 10 + 1))
                (uint32_of (clock w1)) msHold w1) as [Hg He].
  pose proof (holdNeutral_clock (Z.to_nat (msHold / 10 + 1))
                (clock w1) msHold 0 w1 Hms) as Hc.
  unfold exec in Hg, He, Hc. rewrite Hg, He, Hc.
  - reflexivity.
  - lia.
  - lia.
  - lia.
  - assert (0 <= msHold / 10) by (apply Z.div_pos; lia).
    rewrite Z2Nat.id by lia.
    pose proof (Z.mul_succ_div_gt msHold 10). lia.
Qed.

(** ** Command dispatch *)

Section Properties.

Variable toFloat : string -> F32.float.
Variable ofFloat : F32.float -> Z -> string.

Abbreviation handle := (handleTextCommand toFloat ofFloat).
Abbreviation status := (statusText ofFloat).

Lemma run_printStatus (reason : string) (w : World) :
  printStatus ofFloat reason w
  = (tt, addEvents (logLine_events (globals w) (status reason (globals w))) w).
Proof. unfold printStatus, bind, get; simpl. apply run_logLine. Qed.

(** The upper-case form of the trimmed line decides the keyword branch. *)
Ltac dispatch H :=
  let r := fresh "rest" in
  let Hr := fresh "Hr" in
  destruct (startsWith_inv _ _ H) as [r Hr]; simpl in Hr;
  unfold handleTextCommand; cbv zeta;
  rewrite (length_nonempty _ _ _ Hr);
  rewrite (not_controlPad _ _ _ Hr) by discriminate;
  rewrite Hr; reflexivity.

Lemma handle_SET (cmd : string) :
  Str.startsWith (Str.toUpperCase (Str.trim cmd)) "SET " = true ->
  handle cmd
  = (setTargetPercent
       (uint8_of (clampInt (Str.toInt (Str.substring 4 (Str.trim cmd))) 0 100)) ;;
     printStatus ofFloat "SET").
Proof. intros H. dispatch H. Qed.

Lemma handle_US (cmd : string) :
  Str.startsWith (Str.toUpperCase (Str.trim cmd)) "US " = true ->
  handle cmd
  = (escWriteMicrosecondsSafe (Str.toInt (Str.substring 3 (Str.trim cmd))) ;;
     t <- get g_targetPct ;;
     put (set_outputPct (F32.of_Z t)) ;;
     printStatus ofFloat "US").
Proof. intros H. dispatch H. Qed.

Lemma handle_RAMP (cmd : string) :
  Str.startsWith (Str.toUpperCase (Str.trim cmd)) "RAMP " = true ->
  handle cmd
  = (put (set_rampTimeMs
            (uint32_of
               (clampInt (Str.toInt (Str.substring 5 (Str.trim cmd))) 0 10000))) ;;
     printStatus ofFloat "RAMP").
Proof. intros H. dispatch H. Qed.

Lemma handle_LOG_PERIOD (cmd : string) :
  Str.startsWith (Str.toUpperCase (Str.trim cmd)) "LOG PERIOD " = true ->
  handle cmd
  = (put (set_logPeriodMs
            (uint32_of
               (clampInt (Str.toInt (Str.substring 11 (Str.trim cmd))) 20 10000))) ;;
     printStatus ofFloat "LOGPER").
Proof. intros H. dispatch H. Qed.

Lemma handle_STOP (cmd : string) :
  Str.toUpperCase (Str.trim cmd) = "STOP" \/
  Str.toUpperCase (Str.trim cmd) = "0" ->
  handle cmd = (stopMotor ;; printStatus ofFloat "STOP").
Proof.
  intros [H|H]; unfold handleTextCommand; cbv zeta;
    rewrite (length_nonempty _ _ _ H);
    rewrite (not_controlPad _ _ _ H) by discriminate;
    rewrite H; reflexivity.
Qed.


(** *** Target changes while not armed *)



(** *** Direct pulse injection *)

(** C6 (amended): [US] sends the forward-only clamp of the injected pulse to
    the ESC and prints a status line; it does not change [g_targetPct], but
    it sets [g_outputPct] to the target.  All other globals and the clock
    are left as they were. *)
Theorem US_injects_clamped_pulse (w : World) (cmd : string) :
  Str.startsWith (Str.toUpperCase (Str.trim cmd)) "US " = true ->
  let us := Str.toInt (Str.substring 3 (Str.trim cmd)) in
  let w' := exec (handle cmd) w in
  globals w'
    = set_outputPct (F32.of_Z (g_targetPct (globals w))) (globals w) /\
  g_targetPct (globals w') = g_targetPct (globals w) /\
  clock w' = clock w /\
  events w' = (events w ++
    EscWrite (escClampForwardOnly (g_escCfg (globals w)) us)
    :: logLine_events (globals w') (status "US" (globals w')))%list.
Proof.
  intros H us w'. subst w'. rewrite (handle_US cmd H).
  unfold exec, bind. rewrite run_escWriteMicrosecondsSafe.
  cbn [fst snd get put globals addEvents]. rewrite run_printStatus.
  cbn [snd globals clock events addEvents].
  repeat split. now rewrite <- app_assoc.
Qed.

(** *** Numeric arguments *)

Lemma status_echoes_target (reason : string) (s : Globals) :
  contains (status reason s)
    (" targetPct=" ++ Str.ofInt (g_targetPct s) ++ " outPct=").
Proof.
  exists ("STATUS [" ++ reason ++ "] " ++ "conn="
          ++ Str.ofBool (g_deviceConnected s)
          ++ " armed=" ++ Str.ofBool (g_armed s)).
  eexists. unfold statusText.
  repeat (rewrite !append_assoc; cbn [append]).
  reflexivity.
Qed.

Lemma status_echoes_ramp (reason : string) (s : Globals) :
  contains (status reason s)
    (" ramp_ms=" ++ Str.ofInt (g_rampTimeMs s) ++ " log=").
Proof.
  exists ("STATUS [" ++ reason ++ "] " ++ "conn="
          ++ Str.ofBool (g_deviceConnected s)
          ++ " armed=" ++ Str.ofBool (g_armed s)
          ++ " targetPct=" ++ Str.ofInt (g_targetPct s)
          ++ " outPct=" ++ ofFloat (g_outputPct s) 1
          ++ " pulse_us=" ++ Str.ofInt
               (escPulseFromPercent (g_escCfg s)
                  (roundedOutputPct (g_outputPct s)))
          ++ " rpm_est=" ++ ofFloat
               (estimateRpmFromPercent (g_battVoltage_V s) (g_outputPct s)) 0).
  eexists. unfold statusText.
  repeat (rewrite !append_assoc; cbn [append]).
  reflexivity.
Qed.

(** The status line does not show the log period. *)
Lemma status_ignores_logPeriod (reason : string) (s : Globals) (p : Z) :
  status reason (set_logPeriodMs p s) = status reason s.
Proof. reflexivity. Qed.

(** C7 (amended): the numeric argument of [SET], [RAMP] and [LOG PERIOD] is
    never rejected; it is clamped to the nearest bound of 0..100, 0..10000
    and 20..10000 and stored.  The status line printed next shows the
    clamped value for [SET] (field [targetPct]) and [RAMP] (field
    [ramp_ms]); for [LOG PERIOD] it is the status line of the state before
    the command, which has no field for the period. *)
Theorem numeric_arguments_are_clamped (w : World) (cmd : string) :
  let U := Str.toUpperCase (Str.trim cmd) in
  let w' := exec (handle cmd) w in
  (Str.startsWith U "SET " = true ->
   let v := clampInt (Str.toInt (Str.substring 4 (Str.trim cmd))) 0 100 in
   g_targetPct (globals w') = v /\ 0 <= v <= 100 /\
   events w' = (events w ++
     logLine_events (globals w') (status "SET" (globals w')))%list /\
   contains (status "SET" (globals w'))
     (" targetPct=" ++ Str.ofInt v ++ " outPct=")) /\
  (Str.startsWith U "RAMP " = true ->
   let v := clampInt (Str.toInt (Str.substring 5 (Str.trim cmd))) 0 10000 in
   g_rampTimeMs (globals w') = v /\ 0 <= v <= 10000 /\
   events w' = (events w ++
     logLine_events (globals w') (status "RAMP" (globals w')))%list /\
   contains (status "RAMP" (globals w'))
     (" ramp_ms=" ++ Str.ofInt v ++ " log=")) /\
  (Str.startsWith U "LOG PERIOD " = true ->
   let v := clampInt (Str.toInt (Str.substring 11 (Str.trim cmd))) 20 10000 in
   g_logPeriodMs (globals w') = v /\ 20 <= v <= 10000 /\
   events w' = (events w ++
     logLine_events (globals w) (status "LOGPER" (globals w)))%list).
Proof.
  intros U w'. subst U w'. split; [|split]; intros H v.
  - rewrite (handle_SET cmd H). unfold exec, bind.
    rewrite run_setTargetPercent. cbn [fst snd].
    rewrite run_printStatus. cbn [snd globals events addEvents].
    rewrite !uint8_of_clampInt by lia. rewrite clampInt_idem by lia.
    fold v. split; [reflexivity|]. split; [apply clampInt_range; lia|].
    split; [reflexivity|].
    apply (status_echoes_target "SET"
             (set_lastInputMs (uint32_of (clock w))
                (set_targetPct v (globals w)))).
  - rewrite (handle_RAMP cmd H). unfold exec, bind, put.
    cbn [fst snd]. rewrite run_printStatus.
    cbn [snd globals events addEvents].
    rewrite uint32_of_clampInt by lia. fold v.
    split; [reflexivity|]. split; [apply clampInt_range; lia|].
    split; [reflexivity|].
    apply (status_echoes_ramp "RAMP" (set_rampTimeMs v (globals w))).
  - rewrite (handle_LOG_PERIOD cmd H). unfold exec, bind, put.
    cbn [fst snd]. rewrite run_printStatus.
    cbn [snd globals events addEvents].
    rewrite uint32_of_clampInt by lia. fold v.
    split; [reflexivity|]. split; [apply clampInt_range; lia|].
    reflexivity.
Qed.

(** *** Control Pad packets *)

Lemma length_4 (a b c d : ascii) (r : string) :
  Str.length (String a (String b (String c (String d r))))
  = 4 + Str.length r /\ 0 <= Str.length r.
Proof.
  unfold Str.length. cbn [String.length]. lia.
Qed.

Lemma handle_controlPad (cmd : string) (id state : ascii) (rest : string) :
  Str.trim cmd = String "!" (String "B" (String id (String state rest))) ->
  handle cmd = handleControlPad ofFloat (Str.trim cmd).
Proof.
  intros H. unfold handleTextCommand; cbv zeta. rewrite H.
  destruct (length_4 "!" "B" id state rest) as [-> Hr].
  destruct (Z.eqb_spec (4 + Str.length rest) 0); [lia|].
  destruct (Z.geb_spec (4 + Str.length rest) 4); [|lia].
  reflexivity.
Qed.

Lemma code_of_one (c : ascii) : Str.code c - 48 = 1 -> c = "1"%char.
Proof.
  unfold Str.code. intros H.
  rewrite <- (ascii_nat_embedding c).
  replace (nat_of_ascii c) with 49%nat by lia. reflexivity.
Qed.

Lemma run_cpadDebug (cmd : string) (w : World) :
  when (g_debugEnabled (globals w)) (
     emit (SerialPrint "CPAD raw=") ;;
     emit (SerialPrint cmd) ;;
     emit (SerialPrint " btn=") ;;
     emit (SerialPrint (Str.ofInt (Str.code (Str.charAt 2 cmd) - 48))) ;;
     emit (SerialPrint " state=") ;;
     emit (SerialPrintln (Str.ofInt (Str.code (Str.charAt 3 cmd) - 48)))) w
  = (tt, addEvents (cpadDebug_events (globals w) cmd) w).
Proof.
  unfold bind, when, cpadDebug_events. cbn [fst snd].
  destruct (g_debugEnabled (globals w)).
  - unfold emit, addEvents. cbn [fst snd globals clock events].
    rewrite <- !app_assoc. reflexivity.
  - unfold ret. now rewrite addEvents_nil.
Qed.

(** C8: a Control Pad packet ["!B<id><state>..."] acts only when the state
    character is ['1']; with any other state the globals and the clock are
    as before and only the debug echo is sent.  A press of the FULL button
    sets [g_targetPct] to 100.  A press of a button that is none of UP,
    DOWN, FULL and STOP only prints the diagnostic line. *)
Theorem controlPad_acts_on_press_only
  (w : World) (cmd : string) (id state : ascii) (rest : string) :
  Str.trim cmd = String "!" (String "B" (String id (String state rest))) ->
  let btn := Str.code id - 48 in
  let w' := exec (handle cmd) w in
  let dbg := cpadDebug_events (globals w) (Str.trim cmd) in
  let full := set_lastInputMs (uint32_of (clock w))
                (set_targetPct 100 (globals w)) in
  (state <> "1"%char -> w' = addEvents dbg w) /\
  (state = "1"%char -> btn = BTN_FULL_ID ->
   g_targetPct full = 100 /\
   w' = {| globals := full; clock := clock w;
           events := (events w ++ dbg ++
             logLine_events full (status "CPAD_FULL" full))%list |}) /\
  (state = "1"%char ->
   btn <> BTN_UP_ID -> btn <> BTN_DOWN_ID ->
   btn <> BTN_FULL_ID -> btn <> BTN_STOP_ID ->
   w' = addEvents
          (dbg ++ logLine_events (globals w) "CPAD: unknown button") w).
Proof.
  intros H btn w' dbg full.
  assert (E : w' = exec (handleControlPad ofFloat (Str.trim cmd)) w)
    by (subst w'; now rewrite (handle_controlPad cmd id state rest H)).
  clearbody w'. subst w'. subst dbg.
  split; [|split]; intros Hs; unfold exec, handleControlPad;
    unfold bind at 1; unfold get; cbn [fst snd];
    unfold bind at 1; rewrite run_cpadDebug; cbn [fst snd];
    rewrite H; cbn [Str.charAt String.get]; fold btn; revert Hs.
  - intros Hs.
    destruct (Z.eqb_spec (Str.code state - 48) 1) as [E|E];
      [now apply code_of_one in E|]. reflexivity.
  - intros -> Hb. rewrite Hb.
    change (Str.code "1" - 48 =? 1) with true.
    change (BTN_FULL_ID =? BTN_UP_ID) with false.
    change (BTN_FULL_ID =? BTN_DOWN_ID) with false.
    change (BTN_FULL_ID =? BTN_FULL_ID) with true.
    cbn [negb]. unfold bind. rewrite run_setTargetPercent. cbn [fst snd].
    rewrite run_printStatus. cbn [snd globals clock events addEvents].
    change (uint8_of (clampInt 100 0 100)) with 100. fold full.
    split; [reflexivity|]. unfold addEvents; cbn [globals clock events].
    now rewrite <- app_assoc.
  - intros -> H5 H6 H1 H2.
    change (Str.code "1" - 48 =? 1) with true. cbn [negb].
    destruct (Z.eqb_spec btn BTN_UP_ID); [contradiction|].
    destruct (Z.eqb_spec btn BTN_DOWN_ID); [contradiction|].
    destruct (Z.eqb_spec btn BTN_FULL_ID); [contradiction|].
    destruct (Z.eqb_spec btn BTN_STOP_ID); [contradiction|].
    rewrite run_logLine. cbn [snd globals addEvents].
    now rewrite addEvents_app.
Qed.

(** *** STOP *)

(** C10: in every state, [STOP], its alias [0] and a press of the STOP
    button set [g_targetPct] to 0 and, in the same step, [g_outputPct] to 0
    and send the neutral pulse: neither the ramp time nor the previous
    output enters the result. *)
Theorem STOP_bypasses_ramp (w : World) (cmd : string) :
  EscConfig_ok (g_escCfg (globals w)) ->
  let U := Str.toUpperCase (Str.trim cmd) in
  let w' := exec (handle cmd) w in
  let neutral := EscWrite (usNeutral (g_escCfg (globals w))) in
  let stopped := set_lastInputMs (uint32_of (clock w))
                   (set_outputPct F32.zero (set_targetPct 0 (globals w))) in
  g_targetPct stopped = 0 /\ g_outputPct stopped = F32.zero /\
  (U = "STOP" \/ U = "0" ->
   w' = {| globals := stopped; clock := clock w;
           events := (events w ++
             neutral :: logLine_events stopped (status "STOP" stopped))%list |}) /\
  (forall rest, Str.trim cmd = "!B21" ++ rest ->
   w' = {| globals := stopped; clock := clock w;
           events := (events w ++
             cpadDebug_events (globals w) (Str.trim cmd) ++
             neutral :: logLine_events stopped
                          (status "CPAD_STOP" stopped))%list |}).
Proof.
  intros Hcfg U w' neutral stopped.
  split; [reflexivity|]. split; [reflexivity|]. split.
  - intros HU. subst w'. rewrite (handle_STOP cmd HU).
    unfold exec, bind. rewrite run_stopMotor. cbn [fst snd].
    rewrite run_printStatus. cbn [snd globals events addEvents clock].
    rewrite escClampForwardOnly_neutral by exact Hcfg.
    fold stopped neutral. unfold addEvents; cbn [globals clock events].
    now rewrite <- app_assoc.
  - intros rest H. cbn [append] in H.
    assert (E : w' = exec (handleControlPad ofFloat (Str.trim cmd)) w)
      by (subst w'; now rewrite (handle_controlPad cmd "2" "1" rest H)).
    clearbody w'. subst w'. unfold exec, handleControlPad.
    unfold bind at 1. unfold get. cbn [fst snd].
    unfold bind at 1. rewrite run_cpadDebug. cbn [fst snd].
    rewrite H. cbn [Str.charAt String.get].
    change (Str.code "1" - 48 =? 1) with true.
    change (Str.code "2" - 48 =? BTN_UP_ID) with false.
    change (Str.code "2" - 48 =? BTN_DOWN_ID) with false.
    change (Str.code "2" - 48 =? BTN_FULL_ID) with false.
    change (Str.code "2" - 48 =? BTN_STOP_ID) with true.
    cbn [negb]. unfold bind. rewrite run_stopMotor. cbn [fst snd].
    rewrite run_printStatus. cbn [snd globals events addEvents clock].
    rewrite escClampForwardOnly_neutral by exact Hcfg.
    fold stopped neutral. unfold addEvents; cbn [globals clock events].
    now rewrite <- !app_assoc.
Qed.

(** *** Periodic CSV log *)

Lemma run_logCsvNow (tag : string) (w : World) :
  logCsvNow ofFloat tag w
  = (tt, addEvents
           (logLine_events (globals w)
              (csvText ofFloat (uint32_of (clock w)) tag (globals w))) w).
Proof. unfold logCsvNow, bind, get, millis; cbn [fst snd]. apply run_logLine. Qed.

(** The text of a CSV line is its columns, in the listed order, joined by
    commas. *)
Lemma csvText_columns (t : Z) (tag : string) (s : Globals) :
  csvText ofFloat t tag s
  = String.concat "," (map snd (csvColumns ofFloat t tag s)).
Proof. reflexivity. Qed.

Lemma run_periodicCsvLogging (w : World) :
  g_logEnabled (globals w) = true ->
  let now := uint32_of (clock w) in
  exec (periodicCsvLogging ofFloat) w
  = if logDue (globals w) now
    then {| globals := set_lastLogMs now (globals w);
            clock := clock w;
            events := (events w ++
              logLine_events (globals w)
                (csvText ofFloat now "LOG" (globals w)))%list |}
    else w.
Proof.
  intros H now. unfold exec, periodicCsvLogging, logDue.
  unfold bind at 1. unfold get at 1. cbn [fst snd]. rewrite H.
  cbn [when]. unfold bind, get, millis. cbn [fst snd]. fold now.
  destruct (uint32_of (now - g_lastLogMs (globals w))
            >=? g_logPeriodMs (globals w)); [|reflexivity].
  cbn [when]. rewrite run_logCsvNow. reflexivity.
Qed.

(** C9: in an iteration of [appLoop] that reaches the logging block with
    logging enabled, a CSV line is sent exactly when
    [now - g_lastLogMs >= g_logPeriodMs] (in [uint32_t] arithmetic), and
    then [g_lastLogMs] becomes [now]; otherwise nothing is sent and
    [g_lastLogMs] stays.  The line is the columns
    [t_ms,tag,connected,armed,targetPct,outputPct,pulse_us,rpm_est], in this
    order, joined by commas. *)
Theorem csv_log_is_gated_by_period (w : World) (serial : option string) :
  let w1 := exec (serialCommandInput toFloat ofFloat serial ;;
                  applyThrottleWithRamping) w in
  let w2 := exec (appLoop toFloat ofFloat serial) w in
  let now := uint32_of (clock w1) in
  let columns := csvColumns ofFloat now "LOG" (globals w1) in
  let line := String.concat "," (map snd columns) in
  g_logEnabled (globals w1) = true ->
  map fst columns
    = ["t_ms"; "tag"; "connected"; "armed"; "targetPct"; "outputPct";
       "pulse_us"; "rpm_est"] /\
  events w2
    = (events w1 ++
       if logDue (globals w1) now then logLine_events (globals w1) line
       else [])%list /\
  g_lastLogMs (globals w2)
    = (if logDue (globals w1) now then now else g_lastLogMs (globals w1)) /\
  (0 <= g_lastLogMs (globals w1) <= now ->
   (logDue (globals w1) now = true <->
    now - g_lastLogMs (globals w1) >= g_logPeriodMs (globals w1))).
Proof.
  intros w1 w2 now columns line Hlog.
  assert (E : w2 = exec (delay 5) (exec (periodicCsvLogging ofFloat) w1)).
  { subst w1 w2. unfold appLoop, exec, bind. reflexivity. }
  rewrite E. rewrite (run_periodicCsvLogging w1 Hlog). fold now.
  split; [reflexivity|].
  unfold line, columns. rewrite <- csvText_columns.
  assert (Hiff : 0 <= g_lastLogMs (globals w1) <= now ->
            (logDue (globals w1) now = true <->
             now - g_lastLogMs (globals w1) >= g_logPeriodMs (globals w1))).
  { intros Hlast. unfold logDue.
    assert (Hnow : 0 <= now < 2 ^ 32)
      by (apply Z.mod_pos_bound; reflexivity).
    rewrite uint32_of_small by lia.
    rewrite Z.geb_le. lia. }
  destruct (logDue (globals w1) now) eqn:Hdue;
    cbn [exec delay snd globals events set_lastLogMs g_lastLogMs].
  - split; [reflexivity|]. split; [reflexivity|]. exact Hiff.
  - split; [now rewrite app_nil_r|]. split; [reflexivity|]. exact Hiff.
Qed.

(** *** The two transports *)

Lemma handle_empty (cmd : string) (w : World) :
  (Str.length (Str.trim cmd) =? 0) = true -> handle cmd w = (tt, w).
Proof.
  intros H. unfold handleTextCommand; cbv zeta. now rewrite H.
Qed.

Lemma handle_trim (cmd : string) : handle (Str.trim cmd) = handle cmd.
Proof. unfold handleTextCommand; cbv zeta. now rewrite trim_idem. Qed.

(** C4 (amended): there is no command queue.  A line written to the BLE RX
    characteristic is handled inside the callback: [RxCallbacks::onWrite]
    prints its debug echo and runs [handleTextCommand] on the line at once,
    exactly as the serial block of [appLoop] does with a line read from the
    serial port; without a serial line the loop handles no command at
    all. *)
Theorem ble_write_is_handled_in_callback (w : World) (value : string) :
  exec (RxCallbacks_onWrite toFloat ofFloat value) w
    = exec (handle value) (exec (bleRxDebug value) w) /\
  exec (serialCommandInput toFloat ofFloat (Some value)) w
    = exec (handle value) w /\
  exec (serialCommandInput toFloat ofFloat None) w = w.
Proof.
  unfold exec, RxCallbacks_onWrite, serialCommandInput, bleRxDebug.
  cbv zeta. unfold bind, get. cbn [fst snd].
  destruct (Str.length (Str.trim value) =? 0) eqn:E.
  - rewrite andb_false_r. cbn [when ret snd negb].
    rewrite (handle_empty value w E). cbn [snd].
    apply Z.eqb_eq in E. rewrite E. cbn [Z.gtb Z.compare when ret snd].
    repeat split.
  - rewrite andb_true_r, handle_trim. cbn [negb].
    apply Z.eqb_neq in E.
    assert (Hlen : 0 <= Str.length (Str.trim value))
      by (unfold Str.length; lia).
    destruct (Z.gtb_spec (Str.length (Str.trim value)) 0); [|lia].
    cbn [when]. repeat split.
Qed.

End Properties.

(** C6, as the specification states it, fails: [US] does change control
    state other than the pulse.  In the state reached by a serial [SET 80]
    and one tick the output is still ramping (about 1.67 percent); [US 1600]
    lifts it to the target 80 at once, and the next tick sends the pulse of
    80 percent. *)
Lemma US_changes_outputPct :
  let h := handleTextCommand FloatText.toFloat FloatText.ofFloat in
  let w' := exec (h "US 1600") World_ramping in
  g_outputPct (globals World_ramping) <> g_outputPct (globals w') /\
  g_outputPct (globals w') = F32.of_Z 80 /\
  last (events (exec applyThrottleWithRamping World_ramping))
       BleStartAdvertising = EscWrite 1534 /\
  last (events (exec applyThrottleWithRamping w')) BleStartAdvertising
    = EscWrite 1904.
Proof. vm_compute. split; [discriminate | repeat split]. Qed.

(** C7, as the specification states it, fails for [LOG PERIOD]: the status
    line after the command does not echo the clamped period.  [LOG PERIOD 5]
    and [LOG PERIOD 20000] store 20 and 10000 and print the same text. *)
Lemma LOG_PERIOD_is_not_echoed :
  let h := handleTextCommand FloatText.toFloat FloatText.ofFloat in
  let w1 := exec (h "LOG PERIOD 5") World_ready in
  let w2 := exec (h "LOG PERIOD 20000") World_ready in
  g_logPeriodMs (globals w1) = 20 /\
  g_logPeriodMs (globals w2) = 10000 /\
  events w1 = events w2 /\
  last (events w1) BleStartAdvertising
    = SerialPrintln "STATUS [LOGPER] conn=0 armed=1 targetPct=0 outPct=0.0 pulse_us=1500 rpm_est= 0 ramp_ms=300 log=0".
Proof. vm_compute. repeat split. Qed.

(** C4, as the specification states it, fails: the BLE callback does not
    enqueue the line for the control loop, it applies it.  After the write
    of [SET 80] alone, with no loop iteration, the target is 80 and the
    status line has been printed. *)
Lemma ble_write_changes_control_state :
  let w' := exec (RxCallbacks_onWrite FloatText.toFloat FloatText.ofFloat
                    "SET 80") World_ready in
  g_targetPct (globals World_ready) = 0 /\
  g_targetPct (globals w') = 80 /\
  clock w' = clock World_ready /\
  last (events w') BleStartAdvertising
    = SerialPrintln "STATUS [SET] conn=0 armed=1 targetPct=80 outPct=0.0 pulse_us=1500 rpm_est= 0 ramp_ms=300 log=0".
Proof. vm_compute. repeat split. Qed.

(** ** Invariants of the sketch *)

Section Respects.

Variable G : Globals -> Prop.
Variable E : Event -> Prop.

Lemma respects_ret {A : Type} (a : A) : respects G E (ret a).
Proof.
  intros w H. split; [exact H|]. exists []. split; [|constructor].
  unfold exec, ret; cbn. now rewrite app_nil_r.
Qed.

Lemma respects_get {A : Type} (f : Globals -> A) : respects G E (get f).
Proof. exact (respects_ret tt). Qed.

Lemma respects_millis : respects G E millis.
Proof. exact (respects_ret tt). Qed.

Lemma respects_delay (ms : Z) : respects G E (delay ms).
Proof.
  intros w H. split; [exact H|]. exists []. split; [|constructor].
  unfold exec, delay; cbn. now rewrite app_nil_r.
Qed.

Lemma respects_put (f : Globals -> Globals) :
  (forall s, G s -> G (f s)) -> respects G E (put f).
Proof.
  intros Hf w H. split; [exact (Hf _ H)|]. exists []. split; [|constructor].
  unfold exec, put; cbn. now rewrite app_nil_r.
Qed.

Lemma respects_emit (e : Event) : E e -> respects G E (emit e).
Proof.
  intros He w H. split; [exact H|]. exists [e]. split; [reflexivity|].
  now constructor.
Qed.

Lemma respects_bind {A B : Type} (c : M A) (k : A -> M B) :
  respects G E c -> (forall a, respects G E (k a)) ->
  respects G E (bind c k).
Proof.
  intros Hc Hk w H. unfold exec, bind.
  destruct (Hc w H) as (H1 & l1 & E1 & F1).
  destruct (Hk (fst (c w)) (snd (c w)) H1) as (H2 & l2 & E2 & F2).
  unfold exec in *. split; [exact H2|].
  exists (l1 ++ l2)%list. split.
  - rewrite E2, E1. now rewrite app_assoc.
  - apply Forall_app. now split.
Qed.

Lemma respects_when (b : bool) (c : M unit) :
  respects G E c -> respects G E (when b c).
Proof. intros Hc. destruct b; [exact Hc | apply respects_ret]. Qed.

(** A step whose value depends on the globals it starts from. *)
Lemma respects_get_bind {A B : Type} (f : Globals -> A) (k : A -> M B) :
  (forall w, G (globals w) ->
     G (globals (exec (k (f (globals w))) w)) /\
     exists l, events (exec (k (f (globals w))) w) = (events w ++ l)%list /\
               Forall E l) ->
  respects G E (bind (get f) k).
Proof. intros H w Hw. exact (H w Hw). Qed.

Hypothesis I : Invariant G E.

Ltac respect :=
  repeat match goal with
  | |- respects _ _ (ret _) => apply respects_ret
  | |- respects _ _ (get _) => apply respects_get
  | |- respects _ _ millis => apply respects_millis
  | |- respects _ _ (delay _) => apply respects_delay
  | |- respects _ _ (when _ _) => apply respects_when
  | |- respects _ _ (bind _ _) => apply respects_bind; [|intros ?]
  | |- respects _ _ (if ?b then _ else _) => destruct b
  | |- respects _ _ (emit _) =>
      apply respects_emit; apply (inv_plain _ _ I); reflexivity
  end.

Lemma respects_logLine (line : string) : respects G E (logLine line).
Proof.
  intros w H. unfold exec. rewrite run_logLine. cbn [snd addEvents globals events].
  split; [exact H|]. eexists. split; [reflexivity|].
  unfold logLine_events. constructor.
  - apply (inv_plain _ _ I). reflexivity.
  - destruct (g_deviceConnected (globals w)) eqn:Hc;
      destruct (g_txCharacteristic (globals w)) eqn:Ht; cbn [andb];
      constructor; [|constructor].
    exact (inv_notify _ _ I _ line H Hc Ht).
Qed.

Lemma respects_escWriteMicrosecondsSafe (us : Z) :
  respects G E (escWriteMicrosecondsSafe us).
Proof.
  intros w H. unfold exec. rewrite run_escWriteMicrosecondsSafe.
  cbn [snd addEvents globals events].
  split; [exact H|]. eexists. split; [reflexivity|].
  constructor; [|constructor]. exact (inv_pulse _ _ I _ us H).
Qed.

Lemma clamped_percent (pct : Z) : 0 <= uint8_of (clampInt pct 0 100) <= 100.
Proof.
  rewrite uint8_of_clampInt by lia. apply clampInt_range. lia.
Qed.

Lemma respects_setTargetPercent (pct : Z) :
  respects G E (setTargetPercent pct).
Proof.
  unfold setTargetPercent. respect.
  - apply respects_put. intros s H.
    apply (inv_targetPct _ _ I); [exact H | apply clamped_percent].
  - apply respects_put. intros s H. now apply (inv_lastInputMs _ _ I).
Qed.

Lemma respects_stopMotor : respects G E stopMotor.
Proof.
  unfold stopMotor. respect.
  - apply respects_put. intros s H. apply (inv_targetPct _ _ I); [exact H | lia].
  - apply respects_put. intros s H. now apply (inv_outputPct_zero _ _ I).
  - apply respects_escWriteMicrosecondsSafe.
  - apply respects_put. intros s H. now apply (inv_lastInputMs _ _ I).
Qed.

Lemma respects_holdNeutral (fuel : nat) (t0 msHold : Z) :
  respects G E (holdNeutral fuel t0 msHold).
Proof.
  induction fuel as [|fuel IH]; cbn [holdNeutral]; respect. exact IH.
Qed.

Lemma respects_escArmNeutral (msHold : Z) :
  respects G E (escArmNeutral msHold).
Proof.
  unfold escArmNeutral. respect.
  - apply respects_escWriteMicrosecondsSafe.
  - apply respects_holdNeutral.
  - apply respects_put. intros s H. now apply (inv_armed _ _ I).
Qed.

Lemma respects_applyThrottleWithRamping :
  respects G E applyThrottleWithRamping.
Proof.
  intros w H. destruct (g_armed (globals w)) eqn:Ha.
  - unfold exec. rewrite (run_applyThrottleWithRamping_armed w Ha).
    cbn [snd globals events]. split.
    + apply (inv_outputPct_ramp _ _ I (set_lastLoopMs _ (globals w))).
      * now apply (inv_lastLoopMs _ _ I).
      * exact Ha.
      * destruct (g_lastLoopMs (globals w) =? 0); [lia|].
        unfold uint32_of. apply Z.mod_pos_bound. lia.
    + eexists. split; [reflexivity|]. constructor; [|constructor].
      exact (inv_pulse _ _ I _ _ H).
  - unfold exec. rewrite (run_applyThrottleWithRamping_unarmed w Ha).
    cbn [snd globals events]. split.
    + apply (inv_outputPct_zero _ _ I). now apply (inv_lastLoopMs _ _ I).
    + eexists. split; [reflexivity|]. constructor; [|constructor].
      exact (inv_pulse _ _ I _ _ H).
Qed.

Variable toFloat : string -> F32.float.
Variable ofFloat : F32.float -> Z -> string.

Lemma respects_printStatus (reason : string) :
  respects G E (printStatus ofFloat reason).
Proof. unfold printStatus. respect. apply respects_logLine. Qed.

Lemma respects_logCsvNow (tag : string) : respects G E (logCsvNow ofFloat tag).
Proof. unfold logCsvNow. respect. apply respects_logLine. Qed.

Ltac respect_calls :=
  repeat match goal with
  | |- respects _ _ (ret _) => apply respects_ret
  | |- respects _ _ (get _) => apply respects_get
  | |- respects _ _ (when _ _) => apply respects_when
  | |- respects _ _ (bind (get g_targetPct) (fun t => bind (put (set_outputPct (F32.of_Z t))) _)) => fail 1
  | |- respects _ _ (bind _ _) => apply respects_bind; [|intros ?]
  | |- respects _ _ (if ?b then _ else _) => destruct b
  | |- respects _ _ (emit _) =>
      apply respects_emit; apply (inv_plain _ _ I); reflexivity
  | |- respects _ _ (logLine _) => apply respects_logLine
  | |- respects _ _ (printStatus _ _) => apply respects_printStatus
  | |- respects _ _ (setTargetPercent _) => apply respects_setTargetPercent
  | |- respects _ _ stopMotor => apply respects_stopMotor
  | |- respects _ _ (escArmNeutral _) => apply respects_escArmNeutral
  | |- respects _ _ (escWriteMicrosecondsSafe _) =>
      apply respects_escWriteMicrosecondsSafe
  | |- respects _ _ (put (set_debugEnabled _)) =>
      apply respects_put; intros ? ?; now apply (inv_debugEnabled _ _ I)
  | |- respects _ _ (put (set_logEnabled _)) =>
      apply respects_put; intros ? ?; now apply (inv_logEnabled _ _ I)
  end.

Lemma respects_handleControlPad (cmd : string) :
  respects G E (handleControlPad ofFloat cmd).
Proof. unfold handleControlPad. cbv zeta. respect_calls. Qed.

(** [US] copies the target into the output. *)
Lemma respects_syncOutput (k : M unit) :
  respects G E k ->
  respects G E (t <- get g_targetPct ;; put (set_outputPct (F32.of_Z t)) ;; k).
Proof.
  intros Hk w H.
  set (w1 := {| globals := set_outputPct (F32.of_Z (g_targetPct (globals w)))
                             (globals w);
                clock := clock w; events := events w |}).
  assert (H1 : G (globals w1)) by now apply (inv_outputPct_target _ _ I).
  exact (Hk w1 H1).
Qed.

Lemma respects_handleTextCommand (cmd : string) :
  respects G E (handleTextCommand toFloat ofFloat cmd).
Proof.
  unfold handleTextCommand, printHelp. cbv zeta.
  destruct (Str.length (Str.trim cmd) =? 0); [apply respects_ret|].
  destruct (Str.startsWith (Str.trim cmd) "!B" && (Str.length (Str.trim cmd) >=? 4));
    [apply respects_handleControlPad|].
  respect_calls.
  - (* US *) apply respects_syncOutput. apply respects_printStatus.
  - (* RAMP *)
    apply respects_put. intros s H. apply (inv_rampTimeMs _ _ I); [exact H|].
    rewrite uint32_of_clampInt by lia. apply clampInt_range. lia.
  - (* LOG PERIOD *)
    apply respects_put. intros s H. apply (inv_logPeriodMs _ _ I); [exact H|].
    rewrite uint32_of_clampInt by lia. apply clampInt_range. lia.
Qed.

Lemma respects_RxCallbacks_onWrite (value : string) :
  respects G E (RxCallbacks_onWrite toFloat ofFloat value).
Proof.
  unfold RxCallbacks_onWrite. cbv zeta. respect_calls.
  apply respects_handleTextCommand.
Qed.

Lemma respects_appLoop (serial : option string) :
  respects G E (appLoop toFloat ofFloat serial).
Proof.
  unfold appLoop, serialCommandInput, periodicCsvLogging.
  apply respects_bind; [|intros ?].
  { destruct serial as [line|]; [|apply respects_ret].
    cbv zeta. apply respects_when. apply respects_handleTextCommand. }
  apply respects_bind; [apply respects_applyThrottleWithRamping|intros ?].
  apply respects_bind; [|intros ?; apply respects_delay].
  apply respects_bind; [apply respects_get|intros ?].
  apply respects_when.
  apply respects_bind; [apply respects_millis|intros ?].
  apply respects_bind; [apply respects_get|intros ?].
  apply respects_bind; [apply respects_get|intros ?].
  apply respects_when.
  apply respects_bind; [apply respects_logCsvNow|intros ?].
  apply respects_put. intros s H. now apply (inv_lastLogMs _ _ I).
Qed.

(** The two callbacks of the server assign [g_deviceConnected]. *)
Lemma respects_onConnect :
  (forall s, G s -> G (set_deviceConnected true s)) ->
  respects G E (MyServerCallbacks_onConnect ofFloat).
Proof.
  intros Hc. unfold MyServerCallbacks_onConnect.
  apply respects_bind; [now apply respects_put|intros ?]. respect_calls.
Qed.

Lemma respects_onDisconnect :
  (forall s, G s -> G (set_deviceConnected false s)) ->
  respects G E (MyServerCallbacks_onDisconnect ofFloat).
Proof.
  intros Hc. unfold MyServerCallbacks_onDisconnect.
  apply respects_bind; [now apply respects_put|intros ?]. respect_calls.
Qed.

Lemma respects_appSetup :
  (forall s, G s -> G (set_txCharacteristic true s)) ->
  respects G E (appSetup ofFloat).
Proof.
  intros Ht. unfold appSetup, printHelp.
  apply respects_bind; [apply respects_delay|intros ?].
  do 5 (apply respects_bind; [respect_calls|intros ?]).
  apply respects_bind; [apply respects_delay|intros ?].
  apply respects_bind; [now apply respects_put|intros ?].
  respect_calls.
Qed.

Lemma respects_react (st : Stimulus) :
  (forall b s, G s -> G (set_deviceConnected b s)) ->
  respects G E (react toFloat ofFloat st).
Proof.
  intros Hc. destruct st as [serial| | |value]; cbn [react].
  - apply respects_appLoop.
  - apply respects_onConnect. apply Hc.
  - apply respects_onDisconnect. apply Hc.
  - apply respects_RxCallbacks_onWrite.
Qed.

Lemma respects_run (l : list Stimulus) :
  (forall b s, G s -> G (set_deviceConnected b s)) ->
  respects G E (run toFloat ofFloat l).
Proof.
  intros Hc. induction l as [|st l IH]; cbn [run]; [apply respects_ret|].
  apply respects_bind; [now apply respects_react | intros _; exact IH].
Qed.

(** Without a new connection only [onDisconnect] assigns
    [g_deviceConnected]. *)
Lemma respects_run_disconnected (l : list Stimulus) :
  (forall s, G s -> G (set_deviceConnected false s)) ->
  ~ In BleConnect l ->
  respects G E (run toFloat ofFloat l).
Proof.
  intros Hc. induction l as [|st l IH]; intros Hl; cbn [run];
    [apply respects_ret|].
  apply respects_bind; [|intros _; apply IH; intros H; apply Hl; now right].
  destruct st as [serial| | |value]; cbn [react].
  - apply respects_appLoop.
  - exfalso. apply Hl. now left.
  - now apply respects_onDisconnect.
  - apply respects_RxCallbacks_onWrite.
Qed.

End Respects.

(** *** The ranges of the control state *)

Lemma rampStep_in_range (rampTimeMs dt targetPct : Z) (outputPct : F32.float) :
  0 <= targetPct <= 100 -> 0 <= rampTimeMs < 2 ^ 32 -> 0 <= dt < 2 ^ 32 ->
  OutputPct_ok outputPct ->
  OutputPct_ok
    (clampFloat (rampStep rampTimeMs dt targetPct outputPct)
       F32.zero F32.hundred).
Proof.
  intros Ht Hr Hd Ho.
  destruct (OutputPct_ok_of_Z targetPct Ht) as [Ok Vt].
  rewrite rampStep_eq.
  destruct (Z.eqb_spec rampTimeMs 0) as [R0|R0]; cbn [orb];
    [now rewrite clampFloat_id|].
  destruct (Z.eqb_spec dt 0) as [D0|D0]; [now rewrite clampFloat_id|].
  assert (Nm : F32.nonneg (maxDeltaOf dt rampTimeMs))
    by (apply F32Facts.maxDeltaOf_nonneg; lia).
  assert (Nmi : F32.nonneg_inf (maxDeltaOf dt rampTimeMs)).
  { revert Nm. destruct (maxDeltaOf dt rampTimeMs) as [?|[|]| |[|] ? ?];
      cbn; tauto. }
  destruct Ok as [Nt Bt]. destruct Ho as [No Bo].
  destruct (F32Facts.rampCore_spec (F32.of_Z targetPct) outputPct _ Nt No Nmi)
    as (N' & Btw & _).
  assert (Ok' : OutputPct_ok
                  (rampCore (F32.of_Z targetPct) outputPct
                     (maxDeltaOf dt rampTimeMs)))
    by (split; [exact N' | lia]).
  now rewrite clampFloat_id.
Qed.

Lemma State_ok_invariant : Invariant State_ok (fun _ => True).
Proof.
  constructor; try (intros; exact I);
    try (intros s v (H1 & H2 & H3 & H4); unfold State_ok; cbn; tauto);
    try (intros s (H1 & H2 & H3 & H4); unfold State_ok; cbn; tauto).
  - (* the output after [stopMotor] and an unarmed tick *)
    intros s (H1 & H2 & H3 & H4). unfold State_ok; cbn.
    split; [exact H1|]. split; [|tauto].
    change F32.zero with (F32.of_Z 0). apply OutputPct_ok_of_Z. lia.
  - (* the output after [US] *)
    intros s (H1 & H2 & H3 & H4). unfold State_ok; cbn.
    split; [exact H1|]. split; [|tauto]. now apply OutputPct_ok_of_Z.
  - (* the output after an armed tick *)
    intros s dt (H1 & H2 & H3 & H4) _ Hdt. unfold State_ok; cbn.
    split; [exact H1|]. split; [|tauto].
    apply rampStep_in_range; [exact H1 | lia | exact Hdt | exact H2].
Qed.

(** *** The pulses *)

Lemma escClampForwardOnly_safe (cfg : EscConfig) (us : Z) :
  EscConfig_ok cfg -> PulseSafe cfg (escClampForwardOnly cfg us).
Proof.
  intros (H0 & H1 & H2 & H3 & H4 & H5 & H6). unfold PulseSafe.
  rewrite escClampForwardOnly_cases. cbv zeta.
  pose proof (clampInt_range us (usMin cfg) (usMax cfg) ltac:(lia)).
  destruct (Z.ltb_spec (clampInt us (usMin cfg) (usMax cfg)) (usMinFwd cfg));
    destruct (Z.gtb_spec (usNeutral cfg) (usMaxFwd cfg));
    destruct (Z.gtb_spec (clampInt us (usMin cfg) (usMax cfg)) (usMaxFwd cfg));
    lia.
Qed.

Lemma safeOutput_invariant (cfg : EscConfig) :
  EscConfig_ok cfg ->
  Invariant (fun s => g_escCfg s = cfg) (safeOutput cfg).
Proof.
  intros Hcfg.
  constructor; try (intros; assumption).
  - intros [] H; try exact I; discriminate H.
  - intros s us <-. now apply escClampForwardOnly_safe.
  - intros; exact I.
Qed.

Lemma Forall_safeOutput (cfg : EscConfig) (l : list Event) :
  Forall (safeOutput cfg) l -> Forall (PulseSafe cfg) (pulses l).
Proof.
  induction 1 as [|e l He _ IH]; [constructor|].
  destruct e; cbn; try exact IH. now constructor.
Qed.

(** *** Notifications *)

Lemma silent_invariant :
  Invariant (fun s => g_deviceConnected s = false) silent.
Proof.
  constructor; try (intros; assumption).
  - intros [] H; try exact I; discriminate H.
  - intros; exact I.
  - intros s line H1 H2. congruence.
Qed.

Lemma Forall_silent (l : list Event) : Forall silent l -> notifications l = [].
Proof.
  induction 1 as [|e l He _ IH]; [reflexivity|].
  destruct e; cbn; try exact IH. contradiction.
Qed.

(** *** Arming and the configuration *)

Lemma armed_invariant :
  Invariant (fun s => g_armed s = true) (fun _ => True).
Proof. constructor; intros; first [exact I | assumption | reflexivity]. Qed.

Lemma config_invariant (cfg : EscConfig) (batt : F32.float) :
  Invariant (fun s => g_escCfg s = cfg /\ g_battVoltage_V s = batt)
    (fun _ => True).
Proof. constructor; intros; first [exact I | assumption]. Qed.

Section Reachable.

Variable toFloat : string -> F32.float.
Variable ofFloat : F32.float -> Z -> string.

(** X1: whatever happens after power-up, the control state stays in its
    ranges.  From a state with [g_targetPct] in 0..100, [g_outputPct] a
    number in [[0, 100]], [g_rampTimeMs] in 0..10000 and [g_logPeriodMs] in
    20..10000 (the initialisers are such a state), [setup] and every
    sequence of loop iterations, with any serial lines, and of BLE callbacks,
    with any text written, end in such a state. *)
Theorem control_state_stays_in_range (w : World) (l : list Stimulus) :
  State_ok (globals w) ->
  State_ok (globals (exec (run toFloat ofFloat l) w)) /\
  State_ok (globals (exec (setup ofFloat ;; run toFloat ofFloat l) w)).
Proof.
  intros H. split.
  - apply (respects_run _ _ State_ok_invariant toFloat ofFloat l); [|exact H].
    intros b s Hs. exact Hs.
  - apply (respects_bind State_ok (fun _ => True)); [| |exact H].
    + apply (respects_appSetup _ _ State_ok_invariant). intros s Hs. exact Hs.
    + intros _. apply (respects_run _ _ State_ok_invariant).
      intros b s Hs. exact Hs.
Qed.

(** X2: no pulse ever bypasses the forward-only policy.  With a pulse
    configuration as in [EscConfig_ok], every pulse width written to the ESC
    by [setup], by the loop iterations and by the BLE callbacks, whatever
    the lines received, is the neutral width or lies in the forward band. *)
Theorem every_pulse_is_neutral_or_forward (w : World) (l : list Stimulus) :
  EscConfig_ok (g_escCfg (globals w)) ->
  (exists out,
     events (exec (run toFloat ofFloat l) w) = (events w ++ out)%list /\
     Forall (PulseSafe (g_escCfg (globals w))) (pulses out)) /\
  (exists out,
     events (exec (setup ofFloat ;; run toFloat ofFloat l) w)
     = (events w ++ out)%list /\
     Forall (PulseSafe (g_escCfg (globals w))) (pulses out)).
Proof.
  intros Hcfg.
  pose proof (safeOutput_invariant _ Hcfg) as Inv.
  pose proof (respects_run _ _ Inv toFloat ofFloat l (fun b s Hs => Hs))
    as Hrun.
  split.
  - destruct (Hrun w eq_refl) as (_ & out & Eo & Fo).
    exists out. split; [exact Eo|]. now apply Forall_safeOutput.
  - destruct (respects_bind _ _ (setup ofFloat)
                (fun _ => run toFloat ofFloat l)
                (respects_appSetup _ _ Inv ofFloat (fun s Hs => Hs))
                (fun _ => Hrun) w eq_refl) as (_ & out & Eo & Fo).
    exists out. split; [exact Eo|]. now apply Forall_safeOutput.
Qed.

(** X3: there is no way back from armed.  Once [g_armed] is set, no command
    on either transport, no Control Pad packet, no connection event and no
    tick clears it. *)
Theorem armed_is_never_revoked (w : World) (l : list Stimulus) :
  g_armed (globals w) = true ->
  g_armed (globals (exec (run toFloat ofFloat l) w)) = true.
Proof.
  intros H.
  apply (respects_run _ _ armed_invariant toFloat ofFloat l); [|exact H].
  intros b s Hs. exact Hs.
Qed.

(** X4: the pulse configuration and the battery voltage are constants of a
    run: neither [setup] nor any sequence of loop iterations and BLE
    callbacks assigns [g_escCfg] or [g_battVoltage_V]. *)
Theorem configuration_is_never_changed (w : World) (l : list Stimulus) :
  let w1 := exec (run toFloat ofFloat l) w in
  let w2 := exec (setup ofFloat ;; run toFloat ofFloat l) w in
  g_escCfg (globals w1) = g_escCfg (globals w) /\
  g_battVoltage_V (globals w1) = g_battVoltage_V (globals w) /\
  g_escCfg (globals w2) = g_escCfg (globals w) /\
  g_battVoltage_V (globals w2) = g_battVoltage_V (globals w).
Proof.
  intros w1 w2.
  pose proof (config_invariant (g_escCfg (globals w))
                (g_battVoltage_V (globals w))) as Inv.
  pose proof (respects_run _ _ Inv toFloat ofFloat l
                (fun b s Hs => Hs)) as Hrun.
  destruct (Hrun w (conj eq_refl eq_refl)) as ((H1 & H2) & _).
  destruct (respects_bind _ _ (setup ofFloat)
              (fun _ => run toFloat ofFloat l)
              (respects_appSetup _ _ Inv ofFloat (fun s Hs => Hs))
              (fun _ => Hrun) w (conj eq_refl eq_refl)) as ((H3 & H4) & _).
  repeat split; assumption.
Qed.

(** X5: nothing is notified to a central that is not there.  While
    [g_deviceConnected] is false and no connection comes in, the loop
    iterations, the lines they handle, writes to the RX characteristic and
    [onDisconnect] send no BLE notification, and [g_deviceConnected] stays
    false. *)
Theorem nothing_is_notified_while_disconnected
  (w : World) (l : list Stimulus) :
  g_deviceConnected (globals w) = false ->
  ~ In BleConnect l ->
  g_deviceConnected (globals (exec (run toFloat ofFloat l) w)) = false /\
  exists out,
    events (exec (run toFloat ofFloat l) w) = (events w ++ out)%list /\
    notifications out = [].
Proof.
  intros H Hl.
  destruct (respects_run_disconnected _ _ silent_invariant toFloat ofFloat l
              (fun s _ => eq_refl) Hl w H) as (H1 & out & Eo & Fo).
  split; [exact H1|]. exists out. split; [exact Eo|].
  now apply Forall_silent.
Qed.

End Reachable.

(** *** Upper case *)

Lemma code_range (c : ascii) : 0 <= Str.code c < 256.
Proof. unfold Str.code. pose proof (nat_ascii_bounded c). lia. Qed.

Lemma code_inj (a b : ascii) : Str.code a = Str.code b -> a = b.
Proof.
  unfold Str.code. intros H. apply Nat2Z.inj in H.
  rewrite <- (ascii_nat_embedding a), <- (ascii_nat_embedding b).
  now rewrite H.
Qed.

Lemma code_toupper (c : ascii) :
  Str.code (Str.toupper c)
  = if (97 <=? Str.code c) && (Str.code c <=? 122) then Str.code c - 32
    else Str.code c.
Proof.
  unfold Str.toupper.
  destruct ((97 <=? Str.code c) && (Str.code c <=? 122)) eqn:E; [|reflexivity].
  apply andb_prop in E as [E1 E2].
  apply Z.leb_le in E1. apply Z.leb_le in E2.
  unfold Str.code in *. pose proof (nat_ascii_bounded c).
  rewrite nat_ascii_embedding by lia. lia.
Qed.

Lemma isspace_toupper (c : ascii) :
  Str.isspace (Str.toupper c) = Str.isspace c.
Proof.
  unfold Str.isspace. rewrite code_toupper.
  destruct (Z.leb_spec 97 (Str.code c)); destruct (Z.leb_spec (Str.code c) 122);
    cbn [andb]; try reflexivity.
  destruct (Z.eqb_spec (Str.code c - 32) 32); destruct (Z.eqb_spec (Str.code c) 32);
    destruct (Z.leb_spec 9 (Str.code c - 32));
    destruct (Z.leb_spec (Str.code c - 32) 13);
    destruct (Z.leb_spec 9 (Str.code c));
    destruct (Z.leb_spec (Str.code c) 13); cbn; lia || reflexivity.
Qed.

Lemma isdigit_toupper (c : ascii) :
  Str.isdigit (Str.toupper c) = Str.isdigit c.
Proof.
  unfold Str.isdigit. rewrite code_toupper.
  destruct (Z.leb_spec 97 (Str.code c)); destruct (Z.leb_spec (Str.code c) 122);
    cbn [andb]; try reflexivity.
  destruct (Z.leb_spec 48 (Str.code c - 32));
    destruct (Z.leb_spec (Str.code c - 32) 57);
    destruct (Z.leb_spec 48 (Str.code c));
    destruct (Z.leb_spec (Str.code c) 57); cbn; lia || reflexivity.
Qed.

(** [toupper] only moves the lower-case letters. *)
Lemma toupper_other (c : ascii) :
  Str.code c < 97 \/ 122 < Str.code c -> Str.toupper c = c.
Proof.
  intros H. unfold Str.toupper.
  destruct (Z.leb_spec 97 (Str.code c)); destruct (Z.leb_spec (Str.code c) 122);
    cbn [andb]; reflexivity || lia.
Qed.

Lemma toupper_idem (c : ascii) : Str.toupper (Str.toupper c) = Str.toupper c.
Proof.
  apply toupper_other. rewrite code_toupper.
  destruct (Z.leb_spec 97 (Str.code c)); destruct (Z.leb_spec (Str.code c) 122);
    cbn [andb]; lia.
Qed.

Lemma toUpperCase_idem (s : string) :
  Str.toUpperCase (Str.toUpperCase s) = Str.toUpperCase s.
Proof.
  induction s as [|c r IH]; [reflexivity|]. cbn [Str.toUpperCase].
  now rewrite toupper_idem, IH.
Qed.

Lemma ltrim_toUpperCase (s : string) :
  Str.ltrim (Str.toUpperCase s) = Str.toUpperCase (Str.ltrim s).
Proof.
  induction s as [|c r IH]; [reflexivity|].
  cbn [Str.toUpperCase Str.ltrim]. rewrite isspace_toupper.
  destruct (Str.isspace c); [exact IH | reflexivity].
Qed.

Lemma rtrim_toUpperCase (s : string) :
  Str.rtrim (Str.toUpperCase s) = Str.toUpperCase (Str.rtrim s).
Proof.
  induction s as [|c r IH]; [reflexivity|].
  cbn [Str.toUpperCase Str.rtrim]. rewrite IH, isspace_toupper.
  destruct (Str.rtrim r); cbn [Str.toUpperCase];
    [destruct (Str.isspace c)|]; reflexivity.
Qed.

Lemma trim_toUpperCase (s : string) :
  Str.trim (Str.toUpperCase s) = Str.toUpperCase (Str.trim s).
Proof. unfold Str.trim. now rewrite ltrim_toUpperCase, rtrim_toUpperCase. Qed.

Lemma substring_toUpperCase (n : nat) (s : string) :
  Str.substring n (Str.toUpperCase s) = Str.toUpperCase (Str.substring n s).
Proof.
  revert s. induction n as [|n IH]; intros [|c r]; try reflexivity.
  cbn [Str.toUpperCase Str.substring]. apply IH.
Qed.

Lemma length_toUpperCase (s : string) :
  Str.length (Str.toUpperCase s) = Str.length s.
Proof.
  unfold Str.length. f_equal.
  induction s as [|c r IH]; cbn; [reflexivity | now rewrite IH].
Qed.

(** *** [toInt] *)

Lemma digits_toUpperCase (acc : Z) (s : string) :
  Str.digits acc (Str.toUpperCase s) = Str.digits acc s.
Proof.
  revert acc. induction s as [|c r IH]; intros acc; [reflexivity|].
  cbn [Str.toUpperCase Str.digits]. rewrite isdigit_toupper.
  destruct (Str.isdigit c) eqn:Hd; [|reflexivity].
  rewrite toupper_other; [apply IH|].
  unfold Str.isdigit in Hd. apply andb_prop in Hd as [_ Hd].
  apply Z.leb_le in Hd. lia.
Qed.

(** The sign test of [toInt], by comparison. *)
Lemma toInt_eq (s : string) :
  Str.toInt s
  = match Str.ltrim s with
    | String c r =>
        if Ascii.eqb c "-" then Str.saturate (- Str.digits 0 r)
        else if Ascii.eqb c "+" then Str.saturate (Str.digits 0 r)
        else Str.saturate (Str.digits 0 (String c r))
    | EmptyString => Str.saturate 0
    end.
Proof.
  unfold Str.toInt. destruct (Str.ltrim s) as [|c r]; [reflexivity|].
  destruct c as [[|] [|] [|] [|] [|] [|] [|] [|]]; reflexivity.
Qed.

Lemma toInt_toUpperCase (s : string) :
  Str.toInt (Str.toUpperCase s) = Str.toInt s.
Proof.
  rewrite !toInt_eq, ltrim_toUpperCase.
  destruct (Str.ltrim s) as [|c r]; [reflexivity|].
  cbn [Str.toUpperCase].
  destruct (Z.leb_spec 97 (Str.code c)) as [H1|H1];
    [destruct (Z.leb_spec (Str.code c) 122) as [H2|H2]|].
  - (* a lower-case letter: no sign and no digit, before and after *)
    assert (Hu : Str.code (Str.toupper c) = Str.code c - 32).
    { rewrite code_toupper.
      destruct (Z.leb_spec 97 (Str.code c)); destruct (Z.leb_spec (Str.code c) 122);
        cbn [andb]; lia. }
    assert (N : forall a x, 97 <= Str.code a \/ 65 <= Str.code a <= 90 ->
                Str.code x < 65 -> Ascii.eqb a x = false).
    { intros a x Ha Hx. destruct (Ascii.eqb_spec a x) as [->|]; [lia|reflexivity]. }
    rewrite (N (Str.toupper c) "-"%char), (N (Str.toupper c) "+"%char),
      (N c "-"%char), (N c "+"%char);
      try reflexivity; try (left; exact H1); try (right; lia).
    cbn [Str.digits]. rewrite isdigit_toupper.
    assert (Hd : Str.isdigit c = false).
    { unfold Str.isdigit. destruct (Z.leb_spec (Str.code c) 57); [lia|].
      now rewrite andb_false_r. }
    now rewrite Hd.
  - rewrite toupper_other by lia.
    cbn [Str.digits]. now rewrite !digits_toUpperCase.
  - rewrite toupper_other by lia.
    cbn [Str.digits]. now rewrite !digits_toUpperCase.
Qed.

(** *** Decimal text *)

Lemma digits_of_uint_acc (d : Decimal.uint) (acc : positive) :
  Str.digits (Zpos acc) (NilEmpty.string_of_uint d)
  = Zpos (Pos.of_uint_acc d acc).
Proof.
  revert acc.
  induction d as [|d IH|d IH|d IH|d IH|d IH|d IH|d IH|d IH|d IH|d IH];
    intros acc; [reflexivity|..];
    cbn [NilEmpty.string_of_uint Str.digits Pos.of_uint_acc];
    match goal with
    | |- context [Str.isdigit ?c] => change (Str.isdigit c) with true
    end; cbv iota;
    match goal with
    | |- context [Str.code ?c - 48] =>
        let v := eval vm_compute in (Str.code c - 48) in
        change (Str.code c - 48) with v
    end;
    rewrite <- IH; f_equal; lia.
Qed.

Lemma digits_of_uint (d : Decimal.uint) :
  Str.digits 0 (NilEmpty.string_of_uint d) = Z.of_N (Pos.of_uint d).
Proof.
  induction d as [|d IH|d IH|d IH|d IH|d IH|d IH|d IH|d IH|d IH|d IH];
    [reflexivity|exact IH|..];
    cbn [NilEmpty.string_of_uint Str.digits Pos.of_uint];
    match goal with
    | |- context [Str.isdigit ?c] => change (Str.isdigit c) with true
    end; cbv iota;
    match goal with
    | |- context [Str.code ?c - 48] =>
        let v := eval vm_compute in (Str.code c - 48) in
        change (Str.code c - 48) with v
    end;
    cbn [Z.mul Z.add Z.of_N]; apply digits_of_uint_acc.
Qed.

(** The decimal text of a positive number: digits only, the first of them
    not a blank and not a sign. *)
Lemma string_of_uint_head (d : Decimal.uint) :
  d <> Decimal.Nil ->
  exists c r, NilEmpty.string_of_uint d = String c r /\
              Str.isspace c = false /\ Ascii.eqb c "-" = false /\
              Ascii.eqb c "+" = false.
Proof.
  destruct d; [congruence|..]; intros _; eexists; eexists;
    (split; [reflexivity|]); repeat split.
Qed.

Lemma blank_free_of_uint (d : Decimal.uint) :
  forall c, In c (list_ascii_of_string (NilEmpty.string_of_uint d)) ->
            Str.isspace c = false.
Proof.
  induction d as [|d IH|d IH|d IH|d IH|d IH|d IH|d IH|d IH|d IH|d IH];
    cbn [NilEmpty.string_of_uint list_ascii_of_string In]; [tauto|..];
    intros c [<-|H]; try reflexivity; now apply IH.
Qed.

Lemma string_of_uint_nonnil (d : Decimal.uint) :
  d <> Decimal.Nil -> NilZero.string_of_uint d = NilEmpty.string_of_uint d.
Proof. destruct d; [congruence | reflexivity..]. Qed.

(** [toInt] reads back what [String(int)] writes. *)
Lemma toInt_ofInt (n : Z) :
  LONG_MIN <= n <= LONG_MAX -> Str.toInt (Str.ofInt n) = n.
Proof.
  intros Hn. unfold Str.ofInt.
  assert (S : Str.saturate n = n) by (unfold Str.saturate; lia).
  destruct n as [|p|p]; [reflexivity|..]; cbn [Z.to_int NilZero.string_of_int];
    pose proof (DecimalPos.Unsigned.to_uint_nonnil p) as Hnil;
    rewrite (string_of_uint_nonnil _ Hnil).
  - destruct (string_of_uint_head (Pos.to_uint p) Hnil)
      as (c & r & Es & H1 & H2 & H3).
    rewrite toInt_eq, Es. cbn [Str.ltrim]. rewrite H1, H2, H3, <- Es.
    rewrite digits_of_uint, DecimalPos.Unsigned.of_to. exact S.
  - rewrite toInt_eq. cbn [Str.ltrim].
    change (Str.isspace "-") with false. cbv iota.
    change (Ascii.eqb "-" "-") with true. cbv iota.
    rewrite digits_of_uint, DecimalPos.Unsigned.of_to. exact S.
Qed.

(** ** More on strings *)

Lemma ltrim_blank (s : string) : blank s = true -> Str.ltrim s = "".
Proof.
  induction s as [|c r IH]; [reflexivity|]. cbn [blank Str.ltrim].
  intros H. apply andb_prop in H as [Hc Hr]. rewrite Hc. now apply IH.
Qed.

Lemma trim_blank (s : string) : blank s = true -> Str.trim s = "".
Proof. intros H. unfold Str.trim. now rewrite ltrim_blank. Qed.

Lemma rtrim_empty (s : string) : Str.rtrim s = "" -> blank s = true.
Proof.
  induction s as [|c r IH]; [reflexivity|]. cbn [blank Str.rtrim].
  destruct (Str.rtrim r) as [|d r'] eqn:Er; [|discriminate].
  destruct (Str.isspace c); [|discriminate]. intros _. now apply IH.
Qed.

Lemma blank_ltrim (s : string) : blank (Str.ltrim s) = blank s.
Proof.
  induction s as [|c r IH]; [reflexivity|]. cbn [blank Str.ltrim].
  destruct (Str.isspace c) eqn:Hc; [exact IH|]. cbn [blank]. now rewrite Hc.
Qed.

(** [trim] returns the empty line exactly for the lines of whitespace. *)
Lemma trim_empty_iff (s : string) : Str.trim s = "" <-> blank s = true.
Proof.
  split; [|apply trim_blank]. unfold Str.trim. intros H.
  apply rtrim_empty in H. now rewrite blank_ltrim in H.
Qed.

Lemma length_zero_iff (s : string) : (Str.length s =? 0) = true <-> s = "".
Proof.
  unfold Str.length. destruct s as [|c r]; cbn [String.length].
  - now split.
  - split; [|discriminate]. intros H. apply Z.eqb_eq in H. lia.
Qed.

(** *** What a command sends out *)

Lemma pulses_app (l1 l2 : list Event) :
  pulses (l1 ++ l2) = (pulses l1 ++ pulses l2)%list.
Proof. apply flat_map_app. Qed.

Lemma serialLines_app (l1 l2 : list Event) :
  serialLines (l1 ++ l2) = (serialLines l1 ++ serialLines l2)%list.
Proof. apply flat_map_app. Qed.

Lemma notifications_app (l1 l2 : list Event) :
  notifications (l1 ++ l2) = (notifications l1 ++ notifications l2)%list.
Proof. apply flat_map_app. Qed.

Lemma pulses_logLine (s : Globals) (line : string) :
  pulses (logLine_events s line) = [].
Proof.
  unfold logLine_events.
  now destruct (g_deviceConnected s && g_txCharacteristic s).
Qed.

Lemma pulses_cpadDebug (s : Globals) (cmd : string) :
  pulses (cpadDebug_events s cmd) = [].
Proof. unfold cpadDebug_events. now destruct (g_debugEnabled s). Qed.

Lemma serialLines_logLine (s : Globals) (line : string) :
  serialLines (logLine_events s line) = [line].
Proof.
  unfold logLine_events.
  now destruct (g_deviceConnected s && g_txCharacteristic s).
Qed.

Lemma notifications_logLine (s : Globals) (line : string) :
  notifications (logLine_events s line)
  = if g_deviceConnected s && g_txCharacteristic s then [line] else [].
Proof.
  unfold logLine_events.
  now destruct (g_deviceConnected s && g_txCharacteristic s).
Qed.

Lemma exec_stopMotor (w : World) :
  exec stopMotor w
  = {| globals := set_lastInputMs (uint32_of (clock w))
                    (set_outputPct F32.zero (set_targetPct 0 (globals w)));
       clock := clock w;
       events := (events w ++
         [EscWrite (escClampForwardOnly (g_escCfg (globals w))
                      (usNeutral (g_escCfg (globals w))))])%list |}.
Proof. reflexivity. Qed.

Lemma exec_bind {A B : Type} (c : M A) (k : A -> M B) (w : World) :
  exec (bind c k) w = exec (k (fst (c w))) (exec c w).
Proof. reflexivity. Qed.

Lemma exec_logLine (line : string) (w : World) :
  exec (logLine line) w = addEvents (logLine_events (globals w) line) w.
Proof. unfold exec. now rewrite run_logLine. Qed.

Lemma exec_setTargetPercent (pct : Z) (w : World) :
  exec (setTargetPercent pct) w
  = {| globals := set_lastInputMs (uint32_of (clock w))
                    (set_targetPct (uint8_of (clampInt pct 0 100)) (globals w));
       clock := clock w; events := events w |}.
Proof. reflexivity. Qed.

Section Commands.

Variable toFloat : string -> F32.float.
Variable ofFloat : F32.float -> Z -> string.

Abbreviation handle := (handleTextCommand toFloat ofFloat).

(** X6: a line of whitespace only (blanks, tabs, CR, LF, and the empty line)
    is ignored on both transports: [handleTextCommand], the BLE write
    callback and the serial block of the loop leave the globals, the clock
    and the outputs as they are, so that the loop iteration is the one
    without a line. *)
Theorem blank_line_is_ignored (line : string) (w : World) :
  blank line = true ->
  exec (handle line) w = w /\
  exec (RxCallbacks_onWrite toFloat ofFloat line) w = w /\
  exec (loop toFloat ofFloat (Some line)) w
  = exec (loop toFloat ofFloat None) w.
Proof.
  intros H. apply trim_blank in H.
  unfold exec, loop, appLoop, serialCommandInput, RxCallbacks_onWrite,
    handleTextCommand, bind.
  cbv zeta. rewrite H. repeat split.
Qed.

(** A recognised line starts with a letter or a digit of its keyword. *)
Lemma recognised_head (U : string) :
  recognised U = true -> exists c r, U = String c r /\ c <> "!"%char.
Proof.
  unfold recognised, keywords, valuePrefixes. cbn [existsb].
  rewrite !orb_false_r. intros H.
  repeat (apply orb_true_iff in H as [H|H]);
    try (apply String.eqb_eq in H; subst U; eexists; eexists;
         split; [reflexivity | discriminate]);
    apply startsWith_inv in H as [r ->]; cbn [append];
    eexists; eexists; (split; [reflexivity | discriminate]).
Qed.

(** X7: a line that is neither blank, nor a Control Pad packet, nor one of
    the commands changes nothing: the globals and the clock stay, and the
    only output is the line [Unknown cmd: ] followed by the trimmed line,
    on the serial port and, when a central is connected, over BLE. *)
Theorem unknown_command_is_only_echoed (line : string) (w : World) :
  blank line = false ->
  isControlPad (Str.trim line) = false ->
  recognised (Str.toUpperCase (Str.trim line)) = false ->
  exec (handle line) w
  = addEvents
      (logLine_events (globals w) ("Unknown cmd: " ++ Str.trim line)) w.
Proof.
  intros Hb Hp Hr.
  assert (Hl : (Str.length (Str.trim line) =? 0) = false).
  { destruct (Str.length (Str.trim line) =? 0) eqn:E; [|reflexivity].
    apply length_zero_iff, trim_empty_iff in E. congruence. }
  unfold isControlPad in Hp.
  unfold recognised, keywords, valuePrefixes in Hr. cbn [existsb] in Hr.
  rewrite !orb_false_r in Hr.
  repeat match type of Hr with
  | (_ || _) = false => apply orb_false_elim in Hr as [? Hr]
  end.
  repeat match goal with
  | H : (_ || _) = false |- _ => apply orb_false_elim in H as [? H]
  end.
  unfold exec, handleTextCommand. cbv zeta. rewrite Hl, Hp.
  repeat match goal with
  | H : _ = false |- _ => rewrite H; clear H
  end.
  cbn [orb]. now rewrite run_logLine.
Qed.

(** X8: commands are matched whatever their case and the whitespace around
    them.  A line whose trimmed upper-case form is one of the commands,
    [RPM] apart (its value is read by [toFloat]), acts exactly as that
    upper-case form: same assignments, same outputs. *)
Theorem commands_ignore_case_and_blanks (line : string) :
  let U := Str.toUpperCase (Str.trim line) in
  recognised U = true ->
  Str.startsWith U "RPM " = false ->
  handle line = handle U.
Proof.
  intros U Hr Hrpm.
  destruct (recognised_head U Hr) as (c & r & HU & Hc).
  assert (HtU : Str.trim U = U)
    by (unfold U; now rewrite trim_toUpperCase, trim_idem).
  assert (HuU : Str.toUpperCase U = U) by apply toUpperCase_idem.
  unfold handleTextCommand. cbv zeta. rewrite HtU, HuU.
  rewrite (length_nonempty (Str.trim line) r c HU).
  rewrite (not_controlPad (Str.trim line) r c HU Hc).
  rewrite (length_nonempty U r c (eq_trans HuU HU)).
  rewrite (not_controlPad U r c (eq_trans HuU HU) Hc).
  fold U. cbn [andb].
  assert (Hsub : forall n, Str.toInt (Str.substring n U)
                           = Str.toInt (Str.substring n (Str.trim line)))
    by (intros n; unfold U;
        now rewrite substring_toUpperCase, toInt_toUpperCase).
  rewrite !Hsub, Hrpm.
  unfold recognised, keywords, valuePrefixes in Hr. cbn [existsb] in Hr.
  rewrite Hrpm in Hr.
  repeat match goal with
  | |- context [String.eqb U ?k] =>
      destruct (String.eqb U k) eqn:?; cbn [orb]; try reflexivity
  end.
  repeat match goal with
  | |- context [Str.startsWith U ?k] =>
      destruct (Str.startsWith U k) eqn:?; try reflexivity
  end.
  cbn in Hr. discriminate Hr.
Qed.

Lemma exec_printStatus (reason : string) (w : World) :
  exec (printStatus ofFloat reason) w
  = addEvents (logLine_events (globals w) (statusText ofFloat reason (globals w))) w.
Proof. unfold exec. now rewrite run_printStatus. Qed.

(** X10: only [STOP], [ARM], [US] and a press of the STOP button reach the
    actuator.  Every other line, be it a command, a Control Pad packet or
    an unknown text, writes no pulse and leaves [g_outputPct], [g_armed]
    and the clock as they are: what it asks for is left to the next
    tick. *)
Theorem only_STOP_ARM_US_reach_the_actuator (line : string) (w : World) :
  actuates (Str.trim line) = false ->
  exists s' out,
    exec (handle line) w
    = {| globals := s'; clock := clock w; events := (events w ++ out)%list |} /\
    pulses out = [] /\
    g_outputPct s' = g_outputPct (globals w) /\
    g_armed s' = g_armed (globals w).
Proof.
  intros Ha. unfold actuates in Ha.
  unfold handleTextCommand. cbv zeta.
  destruct (Str.length (Str.trim line) =? 0).
  { exists (globals w), []. rewrite app_nil_r. destruct w. repeat split. }
  fold (isControlPad (Str.trim line)).
  destruct (isControlPad (Str.trim line)).
  - (* Control Pad *)
    unfold handleControlPad. rewrite exec_bind. unfold get at 1.
    cbn [fst]. change (exec (get g_debugEnabled) w) with w.
    rewrite exec_bind. unfold exec at 2. rewrite run_cpadDebug. cbn [snd fst].
    pose proof (pulses_cpadDebug (globals w) (Str.trim line)) as P1.
    destruct (Str.code (Str.charAt 3 (Str.trim line)) - 48 =? 1);
      cbn [andb negb] in Ha |- *.
    2:{ eexists; eexists. split; [reflexivity|]. now split. }
    rewrite Ha.
    repeat match goal with
    | |- context [if ?b then _ else _] => destruct b
    end;
    rewrite ?exec_bind; cbn [fst get]; rewrite ?exec_logLine, ?exec_printStatus;
    rewrite ?exec_setTargetPercent;
    unfold exec, get, addEvents; cbn [fst snd globals events clock];
    eexists; eexists; (split; [rewrite <- ?app_assoc; reflexivity|]);
    rewrite ?pulses_app, P1, ?pulses_logLine; repeat split.
  - (* keywords *)
    cbv zeta in Ha.
    repeat match type of Ha with
    | (_ || _) = false => apply orb_false_elim in Ha as [Ha ?]
    end.
    repeat match goal with
    | H : _ = false |- _ => rewrite H
    end.
    cbn [orb]. unfold printHelp.
    repeat match goal with
    | |- context [if ?b then _ else _] => destruct b
    end;
    rewrite ?exec_bind; cbn [fst get]; rewrite ?exec_logLine, ?exec_printStatus;
    rewrite ?exec_setTargetPercent;
    unfold exec, get, put, emit, addEvents; cbn [fst snd globals events clock];
    eexists; eexists; (split; [rewrite <- ?app_assoc; reflexivity|]);
    rewrite ?pulses_app, ?pulses_logLine; repeat split.
Qed.

(** X11: every command is answered once.  A line that is not blank and not
    a Control Pad packet makes [handleTextCommand] print exactly one line on
    the serial port (a status line, a confirmation, the help text or the
    unknown-command echo), and notify that same line over BLE exactly when a
    central is connected. *)
Theorem every_command_is_answered_once (line : string) (w : World) :
  blank line = false ->
  isControlPad (Str.trim line) = false ->
  exists s' c' out text,
    exec (handle line) w
    = {| globals := s'; clock := c'; events := (events w ++ out)%list |} /\
    serialLines out = [text] /\
    notifications out
    = if g_deviceConnected (globals w) && g_txCharacteristic (globals w)
      then [text] else [].
Proof.
  intros Hb Hp.
  assert (Hl : (Str.length (Str.trim line) =? 0) = false).
  { destruct (Str.length (Str.trim line) =? 0) eqn:E; [|reflexivity].
    apply length_zero_iff, trim_empty_iff in E. congruence. }
  unfold isControlPad in Hp.
  destruct (g_deviceConnected (globals w) && g_txCharacteristic (globals w))
    eqn:Hc;
  unfold handleTextCommand; cbv zeta; rewrite Hl, Hp; unfold printHelp;
  repeat match goal with
  | |- context [if ?b then _ else _] => destruct b
  end;
  rewrite ?exec_bind; cbn [fst get];
  rewrite ?run_escArmNeutral by lia;
  rewrite ?exec_stopMotor;
  rewrite ?exec_logLine, ?exec_printStatus, ?exec_setTargetPercent;
  unfold exec, escWriteMicrosecondsSafe, bind;
  unfold get, put, emit, addEvents;
  cbn [fst snd globals events clock];
  eexists; eexists; eexists; eexists;
  (split; [rewrite <- ?app_assoc; reflexivity|]);
  rewrite ?serialLines_app, ?notifications_app,
    ?serialLines_logLine, ?notifications_logLine;
  cbn [g_deviceConnected g_txCharacteristic set_lastInputMs set_targetPct
       set_outputPct set_armed set_debugEnabled set_logEnabled set_rampTimeMs
       set_logPeriodMs];
  rewrite Hc; split; reflexivity.
Qed.

(** The target after a press of the button [id]. *)
Lemma controlPad_press_target (line rest : string) (id : ascii) (w : World) :
  Str.trim line = String "!" (String "B" (String id (String "1" rest))) ->
  g_targetPct (globals (exec (handle line) w))
  = let t := g_targetPct (globals w) in
    let btn := Str.code id - 48 in
    if btn =? BTN_UP_ID then uint8_of (clampInt (uint8_of (clampInt (t + 5) 0 100)) 0 100)
    else if btn =? BTN_DOWN_ID
         then uint8_of (clampInt (uint8_of (clampInt (t - 5) 0 100)) 0 100)
    else if btn =? BTN_FULL_ID then 100
    else if btn =? BTN_STOP_ID then 0
    else t.
Proof.
  intros H. rewrite (handle_controlPad toFloat ofFloat line id "1" rest H).
  unfold handleControlPad. rewrite exec_bind. unfold get at 1.
  cbn [fst]. change (exec (get g_debugEnabled) w) with w.
  rewrite exec_bind. unfold exec at 2. rewrite run_cpadDebug. cbn [snd fst].
  rewrite H. cbn [Str.charAt String.get].
  change (Str.code "1" - 48 =? 1) with true. cbn [negb]. cbv zeta.
  repeat match goal with
  | |- context [if ?b then _ else _] => destruct b
  end;
  rewrite ?exec_bind; cbn [fst get];
  rewrite ?exec_stopMotor, ?exec_logLine, ?exec_printStatus,
    ?exec_setTargetPercent;
  reflexivity.
Qed.

(** X9: the arrows of the Control Pad move the target in steps of 5 that
    stop at the ends.  With the target in 0..100, a press of UP (button 5)
    makes it [min 100 (target + 5)] and a press of DOWN (button 6)
    [max 0 (target - 5)]; so DOWN undoes UP when there was room for the
    whole step, and UP undoes DOWN likewise. *)
Theorem controlPad_arrows_step_by_5
  (w : World) (up down restU restD : string) :
  Str.trim up = "!B51" ++ restU ->
  Str.trim down = "!B61" ++ restD ->
  0 <= g_targetPct (globals w) <= 100 ->
  let t := g_targetPct (globals w) in
  g_targetPct (globals (exec (handle up) w)) = Z.min 100 (t + 5) /\
  g_targetPct (globals (exec (handle down) w)) = Z.max 0 (t - 5) /\
  (t <= 95 ->
   g_targetPct (globals (exec (handle down) (exec (handle up) w))) = t) /\
  (5 <= t ->
   g_targetPct (globals (exec (handle up) (exec (handle down) w))) = t).
Proof.
  intros Hu Hd Ht t. cbn [append] in Hu, Hd.
  assert (U : forall v, 0 <= g_targetPct (globals v) <= 100 ->
            g_targetPct (globals (exec (handle up) v))
            = Z.min 100 (g_targetPct (globals v) + 5)).
  { intros v Hv. rewrite (controlPad_press_target up restU "5" v Hu).
    cbv zeta. change (Str.code "5" - 48 =? BTN_UP_ID) with true. cbv iota.
    rewrite !uint8_of_clampInt by lia. rewrite clampInt_idem by lia.
    unfold clampInt.
    destruct (Z.ltb_spec (g_targetPct (globals v) + 5) 0);
      destruct (Z.gtb_spec (g_targetPct (globals v) + 5) 100); lia. }
  assert (D : forall v, 0 <= g_targetPct (globals v) <= 100 ->
            g_targetPct (globals (exec (handle down) v))
            = Z.max 0 (g_targetPct (globals v) - 5)).
  { intros v Hv. rewrite (controlPad_press_target down restD "6" v Hd).
    cbv zeta. change (Str.code "6" - 48 =? BTN_UP_ID) with false.
    change (Str.code "6" - 48 =? BTN_DOWN_ID) with true. cbv iota.
    rewrite !uint8_of_clampInt by lia. rewrite clampInt_idem by lia.
    unfold clampInt.
    destruct (Z.ltb_spec (g_targetPct (globals v) - 5) 0);
      destruct (Z.gtb_spec (g_targetPct (globals v) - 5) 100); lia. }
  fold t in Ht. split; [now apply U|]. split; [now apply D|]. split; intros H.
  - rewrite D; rewrite U; fold t; lia.
  - rewrite U; rewrite D; fold t; lia.
Qed.

(** X12: the number of a command is read back as it is written.  For every
    [n] in the range of [long], written in decimal as [String(n)] does, and
    whatever the case of the keyword and the blanks around the line:
    [SET n] makes the target [n] clamped to 0..100, [RAMP n] the ramp time
    [n] clamped to 0..10000, [LOG PERIOD n] the log period [n] clamped to
    20..10000, and [US n] writes the one pulse [escClampForwardOnly n]. *)
Theorem decimal_arguments_are_read_back (line : string) (n : Z) (w : World) :
  LONG_MIN <= n <= LONG_MAX ->
  let U := Str.toUpperCase (Str.trim line) in
  let w' := exec (handle line) w in
  (U = "SET " ++ Str.ofInt n ->
   g_targetPct (globals w') = clampInt n 0 100) /\
  (U = "RAMP " ++ Str.ofInt n ->
   g_rampTimeMs (globals w') = clampInt n 0 10000) /\
  (U = "LOG PERIOD " ++ Str.ofInt n ->
   g_logPeriodMs (globals w') = clampInt n 20 10000) /\
  (U = "US " ++ Str.ofInt n ->
   exists out, events w' = (events w ++ out)%list /\
     pulses out = [escClampForwardOnly (g_escCfg (globals w)) n]).
Proof.
  intros Hn U w'.
  assert (R : forall k p, U = p ++ Str.ofInt n -> String.length p = k ->
            Str.toInt (Str.substring k (Str.trim line)) = n).
  { intros k p HU Hk.
    rewrite <- toInt_toUpperCase, <- substring_toUpperCase. fold U.
    rewrite HU. subst k.
    assert (E : forall q x, Str.substring (String.length q) (q ++ x) = x)
      by (induction q as [|a q IH]; intros x; [now destruct x | apply IH]).
    rewrite E. now apply toInt_ofInt. }
  assert (P : forall p, U = p ++ Str.ofInt n -> Str.startsWith U p = true).
  { intros p HU. rewrite HU. clear HU. generalize (Str.ofInt n).
    induction p as [|a p IH]; intros x; [reflexivity|].
    cbn [append Str.startsWith]. now rewrite Ascii.eqb_refl, IH. }
  subst w'. repeat split; intros HU.
  - rewrite (handle_SET toFloat ofFloat line (P _ HU)).
    rewrite (R 4%nat _ HU eq_refl).
    rewrite !exec_bind, exec_printStatus, exec_setTargetPercent.
    cbn [globals addEvents g_targetPct set_lastInputMs set_targetPct].
    rewrite !uint8_of_clampInt by lia. now rewrite clampInt_idem by lia.
  - rewrite (handle_RAMP toFloat ofFloat line (P _ HU)).
    rewrite (R 5%nat _ HU eq_refl).
    rewrite !exec_bind, exec_printStatus.
    cbn [globals addEvents exec put snd g_rampTimeMs set_rampTimeMs].
    now rewrite uint32_of_clampInt by lia.
  - rewrite (handle_LOG_PERIOD toFloat ofFloat line (P _ HU)).
    rewrite (R 11%nat _ HU eq_refl).
    rewrite !exec_bind, exec_printStatus.
    cbn [globals addEvents exec put snd g_logPeriodMs set_logPeriodMs].
    now rewrite uint32_of_clampInt by lia.
  - rewrite (handle_US toFloat ofFloat line (P _ HU)).
    rewrite (R 3%nat _ HU eq_refl).
    rewrite !exec_bind, exec_printStatus.
    unfold exec, escWriteMicrosecondsSafe, bind.
    unfold get, put, emit, addEvents. cbn [fst snd globals events clock].
    eexists. split; [rewrite <- app_assoc; reflexivity|].
    now rewrite pulses_app, pulses_logLine.
Qed.

End Commands.

(** ** The pulse model, continued *)

Lemma escPulseFromPercent_eq (cfg : EscConfig) (pct : Z) :
  EscConfig_ok cfg ->
  escPulseFromPercent cfg pct
  = let c := clampInt (uint8_of pct) 0 100 in
    if c =? 0 then usNeutral cfg
    else usMinFwd cfg + (usMaxFwd cfg - usMinFwd cfg) * c / 100.
Proof.
  intros Hok. pose proof Hok as (H0 & H1 & H2 & H3 & H4 & H5 & H6).
  unfold escPulseFromPercent. cbv zeta.
  rewrite uint8_of_clampInt by lia.
  pose proof (clampInt_range (uint8_of pct) 0 100 ltac:(lia)) as Hc.
  set (c := clampInt (uint8_of pct) 0 100) in *.
  destruct (Z.eqb_spec c 0) as [_|Hn]; [reflexivity|].
  assert (Hq : 0 <= (usMaxFwd cfg - usMinFwd cfg) * c / 100
               <= usMaxFwd cfg - usMinFwd cfg).
  { split; [apply Z.div_pos; nia | apply Z.div_le_upper_bound; nia]. }
  rewrite (int_of_small (usMaxFwd cfg - usMinFwd cfg)) by (simpl; lia).
  rewrite (int_of_small (_ * c)) by (simpl; nia).
  rewrite Z.quot_div_nonneg by nia.
  rewrite int_of_small by (simpl; lia).
  now rewrite escClampForwardOnly_forward by (assumption || lia).
Qed.

(** X13: the forward-only clamp is idempotent, so the second gate of the
    double gate changes nothing: a pulse that has passed the clamp passes
    it again unchanged, and so does every pulse [escPulseFromPercent]
    returns. *)
Theorem escClampForwardOnly_idempotent (cfg : EscConfig) (us pct : Z) :
  EscConfig_ok cfg ->
  escClampForwardOnly cfg (escClampForwardOnly cfg us)
  = escClampForwardOnly cfg us /\
  escClampForwardOnly cfg (escPulseFromPercent cfg pct)
  = escPulseFromPercent cfg pct.
Proof.
  intros Hok.
  assert (Idem : forall x, escClampForwardOnly cfg (escClampForwardOnly cfg x)
                           = escClampForwardOnly cfg x).
  { intros x. destruct (escClampForwardOnly_safe cfg x Hok) as [E|E].
    - rewrite E. now apply escClampForwardOnly_neutral.
    - now apply escClampForwardOnly_forward. }
  split; [apply Idem|].
  unfold escPulseFromPercent. cbv zeta.
  destruct (uint8_of (clampInt (uint8_of pct) 0 100) =? 0);
    [now apply escClampForwardOnly_neutral | apply Idem].
Qed.

(** X14: more throttle never gives a shorter pulse.  With a pulse
    configuration as in [EscConfig_ok] whose neutral width is not above the
    forward band, [escPulseFromPercent] is monotone in the percentage over
    the values of its [uint8_t] parameter, 0..255: it is the neutral width
    at 0 and [usMaxFwd] from 100 on.  An argument outside 0..255 is reduced
    modulo 256 by the call, so that the order is lost there. *)
Theorem escPulseFromPercent_monotone (cfg : EscConfig) (p q : Z) :
  EscConfig_ok cfg -> usNeutral cfg <= usMinFwd cfg ->
  0 <= p <= q -> q <= 255 ->
  escPulseFromPercent cfg p <= escPulseFromPercent cfg q /\
  (p = 0 -> escPulseFromPercent cfg p = usNeutral cfg) /\
  (100 <= q -> escPulseFromPercent cfg q = usMaxFwd cfg) /\
  (forall z, escPulseFromPercent cfg z = escPulseFromPercent cfg (z mod 256)).
Proof.
  intros Hok Hn Hpq Hq. pose proof Hok as (H0 & H1 & H2 & H3 & H4 & H5 & H6).
  assert (Hw : forall z,
            escPulseFromPercent cfg z = escPulseFromPercent cfg (z mod 256)).
  { intros z. unfold escPulseFromPercent. cbv zeta.
    replace (uint8_of (z mod 256)) with (uint8_of z); [reflexivity|].
    unfold uint8_of. change (2 ^ 8) with 256. now rewrite Z.mod_mod. }
  split; [|split; [|split; [|exact Hw]]];
    rewrite !escPulseFromPercent_eq by exact Hok; cbv zeta;
    rewrite ?(uint8_of_small p), ?(uint8_of_small q) by lia.
  - assert (Cp : clampInt p 0 100 = Z.min 100 p).
    { unfold clampInt.
      destruct (Z.ltb_spec p 0); destruct (Z.gtb_spec p 100); lia. }
    assert (Cq : clampInt q 0 100 = Z.min 100 q).
    { unfold clampInt.
      destruct (Z.ltb_spec q 0); destruct (Z.gtb_spec q 100); lia. }
    rewrite Cp, Cq.
    set (span := usMaxFwd cfg - usMinFwd cfg).
    assert (Hs : 0 <= span) by (unfold span; lia).
    destruct (Z.eqb_spec (Z.min 100 p) 0) as [Ep|Ep];
      destruct (Z.eqb_spec (Z.min 100 q) 0) as [Eq|Eq]; try lia.
    + assert (0 <= span * Z.min 100 q / 100) by (apply Z.div_pos; nia). lia.
    + apply Z.add_le_mono_l. apply Z.div_le_mono; [lia|].
      apply Z.mul_le_mono_nonneg_l; lia.
  - intros ->. reflexivity.
  - intros H100.
    assert (Cq : clampInt q 0 100 = 100).
    { unfold clampInt.
      destruct (Z.ltb_spec q 0); destruct (Z.gtb_spec q 100); lia. }
    rewrite Cq. cbn [Z.eqb]. rewrite Z.div_mul by lia. lia.
Qed.

(** ** The speed estimate *)

(** X15: the two conversions between percent and speed undo each other on
    the percentages.  At the battery voltage the sketch is compiled with,
    the speed [estimateRpmFromPercent] gives for a whole percentage [p] of
    0..100 is converted back to [p] by [percentFromTargetRpm]. *)
Theorem rpm_estimate_round_trip (p : Z) :
  0 <= p <= 100 ->
  let batt := g_battVoltage_V Globals_init in
  percentFromTargetRpm batt (estimateRpmFromPercent batt (F32.of_Z p)) = p.
Proof.
  intros Hp batt.
  assert (A : forallb
                (fun n => percentFromTargetRpm batt
                            (estimateRpmFromPercent batt (F32.of_Z (Z.of_nat n)))
                          =? Z.of_nat n)
                (seq 0 101) = true) by (vm_compute; reflexivity).
  rewrite forallb_forall in A.
  specialize (A (Z.to_nat p)). rewrite Z2Nat.id in A by lia.
  apply Z.eqb_eq, A, in_seq. lia.
Qed.

(** ** The ramp, continued *)

Lemma roundedOutputPct_of_Z (p : Z) :
  0 <= p <= 100 -> roundedOutputPct (F32.of_Z p) = p.
Proof.
  intros Hp.
  assert (A : forallb
                (fun n => roundedOutputPct (F32.of_Z (Z.of_nat n)) =? Z.of_nat n)
                (seq 0 101) = true) by (vm_compute; reflexivity).
  rewrite forallb_forall in A.
  specialize (A (Z.to_nat p)). rewrite Z2Nat.id in A by lia.
  apply Z.eqb_eq, A, in_seq. lia.
Qed.

(** With the output on the target the ramped branch returns the target. *)
Lemma rampCore_at_target (t m : F32.float) :
  F32.nonneg t -> F32.nonneg m -> rampCore t t m = t.
Proof.
  intros Ht Hm. unfold rampCore, F32.sub, F32.leb, F32.fabs.
  change F32.prec with 24. change F32.emax with 128. cbv zeta.
  pose proof (F32Facts.SFsub_approx t t Ht Ht (Z.le_refl _)) as A.
  rewrite Z.sub_diag in A.
  assert (D : F32.nonneg (SFsub 24 128 t t) /\ F32.V (SFsub 24 128 t t) = 0).
  { destruct A as [A|A]; [exact A|].
    apply F32Facts.rounds_nonneg_inf in A. lia. }
  destruct D as [Dn Dv].
  destruct (F32Facts.SFabs_nonneg _ Dn) as [An Av].
  rewrite (F32Facts.SFleb_nonneg _ _ An Hm), Av, Dv.
  pose proof (F32Facts.V_nonneg m Hm).
  now destruct (Z.leb_spec 0 (F32.V m)); [|lia].
Qed.

Lemma rampStep_at_target (rampTimeMs dt targetPct : Z) :
  0 <= targetPct <= 100 -> 0 <= rampTimeMs < 2 ^ 32 -> 0 <= dt < 2 ^ 32 ->
  rampStep rampTimeMs dt targetPct (F32.of_Z targetPct) = F32.of_Z targetPct.
Proof.
  intros Ht Hr Hd. rewrite rampStep_eq.
  destruct (Z.eqb_spec rampTimeMs 0); [reflexivity|].
  destruct (Z.eqb_spec dt 0); [reflexivity|]. cbn [orb].
  apply rampCore_at_target.
  - apply OutputPct_ok_of_Z, Ht.
  - apply F32Facts.maxDeltaOf_nonneg; lia.
Qed.

(** X16: an output that has reached the target rests there.  In an armed
    state whose output is the target (a whole percentage of 0..100), a tick
    leaves the output where it is, whatever the ramp time and the time since
    the last tick, and writes the pulse [escPulseFromPercent] gives for the
    target. *)
Theorem output_rests_at_target (w : World) :
  let s := globals w in
  let w' := exec applyThrottleWithRamping w in
  g_armed s = true ->
  EscConfig_ok (g_escCfg s) ->
  0 <= g_targetPct s <= 100 ->
  0 <= g_rampTimeMs s < 2 ^ 32 ->
  g_outputPct s = F32.of_Z (g_targetPct s) ->
  g_outputPct (globals w') = F32.of_Z (g_targetPct s) /\
  g_targetPct (globals w') = g_targetPct s /\
  events w'
  = (events w ++ [EscWrite (escPulseFromPercent (g_escCfg s) (g_targetPct s))])%list.
Proof.
  intros s w' Ha Hcfg Ht Hr Ho. subst w'. unfold exec.
  rewrite (run_applyThrottleWithRamping_armed w Ha). cbv zeta. fold s.
  cbn [snd globals events g_outputPct g_targetPct set_outputPct set_lastLoopMs].
  rewrite Ho.
  rewrite rampStep_at_target; [|exact Ht|exact Hr|].
  2:{ destruct (g_lastLoopMs s =? 0); [lia|apply uint32_of_range]. }
  rewrite clampFloat_id by (apply OutputPct_ok_of_Z, Ht).
  rewrite roundedOutputPct_of_Z by exact Ht.
  split; [reflexivity|]. split; [reflexivity|].
  unfold escPulseFromPercent. cbv zeta.
  rewrite !(uint8_of_small (g_targetPct s)) by lia.
  destruct (uint8_of (clampInt (g_targetPct s) 0 100) =? 0) eqn:E.
  - now rewrite escClampForwardOnly_neutral by exact Hcfg.
  - destruct (escClampForwardOnly_safe (g_escCfg s)
                (int_of (usMinFwd (g_escCfg s) +
                   Z.quot (int_of (int_of (usMaxFwd (g_escCfg s) - usMinFwd (g_escCfg s))
                                   * uint8_of (clampInt (g_targetPct s) 0 100))) 100))
                Hcfg) as [En|Ef].
    + rewrite En. now rewrite escClampForwardOnly_neutral by exact Hcfg.
    + now rewrite escClampForwardOnly_forward by (exact Hcfg || exact Ef).
Qed.

(** X17: the first tick ignores the ramp time.  A tick that finds
    [g_lastLoopMs] at 0 takes the elapsed time for 0 and moves the output
    onto the target at once, whatever the ramp time.  This is the case of
    the first tick after power-up, and of the tick that follows a tick at
    [millis() == 0]. *)
Theorem first_tick_ignores_ramp (w : World) (d : Z) :
  let s := globals w in
  g_armed s = true ->
  0 <= g_targetPct s <= 100 ->
  (g_lastLoopMs s = 0 ->
   g_outputPct (globals (exec applyThrottleWithRamping w))
   = F32.of_Z (g_targetPct s)) /\
  (uint32_of (clock w) = 0 ->
   g_outputPct
     (globals (exec (applyThrottleWithRamping ;; delay d ;;
                     applyThrottleWithRamping) w))
   = F32.of_Z (g_targetPct s)).
Proof.
  intros s Ha Ht.
  assert (F : forall v, g_armed (globals v) = true ->
              g_lastLoopMs (globals v) = 0 ->
              0 <= g_targetPct (globals v) <= 100 ->
              g_outputPct (globals (exec applyThrottleWithRamping v))
              = F32.of_Z (g_targetPct (globals v))).
  { intros v Hv H0 Hv100. unfold exec.
    rewrite (run_applyThrottleWithRamping_armed v Hv). cbv zeta.
    cbn [snd globals g_outputPct set_outputPct]. rewrite H0.
    change (0 =? 0) with true. cbv iota. rewrite rampStep_eq.
    rewrite Z.eqb_refl, orb_true_r.
    apply clampFloat_id, OutputPct_ok_of_Z, Hv100. }
  split; [intros H0; now apply F|].
  intros Hc. rewrite !exec_bind. cbn [fst].
  set (w1 := exec applyThrottleWithRamping w).
  assert (E1 : globals w1
               = set_outputPct (g_outputPct (globals w1))
                   (set_lastLoopMs 0 s)).
  { unfold w1, exec. rewrite (run_applyThrottleWithRamping_armed w Ha).
    cbv zeta. cbn [snd globals g_outputPct set_outputPct]. now rewrite Hc. }
  assert (G : globals (exec (delay d) w1) = globals w1) by reflexivity.
  rewrite F; rewrite G, E1; [reflexivity | exact Ha | reflexivity | exact Ht].
Qed.

(** ** Time *)

Lemma uint32_elapsed (c0 d : Z) :
  0 <= d < 2 ^ 32 -> uint32_of (uint32_of (c0 + d) - uint32_of c0) = d.
Proof.
  intros Hd. unfold uint32_of. rewrite <- Zminus_mod.
  replace (c0 + d - c0) with d by lia. now apply Z.mod_small.
Qed.

(** One call of a sequence, and a name for the state it leaves. *)
Ltac step x :=
  rewrite exec_bind; cbn [fst];
  match goal with
  | |- context [exec ?k (exec ?c ?v)] => is_var v; set (x := exec c v)
  end.

Section Timing.

Variable toFloat : string -> F32.float.
Variable ofFloat : F32.float -> Z -> string.

(** X18: elapsed times are right across the rollover of [millis()].  With
    the last tick (the last CSV line) taken at clock [c0] and the clock now
    at [c0 + d], less than [2^32] ms later, the tick works with [dt = d]
    and the CSV gate compares [d] with the period, also when the 32-bit
    counter has wrapped in between.  The tick needs the stored time stamp to
    be nonzero: at 0 the tick takes the elapsed time for 0. *)
Theorem elapsed_time_survives_rollover (w : World) (c0 d : Z) :
  clock w = c0 + d -> 0 <= d < 2 ^ 32 ->
  let s := globals w in
  (g_armed s = true -> g_lastLoopMs s = uint32_of c0 -> uint32_of c0 <> 0 ->
   g_outputPct (globals (exec applyThrottleWithRamping w))
   = clampFloat (rampStep (g_rampTimeMs s) d (g_targetPct s) (g_outputPct s))
       F32.zero F32.hundred) /\
  (g_logEnabled s = true -> g_lastLogMs s = uint32_of c0 ->
   exec (periodicCsvLogging ofFloat) w
   = if g_logPeriodMs s <=? d
     then {| globals := set_lastLogMs (uint32_of (clock w)) s;
             clock := clock w;
             events := (events w ++
               logLine_events s
                 (csvText ofFloat (uint32_of (clock w)) "LOG" s))%list |}
     else w).
Proof.
  intros Hc Hd s. split.
  - intros Ha Hl Hn. unfold exec.
    rewrite (run_applyThrottleWithRamping_armed w Ha). cbv zeta. fold s.
    cbn [snd globals g_outputPct set_outputPct].
    rewrite Hl, Hc, uint32_elapsed by exact Hd.
    destruct (Z.eqb_spec (uint32_of c0) 0); [contradiction | reflexivity].
  - intros He Hl. rewrite (run_periodicCsvLogging ofFloat w He). cbv zeta.
    unfold logDue. fold s. rewrite Hl, Hc, uint32_elapsed by exact Hd.
    rewrite Z.geb_leb. reflexivity.
Qed.

(** X19: arming holds the neutral pulse for the time asked.
    [escArmNeutral msHold] writes the neutral pulse once, waits in steps of
    10 ms until at least [msHold] ms have passed (less than 10 ms more, also
    across a rollover of [millis()]), sets [g_armed] and touches nothing
    else. *)
Theorem arming_holds_neutral (w : World) (msHold : Z) :
  0 <= msHold < 2 ^ 31 ->
  EscConfig_ok (g_escCfg (globals w)) ->
  let w' := exec (escArmNeutral msHold) w in
  globals w' = set_armed true (globals w) /\
  events w' = (events w ++ [EscWrite (usNeutral (g_escCfg (globals w)))])%list /\
  msHold <= clock w' - clock w < msHold + 10 /\
  (clock w' - clock w) mod 10 = 0.
Proof.
  intros Hms Hcfg w'. subst w'. rewrite (run_escArmNeutral msHold w Hms).
  cbn [globals events clock].
  rewrite escClampForwardOnly_neutral by exact Hcfg.
  split; [reflexivity|]. split; [reflexivity|].
  replace (clock w + 10 * ((msHold + 9) / 10) - clock w)
    with (10 * ((msHold + 9) / 10)) by lia.
  split.
  - pose proof (Z.mul_div_le (msHold + 9) 10 ltac:(lia)).
    pose proof (Z.mul_succ_div_gt (msHold + 9) 10 ltac:(lia)). lia.
  - rewrite Z.mul_comm. apply Z.mod_mul. lia.
Qed.

(** X20: [setup] ends armed, at rest, with the ESC at neutral.  From any
    state with a pulse configuration as in [EscConfig_ok], [appSetup]
    attaches the ESC before the first pulse, writes the neutral pulse three
    times and no other, takes 3500 ms (300 + 200 and the 3000 of arming),
    and leaves the sketch armed with target and output at 0; ramp time and
    log settings are as initialised. *)
Theorem setup_ends_armed_at_neutral (w : World) :
  let s := globals w in
  let n := usNeutral (g_escCfg s) in
  let w' := exec (setup ofFloat) w in
  EscConfig_ok (g_escCfg s) ->
  g_armed (globals w') = true /\
  g_targetPct (globals w') = 0 /\
  g_outputPct (globals w') = F32.zero /\
  g_txCharacteristic (globals w') = true /\
  g_rampTimeMs (globals w') = g_rampTimeMs s /\
  g_logEnabled (globals w') = g_logEnabled s /\
  g_logPeriodMs (globals w') = g_logPeriodMs s /\
  clock w' = clock w + 3500 /\
  exists rest,
    events w'
    = (events w ++
       [PinModeOutput LED_PIN; DigitalWrite LED_PIN false;
        EscAttach (pinSignal (g_escCfg s)) (usMin (g_escCfg s))
          (usMax (g_escCfg s));
        EscWrite n] ++ rest)%list /\
    pulses rest = [n; n].
Proof.
  intros s n w' Hcfg. subst w'. unfold setup, appSetup, printHelp.
  (* one call after the other, each from the state the last one left *)
  step x. step x0. step x1.
  rewrite exec_bind. cbn [fst get]. change (exec (get g_escCfg) x1) with x1.
  step x2. step x3. step x4. step x5. step x6. step x7. step x8. step x9.
  step x10.
  set (wf := exec (printStatus ofFloat "BOOT") x10).
  (* the states, from the first to the last *)
  assert (E3 : x3 = {| globals := s; clock := clock w + 300;
                       events := ((((events w ++ [PinModeOutput LED_PIN])
                         ++ [DigitalWrite LED_PIN false])
                         ++ [EscAttach (pinSignal (g_escCfg s))
                               (usMin (g_escCfg s)) (usMax (g_escCfg s))])
                         ++ [EscWrite (escClampForwardOnly (g_escCfg s) n)])%list |})
    by reflexivity.
  clearbody x3. subst x3. clear x x0 x1 x2.
  assert (E7 : x7 = {| globals := set_txCharacteristic true s;
                       clock := clock w + 300 + 200;
                       events := ((((((events w ++ [PinModeOutput LED_PIN])
                         ++ [DigitalWrite LED_PIN false])
                         ++ [EscAttach (pinSignal (g_escCfg s))
                               (usMin (g_escCfg s)) (usMax (g_escCfg s))])
                         ++ [EscWrite (escClampForwardOnly (g_escCfg s) n)])
                         ++ [BleStartAdvertising])
                         ++ [SerialPrintln "Ready: BLE UART + Control Pad + Serial"])%list |})
    by reflexivity.
  clearbody x7. subst x7. clear x4 x5 x6.
  subst x8 x9 x10 wf.
  rewrite exec_logLine. unfold addEvents. cbn [globals clock events].
  rewrite run_escArmNeutral by lia.
  cbn [globals clock events g_escCfg set_txCharacteristic].
  rewrite exec_stopMotor.
  cbn [globals clock events g_escCfg set_txCharacteristic set_armed].
  rewrite exec_printStatus. unfold addEvents.
  cbn [globals clock events g_escCfg set_armed set_txCharacteristic
       set_lastInputMs set_outputPct set_targetPct g_armed g_targetPct
       g_outputPct g_txCharacteristic g_rampTimeMs g_logEnabled g_logPeriodMs].
  change (10 * ((3000 + 9) / 10)) with 3000.
  fold s. fold n. rewrite !escClampForwardOnly_neutral by exact Hcfg.
  repeat (split; [reflexivity|]). split; [lia|].
  eexists. split.
  - rewrite <- !app_assoc. cbn [app]. reflexivity.
  - unfold pulses. cbn [flat_map app]. rewrite !flat_map_app.
    cbn [flat_map app]. fold pulses. now rewrite !pulses_logLine.
Qed.

(** X21: a loop iteration with no line waiting and logging off is one tick
    and 5 ms: it writes exactly one pulse, prints nothing, stamps
    [g_lastLoopMs] and leaves the target, the ramp time, [g_armed] and the
    log settings as they are. *)
Theorem idle_loop_is_one_tick (w : World) :
  let s := globals w in
  let w' := exec (loop toFloat ofFloat None) w in
  g_logEnabled s = false ->
  w' = exec (delay 5) (exec applyThrottleWithRamping w) /\
  clock w' = clock w + 5 /\
  (exists us, events w' = (events w ++ [EscWrite us])%list) /\
  g_lastLoopMs (globals w') = uint32_of (clock w) /\
  g_targetPct (globals w') = g_targetPct s /\
  g_rampTimeMs (globals w') = g_rampTimeMs s /\
  g_armed (globals w') = g_armed s /\
  g_logEnabled (globals w') = false.
Proof.
  intros s w' Hl.
  set (w1 := exec applyThrottleWithRamping w).
  assert (E : exists out us,
            w1 = {| globals := set_outputPct out
                                 (set_lastLoopMs (uint32_of (clock w)) s);
                    clock := clock w;
                    events := (events w ++ [EscWrite us])%list |}).
  { unfold w1, exec. destruct (g_armed s) eqn:Ha.
    - rewrite (run_applyThrottleWithRamping_armed w Ha).
      eexists; eexists; reflexivity.
    - rewrite (run_applyThrottleWithRamping_unarmed w Ha).
      eexists; eexists; reflexivity. }
  destruct E as (out & us & E).
  assert (L : g_logEnabled (globals w1) = false) by (rewrite E; exact Hl).
  assert (P : exec (periodicCsvLogging ofFloat) w1 = w1).
  { unfold periodicCsvLogging. rewrite exec_bind. unfold get at 1.
    cbn [fst]. now rewrite L. }
  assert (W : w' = exec (delay 5) w1).
  { unfold w', loop, appLoop, serialCommandInput. rewrite !exec_bind.
    cbn [fst]. change (exec (ret tt) w) with w. fold w1. now rewrite P. }
  clearbody w' w1. subst w' w1.
  split; [reflexivity|].
  cbn [exec delay snd globals clock events g_lastLoopMs g_targetPct
       g_rampTimeMs g_armed g_logEnabled set_outputPct set_lastLoopMs].
  repeat split; try assumption. now exists us.
Qed.

End Timing.

(** ** The size of a ramp step *)

Module F32Lower.
Import F32 F32Facts.

(** Rounding does not go below the leading digit: a positive mantissa above
    the underflow range keeps a value of at least [2^(digits + e - 1)]. *)
Lemma binary_round_aux_lower (m e : Z) (l : location) :
  0 < m ->
  e <= fexp32 (Zdigits2 m + e) ->
  -148 <= Zdigits2 m + e ->
  let f := binary_round_aux 24 128 false m e l in
  f = S754_infinity false \/
  (nonneg f /\ 2 ^ (Zdigits2 m + e - 1 + 149) <= V f).
Proof.
  intros Hm Hpre HD f. subst f.
  destruct (binary_round_aux_spec false m e l ltac:(lia) Hpre)
    as (q' & Hq & _ & H).
  cbv zeta in *.
  set (e1 := fexp32 (Zdigits2 m + e)) in *.
  set (a := m / 2 ^ (e1 - e)) in *.
  pose proof (Zdigits2_bounds m Hm) as [Lo Hi].
  pose proof (Zdigits2_pos m Hm) as Pd.
  assert (He1 : e1 = Z.max (Zdigits2 m + e - 24) (-149))
    by (unfold e1; apply fexp32_unfold).
  assert (Hk : 0 <= e1 - e <= Zdigits2 m - 1) by lia.
  assert (Ha : 2 ^ (Zdigits2 m - 1 - (e1 - e)) <= a).
  { unfold a. apply Z.div_le_lower_bound; [apply Z.pow_pos_nonneg; lia|].
    rewrite <- Z.pow_add_r by lia.
    replace (e1 - e + (Zdigits2 m - 1 - (e1 - e))) with (Zdigits2 m - 1)
      by lia.
    exact Lo. }
  assert (Hap : 0 < 2 ^ (Zdigits2 m - 1 - (e1 - e)))
    by (apply Z.pow_pos_nonneg; lia).
  destruct H as [[Hz _]|(Hq' & m2 & e2 & E & C & Hv & He2)]; [lia|].
  rewrite E. destruct (Z.leb_spec e2 104) as [H104|H104];
    [right|left; reflexivity].
  split; [cbn [nonneg]; now apply bounded_intro|].
  cbn [V]. rewrite Hv.
  replace (Zdigits2 m + e - 1 + 149)
    with ((Zdigits2 m - 1 - (e1 - e)) + (e1 + 149)) by lia.
  rewrite Z.pow_add_r by lia.
  apply Z.mul_le_mono_nonneg_r; [apply Z.pow_nonneg; lia | lia].
Qed.

(** The quotient of two positive floats is at least the power of two their
    magnitudes give. *)
Lemma SFdiv_lower (m1 m2 : positive) (e1 e2 : Z) :
  let T := (Zdigits2 (Zpos m1) + e1) - (Zdigits2 (Zpos m2) + e2) in
  let f := SFdiv 24 128 (S754_finite false m1 e1) (S754_finite false m2 e2) in
  -148 <= T ->
  f = S754_infinity false \/ (nonneg f /\ 2 ^ (T - 1 + 149) <= V f).
Proof.
  intros T f HT. subst f. cbn [SFdiv xorb]. unfold SFdiv_core_binary.
  fold fexp32.
  set (d1 := Zdigits2 (Zpos m1)) in *. set (d2 := Zdigits2 (Zpos m2)) in *.
  fold T.
  set (e' := Z.min (fexp32 T) (e1 - e2)).
  set (s := e1 - e2 - e').
  assert (Hs : 0 <= s) by (unfold s, e'; lia).
  set (m' := match s with
             | 0 => Z.pos m1
             | Z.pos _ => Z.shiftl (Z.pos m1) s
             | Z.neg _ => 0
             end).
  assert (Hm' : m' = Zpos m1 * 2 ^ s) by (apply shift_match; exact Hs).
  clearbody m'.
  pose proof (Z_div_mod m' (Zpos m2) ltac:(lia)) as Hdm.
  destruct (Z.div_eucl m' (Z.pos m2)) as [q r] eqn:Edm.
  destruct Hdm as [Hq Hr].
  pose proof (Zdigits2_bounds (Zpos m1) ltac:(lia)) as [Lo1 Hi1].
  fold d1 in Lo1, Hi1.
  pose proof (Zdigits2_bounds (Zpos m2) ltac:(lia)) as [Lo2 Hi2].
  fold d2 in Lo2, Hi2.
  pose proof (Zdigits2_pos (Zpos m1) ltac:(lia)) as P1. fold d1 in P1.
  pose proof (Zdigits2_pos (Zpos m2) ltac:(lia)) as P2. fold d2 in P2.
  assert (HS : 0 < 2 ^ s) by (apply Z.pow_pos_nonneg; lia).
  assert (Hq0 : 0 <= q) by nia.
  assert (Hds : 1 <= d1 + s - d2).
  { pose proof (fexp32_unfold T). unfold s, e', T in *. lia. }
  assert (Hlo : d1 + s - d2 <= Zdigits2 q).
  { apply Zdigits2_lower; [exact Hq0| |lia].
    assert (Hlow : 2 ^ (d1 - 1) * 2 ^ s <= m') by nia.
    rewrite <- Z.pow_add_r in Hlow by lia.
    assert (Hup : Zpos m2 * 2 ^ (d1 + s - d2 - 1)
                  < 2 ^ d2 * 2 ^ (d1 + s - d2 - 1)).
    { apply Z.mul_lt_mono_pos_r; [apply Z.pow_pos_nonneg; lia|lia]. }
    rewrite <- Z.pow_add_r in Hup by lia.
    replace (d2 + (d1 + s - d2 - 1)) with (d1 - 1 + s) in Hup by lia.
    assert (Zpos m2 * 2 ^ (d1 + s - d2 - 1) < Zpos m2 * (q + 1)) by nia.
    apply Z.mul_lt_mono_pos_l in H; lia. }
  assert (Hqp : 0 < q).
  { destruct (Z.eq_dec q 0) as [->|]; [cbn [Zdigits2] in Hlo; lia | lia]. }
  assert (Hhi : Zdigits2 q + e' <= Z.max (T + 1) (e1 - e2)).
  { assert (Zdigits2 q <= d1 + s - d2 + 1); [|unfold T, s in *; lia].
    pose proof (Zdigits2_bounds q ltac:(lia)) as [Loq _].
    pose proof (Zdigits2_pos q ltac:(lia)) as Pq.
    destruct (Z.le_gt_cases (Zdigits2 q) (d1 + s - d2 + 1)) as [H'|H'];
      [exact H'|].
    exfalso.
    assert (Hup : m' < 2 ^ d1 * 2 ^ s) by nia.
    rewrite <- Z.pow_add_r in Hup by lia.
    assert (Hq2 : 2 ^ (d2 - 1) * 2 ^ (Zdigits2 q - 1) <= Zpos m2 * q).
    { apply Z.mul_le_mono_nonneg; try lia; apply Z.pow_nonneg; lia. }
    rewrite <- Z.pow_add_r in Hq2 by lia.
    assert (2 ^ (d1 + s) <= 2 ^ (d2 - 1 + (Zdigits2 q - 1)))
      by (apply Z.pow_le_mono_r; lia).
    lia. }
  assert (Hpre : e' <= fexp32 (Zdigits2 q + e')).
  { apply Z.le_trans with (fexp32 T); [unfold e'; lia|].
    apply fexp32_mono. unfold T, s in *. lia. }
  assert (HTq : T <= Zdigits2 q + e') by (unfold T, s in *; lia).
  destruct (binary_round_aux_lower q e' (new_location (Zpos m2) r) Hqp Hpre
              ltac:(lia)) as [E|[N B]]; [left; exact E|right].
  split; [exact N|].
  apply Z.le_trans with (2 ^ (Zdigits2 q + e' - 1 + 149)); [|exact B].
  apply Z.pow_le_mono_r; lia.
Qed.

(** The same for the product of a normal float and a positive float. *)
Lemma SFmul_lower (m1 m2 : positive) (e1 e2 : Z) :
  24 <= Zdigits2 (Zpos m1) ->
  let T := Zdigits2 (Zpos m1) + Zdigits2 (Zpos m2) + e1 + e2 - 1 in
  let f := SFmul 24 128 (S754_finite false m1 e1) (S754_finite false m2 e2) in
  -148 <= T ->
  f = S754_infinity false \/ (nonneg f /\ 2 ^ (T - 1 + 149) <= V f).
Proof.
  intros H24 T f HT. subst f. cbn [SFmul xorb].
  pose proof (Zdigits2_bounds (Zpos m1) ltac:(lia)) as [Lo1 Hi1].
  pose proof (Zdigits2_bounds (Zpos m2) ltac:(lia)) as [Lo2 Hi2].
  pose proof (Zdigits2_pos (Zpos m2) ltac:(lia)) as P2.
  set (d1 := Zdigits2 (Zpos m1)) in *. set (d2 := Zdigits2 (Zpos m2)) in *.
  assert (Hd : d1 + d2 - 1 <= Zdigits2 (Zpos (m1 * m2)) <= d1 + d2).
  { rewrite Pos2Z.inj_mul. split.
    - apply Zdigits2_lower; [lia| |lia].
      replace (d1 + d2 - 1 - 1) with ((d1 - 1) + (d2 - 1)) by lia.
      rewrite Z.pow_add_r by lia. apply Z.mul_le_mono_nonneg; try lia;
        apply Z.pow_nonneg; lia.
    - apply Zdigits2_upper; [lia| |lia].
      rewrite Z.pow_add_r by lia. apply Z.mul_lt_mono_nonneg; lia. }
  assert (Hpre : e1 + e2 <= fexp32 (Zdigits2 (Zpos (m1 * m2)) + (e1 + e2))).
  { rewrite fexp32_unfold. lia. }
  destruct (binary_round_aux_lower (Zpos (m1 * m2)) (e1 + e2) loc_Exact
              ltac:(lia) Hpre ltac:(unfold T in HT; lia))
    as [E|[N B]]; [left; exact E|right].
  split; [exact N|].
  apply Z.le_trans with (2 ^ (Zdigits2 (Zpos (m1 * m2)) + (e1 + e2) - 1 + 149));
    [|exact B].
  apply Z.pow_le_mono_r; [lia|]. unfold T. lia.
Qed.

(** The magnitude of [(float)z] is the number of binary digits of [z]. *)
Lemma of_Z_digits (z : Z) :
  1 <= z < 2 ^ 32 ->
  exists m e, of_Z z = S754_finite false m e /\ bounded 24 128 m e = true /\
              Zdigits2 z <= Zdigits2 (Zpos m) + e /\
              (z < 2 ^ 24 -> Zdigits2 (Zpos m) + e = Zdigits2 z).
Proof.
  intros Hz. destruct (of_Z_pos z Hz) as (m & e & E & B & D).
  exists m, e. split; [exact E|]. split; [exact B|].
  destruct (bounded_inv _ _ B) as [C _].
  destruct (canonical_digits _ _ C) as (Le & _).
  pose proof (Zdigits2_bounds z ltac:(lia)) as [Lo Hi].
  pose proof (Zdigits2_pos z ltac:(lia)) as Pa.
  set (a := Zdigits2 z) in *.
  assert (Ha : a <= 32).
  { destruct (Z.le_gt_cases a 32) as [H|H]; [exact H|].
    assert (2 ^ 32 <= 2 ^ (a - 1)) by (apply Z.pow_le_mono_r; lia). lia. }
  assert (N : nonneg (of_Z z)) by (rewrite E; exact B).
  split.
  - (* rounding does not go below the power of two under [z] *)
    assert (R : rounds (z * 2 ^ 149) (of_Z z)).
    { destruct z as [|p|p]; try lia. exists p, 0.
      split; [lia|]. split; [reflexivity|]. reflexivity. }
    assert (BF : bounded 24 128 8388608 (a - 24) = true).
    { apply bounded_intro; [|lia]. apply canonical_iff.
      change (Zdigits2 8388608) with 24. rewrite fexp32_unfold. lia. }
    assert (VF : V (S754_finite false 8388608 (a - 24)) = 2 ^ (a - 1 + 149)).
    { cbn [V]. change (Z.pos 8388608) with (2 ^ 23).
      rewrite <- Z.pow_add_r by lia. f_equal. lia. }
    pose proof (rounds_ge _ _ (S754_finite false 8388608 (a - 24)) R BF) as G.
    rewrite VF in G.
    assert (Hx : 2 ^ (a - 1 + 149) <= z * 2 ^ 149).
    { rewrite Z.pow_add_r by lia. apply Z.mul_le_mono_nonneg_r; [|exact Lo].
      apply Z.pow_nonneg; lia. }
    specialize (G Hx N). rewrite E in G. cbn [V] in G.
    rewrite <- VF in G. cbn [V] in G.
    pose proof (digits_order 8388608 m (a - 24) e ltac:(lia) Le G) as O.
    change (Zdigits2 8388608) with 24 in O. lia.
  - intros H24. destruct (of_Z_exact z ltac:(lia)) as [_ Ev].
    rewrite E in Ev. cbn [V] in Ev.
    destruct z as [|p|p]; try lia.
    assert (O1 : Zdigits2 (Zpos m) + e <= Zdigits2 (Zpos p) + 0).
    { apply digits_order; [exact Le | lia |]. rewrite Ev. cbn. lia. }
    assert (O2 : Zdigits2 (Zpos p) + 0 <= Zdigits2 (Zpos m) + e).
    { apply digits_order; [lia | exact Le |]. rewrite Ev. cbn. lia. }
    unfold a. lia.
Qed.

(** The largest step of a tick is more than 16 % of full scale for each
    ramp time the tick is long: [maxDelta * rampTimeMs > 16 * dt]. *)
Lemma maxDeltaOf_lower (dt ramp : Z) :
  1 <= dt < 2 ^ 32 -> 1 <= ramp < 2 ^ 24 ->
  16 * dt * 2 ^ 149 < V (maxDeltaOf dt ramp) * ramp.
Proof.
  intros Hdt Hramp.
  pose proof (maxDeltaOf_nonneg dt ramp Hdt ltac:(lia)) as N.
  revert N. unfold maxDeltaOf, mul, div.
  change prec with 24. change emax with 128.
  destruct (of_Z_digits dt Hdt) as (m1 & e1 & -> & B1 & D1 & _).
  destruct (of_Z_digits ramp ltac:(lia)) as (m2 & e2 & -> & B2 & _ & D2).
  specialize (D2 ltac:(lia)).
  pose proof (Zdigits2_bounds dt ltac:(lia)) as [Loa Hia].
  pose proof (Zdigits2_bounds ramp ltac:(lia)) as [Lob Hib].
  pose proof (Zdigits2_pos dt ltac:(lia)) as Pa.
  pose proof (Zdigits2_pos ramp ltac:(lia)) as Pb.
  set (a := Zdigits2 dt) in *. set (b := Zdigits2 ramp) in *.
  assert (Hb : b <= 24).
  { destruct (Z.le_gt_cases b 24) as [H|H]; [exact H|].
    assert (2 ^ 24 <= 2 ^ (b - 1)) by (apply Z.pow_le_mono_r; lia). lia. }
  change hundred with (S754_finite false 13107200 (-17)).
  pose proof (SFdiv_lower m1 m2 e1 e2) as L. cbv zeta in L.
  specialize (L ltac:(lia)).
  set (dv := SFdiv 24 128 (S754_finite false m1 e1) (S754_finite false m2 e2))
    in *.
  destruct L as [->|[Nd Bd]]; [intros []|].
  assert (P0 : 0 < 2 ^ (Zdigits2 (Z.pos m1) + e1 - (Zdigits2 (Z.pos m2) + e2)
                        - 1 + 149)) by (apply Z.pow_pos_nonneg; lia).
  destruct (nonneg_finite dv Nd) as [[sd Ed]|(m3 & e3 & Ed & B3)];
    rewrite Ed in Bd |- *; [cbn [V] in Bd; lia|].
  cbn [V] in Bd.
  destruct (bounded_inv _ _ B3) as [C3 _].
  destruct (canonical_digits _ _ C3) as (Le3 & _).
  assert (O : a - b <= Zdigits2 (Zpos m3) + e3).
  { pose proof (digits_order 1 m3 (a - b - 1) e3 ltac:(lia) Le3) as O.
    change (Zdigits2 1) with 1 in O.
    assert (2 ^ (a - b - 1 + 149)
            <= 2 ^ (Zdigits2 (Z.pos m1) + e1 - (Zdigits2 (Z.pos m2) + e2)
                    - 1 + 149)) by (apply Z.pow_le_mono_r; lia).
    lia. }
  pose proof (SFmul_lower 13107200 m3 (-17) e3 ltac:(cbn; lia)) as L.
  cbv zeta in L. change (Zdigits2 13107200) with 24 in L.
  specialize (L ltac:(lia)).
  destruct L as [->|[Nm Bm]]; [intros []|]. intros _.
  set (vm := V (SFmul 24 128 (S754_finite false 13107200 (-17))
                  (S754_finite false m3 e3))) in *.
  assert (Hv : 2 ^ (a - b + 154) <= vm).
  { apply Z.le_trans with (2 ^ (24 + Zdigits2 (Z.pos m3) + -17 + e3 - 1 - 1 + 149));
      [|exact Bm].
    apply Z.pow_le_mono_r; lia. }
  assert (Hp : 2 ^ (a - b + 154) * 2 ^ (b - 1) = 2 ^ a * (16 * 2 ^ 149)).
  { change (16 * 2 ^ 149) with (2 ^ 153). rewrite <- !Z.pow_add_r by lia.
    f_equal. lia. }
  assert (P1 : 0 < 2 ^ (a - b + 154)) by (apply Z.pow_pos_nonneg; lia).
  assert (H1 : 2 ^ (a - b + 154) * 2 ^ (b - 1) <= vm * ramp)
    by (apply Z.mul_le_mono_nonneg; lia).
  assert (P2 : 0 < 2 ^ 149) by (apply Z.pow_pos_nonneg; lia).
  nia.
Qed.

(** A step of the ramped branch lands on the target or leaves less of the
    way than before, by the largest step up to the rounding of one
    addition. *)
Lemma rampCore_progress (t o m : spec_float) :
  nonneg t -> nonneg o -> nonneg m -> V o < 2 ^ 156 -> V t < 2 ^ 156 ->
  rampCore t o m = t \/
  Z.abs (V t - V (rampCore t o m)) < Z.abs (V t - V o) - V m + 2 ^ 132.
Proof.
  intros Ht Ho Nm Bo Bt.
  unfold rampCore, sub, add, leb, ltb, fabs, neg, zero.
  change prec with 24. change emax with 128. cbv zeta.
  pose proof (V_nonneg t Ht) as Pt. pose proof (V_nonneg o Ho) as Po.
  pose proof (V_nonneg m Nm) as Pm.
  destruct (Z.le_gt_cases (V o) (V t)) as [Hle|Hgt].
  - pose proof (SFsub_approx t o Ht Ho Hle) as HD.
    pose proof (approx_abs _ _ HD) as HA.
    destruct (approx_le _ _ t HA Ht ltac:(lia)) as [NA LA].
    rewrite (SFleb_nonneg _ _ NA Nm).
    destruct (Z.leb_spec (V (SFabs (SFsub 24 128 t o))) (V m)) as [Hs|Hs];
      [left; reflexivity|right].
    assert (Hx : V m < V t - V o).
    { destruct (Z.lt_ge_cases (V m) (V t - V o)) as [H|H]; [exact H|].
      destruct (approx_le _ _ m HA Nm H). lia. }
    destruct (approx_le _ _ t HD Ht ltac:(lia)) as [ND _].
    destruct (SFabs_nonneg _ ND) as [_ EV].
    rewrite (SFltb_nonneg _ _ nonneg_zero ND). cbn [V].
    destruct (Z.ltb_spec 0 (V (SFsub 24 128 t o))) as [_|Hc]; [|lia].
    pose proof (SFadd_approx o m Ho Nm) as HS.
    destruct (approx_le _ _ t HS Ht ltac:(lia)) as [NS LS].
    pose proof (approx_err _ _ HS NS ltac:(lia)). lia.
  - destruct (SFsub_swap t o Ht Ho Hgt) as [Eabs Esign].
    rewrite Eabs, Esign.
    pose proof (SFsub_approx o t Ho Ht ltac:(lia)) as HD.
    pose proof (approx_abs _ _ HD) as HA.
    destruct (approx_le _ _ o HA Ho ltac:(lia)) as [NA LA].
    rewrite (SFleb_nonneg _ _ NA Nm).
    destruct (Z.leb_spec (V (SFabs (SFsub 24 128 o t))) (V m)) as [Hs|Hs];
      [left; reflexivity|right].
    assert (Hx : V m < V o - V t).
    { destruct (Z.lt_ge_cases (V m) (V o - V t)) as [H|H]; [exact H|].
      destruct (approx_le _ _ m HA Nm H). lia. }
    pose proof (SFadd_opp o m Ho Nm ltac:(lia)) as HS.
    destruct (approx_le _ _ o HS Ho ltac:(lia)) as [NS LS].
    pose proof (approx_ge _ _ t HS Ht ltac:(lia) NS) as GS.
    pose proof (approx_err _ _ HS NS ltac:(lia)). lia.
Qed.

End F32Lower.

(** A tick of the ramp lands on the target or covers more than 15 % of the
    nominal step [100 * dt / rampTimeMs]. *)
Lemma rampStep_progress (ramp dt t : Z) (o : F32.float) :
  0 <= t <= 100 -> 0 <= ramp <= 10000 -> 0 <= dt < 2 ^ 32 ->
  OutputPct_ok o ->
  let o' := clampFloat (rampStep ramp dt t o) F32.zero F32.hundred in
  o' = F32.of_Z t \/
  (1 <= dt /\
   ramp * Z.abs (F32.V (F32.of_Z t) - F32.V o') + 15 * dt * 2 ^ 149
   < ramp * Z.abs (F32.V (F32.of_Z t) - F32.V o)).
Proof.
  intros Ht Hr Hd Ho o'. subst o'.
  destruct (OutputPct_ok_of_Z t Ht) as [Ok Vt].
  rewrite rampStep_eq.
  destruct (Z.eqb_spec ramp 0) as [R0|R0]; cbn [orb];
    [left; now apply clampFloat_id|].
  destruct (Z.eqb_spec dt 0) as [D0|D0]; [left; now apply clampFloat_id|].
  assert (Nm : F32.nonneg (maxDeltaOf dt ramp))
    by (apply F32Facts.maxDeltaOf_nonneg; lia).
  assert (Nmi : F32.nonneg_inf (maxDeltaOf dt ramp)).
  { revert Nm. destruct (maxDeltaOf dt ramp) as [?|[|]| |[|] ? ?];
      cbn; tauto. }
  pose proof Ok as [Nt Bt]. pose proof Ho as [No Bo].
  destruct (F32Facts.rampCore_spec (F32.of_Z t) o _ Nt No Nmi)
    as (N' & Btw & _).
  assert (Ok' : OutputPct_ok (rampCore (F32.of_Z t) o (maxDeltaOf dt ramp)))
    by (split; [exact N' | lia]).
  rewrite (clampFloat_id _ Ok').
  rewrite V_hundred in Bt, Bo.
  assert (P156 : 100 * 2 ^ 149 < 2 ^ 156).
  { change (2 ^ 156) with (128 * 2 ^ 149).
    assert (0 < 2 ^ 149) by (apply Z.pow_pos_nonneg; lia). lia. }
  destruct (F32Lower.rampCore_progress (F32.of_Z t) o _ Nt No Nm
              ltac:(lia) ltac:(lia)) as [E|P]; [left; exact E|right].
  split; [lia|].
  pose proof (F32Lower.maxDeltaOf_lower dt ramp ltac:(lia) ltac:(lia)) as L.
  set (D' := Z.abs (F32.V (F32.of_Z t)
                    - F32.V (rampCore (F32.of_Z t) o (maxDeltaOf dt ramp)))) in *.
  set (D := Z.abs (F32.V (F32.of_Z t) - F32.V o)) in *.
  set (vm := F32.V (maxDeltaOf dt ramp)) in *.
  assert (P149 : 2 ^ 149 = 131072 * 2 ^ 132) by reflexivity.
  assert (P132 : 0 < 2 ^ 132) by (apply Z.pow_pos_nonneg; lia).
  rewrite P149 in *. set (u := 2 ^ 132) in *.
  assert (H1 : ramp * D' < ramp * (D - vm + u))
    by (apply Z.mul_lt_mono_pos_l; lia).
  rewrite Z.mul_add_distr_l, Z.mul_sub_distr_l in H1.
  assert (H2 : ramp * u <= 10000 * u) by (apply Z.mul_le_mono_nonneg_r; lia).
  assert (H3 : 1 * u <= dt * u) by (apply Z.mul_le_mono_nonneg_r; lia).
  lia.
Qed.

(** X22: a tick of the ramp makes progress.  An armed tick with the target
    in 0..100, the ramp time in 0..10000 ms (the range [RAMP] accepts) and
    the output a number of [[0, 100]] either puts the output on the target,
    or at least 1 ms has passed since the last tick and the output has come
    closer to the target by more than [15 * dt / rampTimeMs] percent.  The
    nominal step is [100 * dt / rampTimeMs]; the bound follows the float
    computation of [maxDelta] by the magnitudes of its operands only, which
    makes it coarse, and is enough for the ramp to end.  Values are in
    units of [2^-149]. *)
Theorem ramp_tick_makes_progress (w : World) :
  let s := globals w in
  let dt := tick_dt w in
  let target := F32.of_Z (g_targetPct s) in
  let out := g_outputPct s in
  let out' := g_outputPct (globals (exec applyThrottleWithRamping w)) in
  g_armed s = true ->
  0 <= g_targetPct s <= 100 ->
  0 <= g_rampTimeMs s <= 10000 ->
  OutputPct_ok out ->
  out' = target \/
  (1 <= dt /\
   g_rampTimeMs s * Z.abs (F32.V target - F32.V out') + 15 * dt * 2 ^ 149
   < g_rampTimeMs s * Z.abs (F32.V target - F32.V out)).
Proof.
  intros s dt target out out' Ha Ht Hr Ho.
  assert (E : out' = clampFloat
                (rampStep (g_rampTimeMs s) dt (g_targetPct s) out)
                F32.zero F32.hundred).
  { unfold out', exec.
    rewrite (run_applyThrottleWithRamping_armed w Ha). reflexivity. }
  rewrite E.
  apply rampStep_progress;
    [exact Ht | exact Hr | apply tick_dt_range | exact Ho].
Qed.

Section Convergence.

Variable toFloat : string -> F32.float.
Variable ofFloat : F32.float -> Z -> string.

(** What an iteration of [loop] with no line waiting does to an armed
    sketch: one tick of the ramp and 5 ms. *)
Lemma exec_loop_None (w : World) :
  g_armed (globals w) = true ->
  let s := globals w in
  let w' := exec (loop toFloat ofFloat None) w in
  clock w' = clock w + 5 /\
  g_armed (globals w') = true /\
  g_targetPct (globals w') = g_targetPct s /\
  g_rampTimeMs (globals w') = g_rampTimeMs s /\
  g_lastLoopMs (globals w') = uint32_of (clock w) /\
  g_outputPct (globals w')
  = clampFloat (rampStep (g_rampTimeMs s) (tick_dt w) (g_targetPct s)
                  (g_outputPct s)) F32.zero F32.hundred.
Proof.
  intros Ha s w'.
  set (w1 := exec applyThrottleWithRamping w).
  assert (E1 : w1 = _) by
    (unfold w1, exec; rewrite (run_applyThrottleWithRamping_armed w Ha);
     reflexivity).
  cbv zeta in E1. fold s in E1.
  set (w2 := exec (periodicCsvLogging ofFloat) w1).
  assert (E2 : exists s2 ev,
            w2 = {| globals := s2; clock := clock w1; events := ev |} /\
            (s2 = globals w1 \/ exists v, s2 = set_lastLogMs v (globals w1))).
  { unfold w2. destruct (g_logEnabled (globals w1)) eqn:L.
    - rewrite (run_periodicCsvLogging ofFloat w1 L). cbv zeta.
      destruct (logDue (globals w1) (uint32_of (clock w1))).
      + eexists; eexists; split; [reflexivity|]. right. eexists; reflexivity.
      + exists (globals w1), (events w1). split; [now destruct w1|now left].
    - exists (globals w1), (events w1). split; [|now left].
      unfold periodicCsvLogging. rewrite exec_bind. unfold get at 1.
      cbn [fst]. rewrite L. now destruct w1. }
  assert (W : w' = exec (delay 5) w2).
  { unfold w', loop, appLoop, serialCommandInput. rewrite !exec_bind.
    cbn [fst]. change (exec (ret tt) w) with w. reflexivity. }
  destruct E2 as (s2 & ev & E2 & Hs2).
  rewrite W, E2. clearbody w1 w2 w'. subst w1.
  unfold tick_dt. fold s.
  cbn [exec delay snd globals clock events] in *.
  destruct Hs2 as [->|[v ->]];
    cbn [g_lastLoopMs g_targetPct g_rampTimeMs g_armed g_outputPct
         set_outputPct set_lastLoopMs set_lastLogMs];
    repeat split; assumption.
Qed.

(** The same with what the ramp needs to know of the state it leaves. *)
Lemma loop_None_step (w : World) :
  let s := globals w in
  let t := F32.of_Z (g_targetPct s) in
  let w' := exec (loop toFloat ofFloat None) w in
  g_armed s = true -> 0 <= g_targetPct s <= 100 ->
  0 <= g_rampTimeMs s <= 10000 -> OutputPct_ok (g_outputPct s) ->
  (clock w' = clock w + 5 /\
   g_armed (globals w') = true /\
   g_targetPct (globals w') = g_targetPct s /\
   g_rampTimeMs (globals w') = g_rampTimeMs s /\
   OutputPct_ok (g_outputPct (globals w')) /\
   (tick_dt w' = 0 \/ tick_dt w' = 5)) /\
  (g_outputPct s = t -> g_outputPct (globals w') = t) /\
  (g_outputPct (globals w') = t \/
   (1 <= tick_dt w /\
    g_rampTimeMs s * Z.abs (F32.V t - F32.V (g_outputPct (globals w')))
    + 15 * tick_dt w * 2 ^ 149
    < g_rampTimeMs s * Z.abs (F32.V t - F32.V (g_outputPct s)))).
Proof.
  intros s t w' Ha Ht Hr Ho.
  destruct (exec_loop_None w Ha) as (Hc & Ha' & Ht' & Hr' & Hl & Eo).
  fold w' s in Hc, Ha', Ht', Hr', Hl, Eo.
  pose proof (tick_dt_range w) as Hd.
  rewrite Eo. split; [|split].
  - repeat (split; [assumption|]). split.
    + apply rampStep_in_range; [exact Ht | lia | exact Hd | exact Ho].
    + unfold tick_dt. rewrite Hl, Hc.
      destruct (Z.eqb_spec (uint32_of (clock w)) 0); [now left|right].
      apply uint32_elapsed. lia.
  - intros E. rewrite E. unfold t.
    rewrite rampStep_at_target by (exact Ht || lia || exact Hd).
    apply clampFloat_id, OutputPct_ok_of_Z, Ht.
  - apply rampStep_progress; [exact Ht | exact Hr | exact Hd | exact Ho].
Qed.

(** Loop iterations whose ticks are 5 ms apart: the way left shrinks by more
    than [75 / rampTimeMs] percent per iteration. *)
Lemma ramp_loops (n : nat) (w : World) :
  let s := globals w in
  let t := F32.of_Z (g_targetPct s) in
  let w' := exec (run toFloat ofFloat (repeat (Loop None) n)) w in
  g_armed s = true -> 0 <= g_targetPct s <= 100 ->
  0 <= g_rampTimeMs s <= 10000 -> OutputPct_ok (g_outputPct s) ->
  tick_dt w = 0 \/ tick_dt w = 5 ->
  g_outputPct s = t \/
  g_rampTimeMs s * Z.abs (F32.V t - F32.V (g_outputPct s))
  < 75 * Z.of_nat n * 2 ^ 149 ->
  g_outputPct (globals w') = t /\
  g_targetPct (globals w') = g_targetPct s /\
  clock w' = clock w + 5 * Z.of_nat n.
Proof.
  cbv zeta. revert w. induction n as [|n IH]; intros w Ha Ht Hr Ho Hd Hm.
  - cbn [repeat run]. change (exec (ret tt) w) with w.
    split; [|split; [reflexivity|cbn; lia]].
    destruct Hm as [E|Hm]; [exact E|].
    pose proof (Z.abs_nonneg (F32.V (F32.of_Z (g_targetPct (globals w)))
                              - F32.V (g_outputPct (globals w)))).
    assert (0 <= g_rampTimeMs (globals w)
                 * Z.abs (F32.V (F32.of_Z (g_targetPct (globals w)))
                          - F32.V (g_outputPct (globals w))))
      by (apply Z.mul_nonneg_nonneg; lia).
    cbn in Hm. lia.
  - cbn [repeat run]. rewrite exec_bind. cbn [react fst].
    destruct (loop_None_step w Ha Ht Hr Ho)
      as ((Hc & Ha1 & Ht1 & Hr1 & Ho1 & Hd1) & Hkeep & Hstep).
    set (w1 := exec (loop toFloat ofFloat None) w) in *.
    destruct (IH w1 Ha1 ltac:(rewrite Ht1; exact Ht)
                ltac:(rewrite Hr1; exact Hr) Ho1 Hd1) as (E1 & E2 & E3).
    + rewrite Ht1, Hr1.
      destruct Hm as [E|Hm]; [left; now apply Hkeep|].
      destruct Hstep as [E|[D1 Hstep]]; [now left|right].
      assert (P : 0 < 2 ^ 149) by (apply Z.pow_pos_nonneg; lia).
      assert (D5 : 5 * 2 ^ 149 <= tick_dt w * 2 ^ 149)
        by (apply Z.mul_le_mono_nonneg_r; lia).
      rewrite Nat2Z.inj_succ in Hm. lia.
    + rewrite E1, E2, E3, Ht1, Hc, Nat2Z.inj_succ.
      split; [reflexivity|]. split; [reflexivity|lia].
Qed.

(** X23: the ramp reaches the target.  Take an armed sketch with the target
    in 0..100, the ramp time in 0..10000 ms and the output a number of
    [[0, 100]], and let [loop] run [n] times with no line waiting on the
    serial port (CSV logging may be on or off).  If [n - 1] is at least
    4/3 of the ramp time in ms, the output is the target after these
    iterations, which take [5 * n] ms, and the target is what it was.  The
    first tick may find any time stamp; each later one comes 5 ms after the
    last, or finds the time stamp 0 and snaps the output onto the target. *)
Theorem ramp_reaches_target (w : World) (n : nat) :
  let s := globals w in
  let w' := exec (run toFloat ofFloat (repeat (Loop None) n)) w in
  g_armed s = true ->
  0 <= g_targetPct s <= 100 ->
  0 <= g_rampTimeMs s <= 10000 ->
  OutputPct_ok (g_outputPct s) ->
  4 * g_rampTimeMs s <= 3 * (Z.of_nat n - 1) ->
  g_outputPct (globals w') = F32.of_Z (g_targetPct s) /\
  g_targetPct (globals w') = g_targetPct s /\
  clock w' = clock w + 5 * Z.of_nat n.
Proof.
  intros s w' Ha Ht Hr Ho Hn. subst w'.
  destruct n as [|n]; [change (Z.of_nat 0) with 0 in Hn; lia|].
  rewrite Nat2Z.inj_succ in Hn |- *.
  cbn [repeat run]. rewrite exec_bind. cbn [react fst].
  destruct (loop_None_step w Ha Ht Hr Ho)
    as ((Hc & Ha1 & Ht1 & Hr1 & Ho1 & Hd1) & _ & Hstep).
  fold s in Hc, Ha1, Ht1, Hr1, Ho1, Hd1, Hstep.
  set (w1 := exec (loop toFloat ofFloat None) w) in *.
  destruct (ramp_loops n w1 Ha1 ltac:(rewrite Ht1; exact Ht)
              ltac:(rewrite Hr1; exact Hr) Ho1 Hd1) as (E1 & E2 & E3).
  - rewrite Ht1, Hr1.
    destruct Hstep as [E|[D1 Hstep]]; [now left|right].
    destruct (OutputPct_ok_of_Z (g_targetPct s) Ht) as [[Nt _] Vt].
    destruct Ho as [No Bo]. rewrite V_hundred in Bo.
    pose proof (F32Facts.V_nonneg _ No) as Po.
    set (u := 2 ^ 149) in *.
    assert (P : 0 < u) by (apply Z.pow_pos_nonneg; lia).
    assert (Pt : 0 <= g_targetPct s * u <= 100 * u).
    { split; [apply Z.mul_nonneg_nonneg; lia|].
      apply Z.mul_le_mono_nonneg_r; lia. }
    assert (D : g_rampTimeMs s
                * Z.abs (F32.V (F32.of_Z (g_targetPct s))
                         - F32.V (g_outputPct s))
                <= g_rampTimeMs s * (100 * u))
      by (apply Z.mul_le_mono_nonneg_l; lia).
    assert (D2 : (4 * g_rampTimeMs s) * u <= (3 * Z.of_nat n) * u)
      by (apply Z.mul_le_mono_nonneg_r; lia).
    assert (D3 : 1 * u <= tick_dt w * u)
      by (apply Z.mul_le_mono_nonneg_r; lia).
    lia.
  - rewrite E1, E2, E3, Ht1, Hc.
    split; [reflexivity|]. split; [reflexivity|lia].
Qed.

End Convergence.

(** ** Worked instances *)


Lemma US_injects_clamped_pulse_witness :
  let h := handleTextCommand FloatText.toFloat FloatText.ofFloat in
  let w' := exec (h "US 1200") World_ramping in
  Str.startsWith (Str.toUpperCase (Str.trim "US 1200")) "US " = true /\
  globals w' = set_outputPct (F32.of_Z (g_targetPct (globals World_ramping)))
                 (globals World_ramping) /\
  g_targetPct (globals w') = g_targetPct (globals World_ramping).
Proof.
  intros h w'.
  assert (H : Str.startsWith (Str.toUpperCase (Str.trim "US 1200")) "US "
              = true) by reflexivity.
  destruct (US_injects_clamped_pulse FloatText.toFloat FloatText.ofFloat
              World_ramping "US 1200" H) as (Hg & Ht & _).
  split; [exact H|]. split; [exact Hg | exact Ht].
Defined.

Lemma numeric_arguments_are_clamped_witness :
  let h := handleTextCommand FloatText.toFloat FloatText.ofFloat in
  (Str.startsWith (Str.toUpperCase (Str.trim "SET 250")) "SET " = true /\
   g_targetPct (globals (exec (h "SET 250") World_unarmed)) = 100) /\
  (Str.startsWith (Str.toUpperCase (Str.trim "ramp -5")) "RAMP " = true /\
   g_rampTimeMs (globals (exec (h "ramp -5") World_unarmed)) = 0) /\
  (Str.startsWith (Str.toUpperCase (Str.trim "LOG PERIOD 5")) "LOG PERIOD "
     = true /\
   g_logPeriodMs (globals (exec (h "LOG PERIOD 5") World_unarmed)) = 20).
Proof.
  intros h.
  assert (H1 : Str.startsWith (Str.toUpperCase (Str.trim "SET 250")) "SET "
               = true) by reflexivity.
  assert (H2 : Str.startsWith (Str.toUpperCase (Str.trim "ramp -5")) "RAMP "
               = true) by reflexivity.
  assert (H3 : Str.startsWith (Str.toUpperCase (Str.trim "LOG PERIOD 5"))
                 "LOG PERIOD " = true) by reflexivity.
  destruct (numeric_arguments_are_clamped FloatText.toFloat FloatText.ofFloat
              World_unarmed "SET 250") as (A & _ & _).
  destruct (numeric_arguments_are_clamped FloatText.toFloat FloatText.ofFloat
              World_unarmed "ramp -5") as (_ & B & _).
  destruct (numeric_arguments_are_clamped FloatText.toFloat FloatText.ofFloat
              World_unarmed "LOG PERIOD 5") as (_ & _ & C).
  split; [split; [exact H1 | exact (proj1 (A H1))]|].
  split; [split; [exact H2 | exact (proj1 (B H2))]|].
  split; [exact H3 | exact (proj1 (C H3))].
Defined.

Lemma controlPad_acts_on_press_only_witness :
  let h := handleTextCommand FloatText.toFloat FloatText.ofFloat in
  Str.trim "!B11" = String "!" (String "B" (String "1" (String "1" ""))) /\
  Str.trim "!B10" = String "!" (String "B" (String "1" (String "0" ""))) /\
  g_targetPct (globals (exec (h "!B11") World_ramping)) = 100 /\
  exec (h "!B10") World_ramping
    = addEvents (cpadDebug_events (globals World_ramping) "!B10")
        World_ramping.
Proof.
  intros h.
  assert (H1 : Str.trim "!B11"
               = String "!" (String "B" (String "1" (String "1" ""))))
    by reflexivity.
  assert (H0 : Str.trim "!B10"
               = String "!" (String "B" (String "1" (String "0" ""))))
    by reflexivity.
  destruct (controlPad_acts_on_press_only FloatText.toFloat FloatText.ofFloat
              World_ramping "!B11" "1" "1" "" H1) as (_ & Hfull & _).
  destruct (controlPad_acts_on_press_only FloatText.toFloat FloatText.ofFloat
              World_ramping "!B10" "1" "0" "" H0) as (Hrel & _).
  split; [exact H1|]. split; [exact H0|]. split.
  - destruct (Hfull eq_refl eq_refl) as [_ E].
    unfold h. rewrite E. reflexivity.
  - apply Hrel. discriminate.
Defined.

Lemma STOP_bypasses_ramp_witness :
  let h := handleTextCommand FloatText.toFloat FloatText.ofFloat in
  let w := World_ramping in
  let w' := exec (h " stop ") w in
  EscConfig_ok (g_escCfg (globals w)) /\
  Str.toUpperCase (Str.trim " stop ") = "STOP" /\
  (g_armed (globals w) = true /\
   g_targetPct (globals w) = 80 /\
   g_rampTimeMs (globals w) = 300 /\
   0 < F32.V (g_outputPct (globals w))) /\
  g_targetPct (globals w') = 0 /\
  g_outputPct (globals w') = F32.zero /\
  g_rampTimeMs (globals w') = 300 /\
  clock w' = clock w /\
  exists rest,
    events w' = (events w ++ EscWrite 1500 :: rest)%list /\
    pulses rest = [].
Proof.
  intros h w w'.
  assert (H1 : EscConfig_ok (g_escCfg (globals World_ramping)))
    by (vm_compute; repeat split; discriminate).
  assert (H2 : Str.toUpperCase (Str.trim " stop ") = "STOP") by reflexivity.
  assert (Ha : g_armed (globals World_ramping) = true)
    by (vm_compute; reflexivity).
  assert (Ht : g_targetPct (globals World_ramping) = 80)
    by (vm_compute; reflexivity).
  assert (Hr : g_rampTimeMs (globals World_ramping) = 300)
    by (vm_compute; reflexivity).
  assert (Ho : 0 < F32.V (g_outputPct (globals World_ramping)))
    by (vm_compute; reflexivity).
  assert (Hn : usNeutral (g_escCfg (globals World_ramping)) = 1500)
    by (vm_compute; reflexivity).
  destruct (STOP_bypasses_ramp FloatText.toFloat FloatText.ofFloat
              World_ramping " stop " H1) as (T0 & O0 & Hkw & _).
  pose proof (Hkw (or_introl H2)) as E.
  split; [exact H1|]. split; [exact H2|].
  split; [repeat split; assumption|].
  unfold w', h, w. rewrite E. cbn [globals clock events].
  split; [exact T0|]. split; [exact O0|]. split; [exact Hr|].
  split; [reflexivity|].
  eexists. split; [rewrite Hn; reflexivity|].
  apply pulses_logLine.
Defined.

Lemma csv_log_is_gated_by_period_witness :
  let h := handleTextCommand FloatText.toFloat FloatText.ofFloat in
  let loop := appLoop FloatText.toFloat FloatText.ofFloat in
  let w := exec (h "LOG START") World_ready in
  let w1 := exec (serialCommandInput FloatText.toFloat FloatText.ofFloat None ;;
                  applyThrottleWithRamping) w in
  g_logEnabled (globals w1) = true /\
  events (exec (loop None) w)
    = (events w1 ++ [SerialPrintln "3500,LOG,0,1,0,0.00,1500, 0"])%list /\
  events (exec (loop None ;; loop None) w)
    = (events (exec (loop None) w) ++ [EscWrite 1500])%list.
Proof.
  intros h loop w w1.
  assert (H : g_logEnabled (globals w1) = true) by (vm_compute; reflexivity).
  destruct (csv_log_is_gated_by_period FloatText.toFloat FloatText.ofFloat
              w None H) as (_ & He & _).
  split; [exact H|]. split.
  - unfold loop. rewrite He. vm_compute. reflexivity.
  - vm_compute. reflexivity.
Defined.

Lemma ramp_tick_moves_toward_target_witness :
  let w := World_ramping in
  let s := globals w in
  let dt := tick_dt w in
  let target := F32.of_Z (g_targetPct s) in
  let out := g_outputPct s in
  let out' := g_outputPct (globals (exec applyThrottleWithRamping w)) in
  g_armed s = true /\
  g_targetPct s = 80 /\
  g_rampTimeMs s = 300 /\
  dt = 5 /\
  OutputPct_ok out /\
  OutputPct_ok out' /\
  (F32.V out <= F32.V out' <= F32.V target \/
   F32.V target <= F32.V out' <= F32.V out) /\
  Z.abs (F32.V out' - F32.V out)
  < F32.V (maxDeltaOf dt (g_rampTimeMs s)) + F32.spacing_below_128.
Proof.
  cbv zeta.
  assert (Ha : g_armed (globals World_ramping) = true)
    by (vm_compute; reflexivity).
  assert (Ht : g_targetPct (globals World_ramping) = 80)
    by (vm_compute; reflexivity).
  assert (Hr : g_rampTimeMs (globals World_ramping) = 300)
    by (vm_compute; reflexivity).
  assert (Hd : tick_dt World_ramping = 5) by (vm_compute; reflexivity).
  assert (Ho : OutputPct_ok (g_outputPct (globals World_ramping)))
    by (split; [vm_compute; reflexivity | vm_compute; discriminate]).
  assert (Ht' : 0 <= g_targetPct (globals World_ramping) <= 100)
    by (vm_compute; split; discriminate).
  assert (Hr' : 0 <= g_rampTimeMs (globals World_ramping) < 2 ^ 32)
    by (vm_compute; split; [discriminate | reflexivity]).
  assert (Hr0 : g_rampTimeMs (globals World_ramping) > 0)
    by (vm_compute; reflexivity).
  assert (Hd0 : tick_dt World_ramping > 0) by (vm_compute; reflexivity).
  pose proof (ramp_tick_moves_toward_target World_ramping Ha Ht' Hr' Ho)
    as H.
  cbv zeta in H. destruct H as (Ok & _ & _ & Hstep).
  destruct (Hstep Hr0 Hd0) as [Btw Bound].
  split; [exact Ha|]. split; [exact Ht|]. split; [exact Hr|].
  split; [exact Hd|]. split; [exact Ho|]. split; [exact Ok|].
  split; [exact Btw|exact Bound].
Defined.

Lemma control_state_stays_in_range_witness :
  let l := [Loop (Some "SET 250"); BleConnect; BleWrite "RAMP 99999";
            Loop None] in
  State_ok (globals World_boot) /\
  State_ok (globals (exec (run FloatText.toFloat FloatText.ofFloat l)
                       World_boot)) /\
  State_ok (globals (exec (setup FloatText.ofFloat ;;
                           run FloatText.toFloat FloatText.ofFloat l)
                       World_boot)).
Proof.
  intros l.
  assert (H : State_ok (globals World_boot)).
  { unfold State_ok, OutputPct_ok. cbn.
    repeat split; try lia; vm_compute; discriminate. }
  split; [exact H|].
  exact (control_state_stays_in_range FloatText.toFloat FloatText.ofFloat
           World_boot l H).
Defined.

Lemma every_pulse_is_neutral_or_forward_witness :
  let l := [Loop (Some "US 1200"); BleWrite "FULL"; Loop None] in
  let cfg := g_escCfg (globals World_boot) in
  EscConfig_ok cfg /\
  (exists out,
     events (exec (run FloatText.toFloat FloatText.ofFloat l) World_boot)
     = (events World_boot ++ out)%list /\
     Forall (PulseSafe cfg) (pulses out)) /\
  (exists out,
     events (exec (setup FloatText.ofFloat ;;
                   run FloatText.toFloat FloatText.ofFloat l) World_boot)
     = (events World_boot ++ out)%list /\
     Forall (PulseSafe cfg) (pulses out)).
Proof.
  intros l cfg.
  assert (H : EscConfig_ok cfg) by (unfold EscConfig_ok; simpl; lia).
  split; [exact H|].
  exact (every_pulse_is_neutral_or_forward FloatText.toFloat
           FloatText.ofFloat World_boot l H).
Defined.

Lemma armed_is_never_revoked_witness :
  let l := [Loop (Some "STOP"); BleDisconnect; BleWrite "US 900"] in
  g_armed (globals World_ready) = true /\
  g_armed (globals (exec (run FloatText.toFloat FloatText.ofFloat l)
                      World_ready)) = true.
Proof.
  intros l.
  assert (H : g_armed (globals World_ready) = true)
    by (vm_compute; reflexivity).
  split; [exact H|].
  exact (armed_is_never_revoked FloatText.toFloat FloatText.ofFloat
           World_ready l H).
Defined.

Lemma nothing_is_notified_while_disconnected_witness :
  let l := [Loop (Some "STATUS"); BleWrite "SET 10"; BleDisconnect] in
  let w' := exec (run FloatText.toFloat FloatText.ofFloat l) World_ready in
  g_deviceConnected (globals World_ready) = false /\
  ~ In BleConnect l /\
  g_deviceConnected (globals w') = false /\
  exists out,
    events w' = (events World_ready ++ out)%list /\ notifications out = [].
Proof.
  intros l w'.
  assert (H : g_deviceConnected (globals World_ready) = false)
    by (vm_compute; reflexivity).
  assert (Hl : ~ In BleConnect l)
    by (intros [A|[A|[A|[]]]]; discriminate A).
  split; [exact H|]. split; [exact Hl|].
  exact (nothing_is_notified_while_disconnected FloatText.toFloat
           FloatText.ofFloat World_ready l H Hl).
Defined.

Lemma blank_line_is_ignored_witness :
  let h := handleTextCommand FloatText.toFloat FloatText.ofFloat in
  blank "   " = true /\
  exec (h "   ") World_ready = World_ready /\
  exec (RxCallbacks_onWrite FloatText.toFloat FloatText.ofFloat "   ")
    World_ready = World_ready /\
  exec (loop FloatText.toFloat FloatText.ofFloat (Some "   ")) World_ready
  = exec (loop FloatText.toFloat FloatText.ofFloat None) World_ready.
Proof.
  intros h.
  assert (H : blank "   " = true) by reflexivity.
  split; [exact H|].
  exact (blank_line_is_ignored FloatText.toFloat FloatText.ofFloat "   "
           World_ready H).
Defined.

Lemma unknown_command_is_only_echoed_witness :
  let h := handleTextCommand FloatText.toFloat FloatText.ofFloat in
  blank " hello " = false /\
  isControlPad (Str.trim " hello ") = false /\
  recognised (Str.toUpperCase (Str.trim " hello ")) = false /\
  exec (h " hello ") World_ready
  = addEvents
      (logLine_events (globals World_ready)
         ("Unknown cmd: " ++ Str.trim " hello ")) World_ready.
Proof.
  intros h.
  assert (H1 : blank " hello " = false) by reflexivity.
  assert (H2 : isControlPad (Str.trim " hello ") = false) by reflexivity.
  assert (H3 : recognised (Str.toUpperCase (Str.trim " hello ")) = false)
    by reflexivity.
  split; [exact H1|]. split; [exact H2|]. split; [exact H3|].
  exact (unknown_command_is_only_echoed FloatText.toFloat FloatText.ofFloat
           " hello " World_ready H1 H2 H3).
Defined.

Lemma commands_ignore_case_and_blanks_witness :
  let h := handleTextCommand FloatText.toFloat FloatText.ofFloat in
  recognised (Str.toUpperCase (Str.trim " ramp 250 ")) = true /\
  Str.startsWith (Str.toUpperCase (Str.trim " ramp 250 ")) "RPM " = false /\
  h " ramp 250 " = h (Str.toUpperCase (Str.trim " ramp 250 ")).
Proof.
  intros h.
  assert (H1 : recognised (Str.toUpperCase (Str.trim " ramp 250 ")) = true)
    by reflexivity.
  assert (H2 : Str.startsWith (Str.toUpperCase (Str.trim " ramp 250 ")) "RPM "
               = false) by reflexivity.
  split; [exact H1|]. split; [exact H2|].
  exact (commands_ignore_case_and_blanks FloatText.toFloat FloatText.ofFloat
           " ramp 250 " H1 H2).
Defined.

Lemma controlPad_arrows_step_by_5_witness :
  let h := handleTextCommand FloatText.toFloat FloatText.ofFloat in
  let t := g_targetPct (globals World_ramping) in
  Str.trim " !B516 " = "!B51" ++ "6" /\
  Str.trim "!B615" = "!B61" ++ "5" /\
  0 <= t <= 100 /\
  g_targetPct (globals (exec (h " !B516 ") World_ramping)) = Z.min 100 (t + 5) /\
  g_targetPct (globals (exec (h "!B615") World_ramping)) = Z.max 0 (t - 5) /\
  (t <= 95 ->
   g_targetPct (globals (exec (h "!B615") (exec (h " !B516 ") World_ramping)))
   = t) /\
  (5 <= t ->
   g_targetPct (globals (exec (h " !B516 ") (exec (h "!B615") World_ramping)))
   = t).
Proof.
  intros h t.
  assert (H1 : Str.trim " !B516 " = "!B51" ++ "6") by reflexivity.
  assert (H2 : Str.trim "!B615" = "!B61" ++ "5") by reflexivity.
  assert (H3 : 0 <= t <= 100) by (vm_compute; split; discriminate).
  split; [exact H1|]. split; [exact H2|]. split; [exact H3|].
  exact (controlPad_arrows_step_by_5 FloatText.toFloat FloatText.ofFloat
           World_ramping " !B516 " "!B615" "6" "5" H1 H2 H3).
Defined.

Lemma only_STOP_ARM_US_reach_the_actuator_witness :
  let h := handleTextCommand FloatText.toFloat FloatText.ofFloat in
  let w := World_ramping in
  actuates (Str.trim "FULL") = false /\
  exists s' out,
    exec (h "FULL") w
    = {| globals := s'; clock := clock w; events := (events w ++ out)%list |} /\
    pulses out = [] /\
    g_outputPct s' = g_outputPct (globals w) /\
    g_armed s' = g_armed (globals w).
Proof.
  intros h w.
  assert (H : actuates (Str.trim "FULL") = false) by reflexivity.
  split; [exact H|].
  exact (only_STOP_ARM_US_reach_the_actuator FloatText.toFloat
           FloatText.ofFloat "FULL" w H).
Defined.

Lemma every_command_is_answered_once_witness :
  let h := handleTextCommand FloatText.toFloat FloatText.ofFloat in
  let w := World_ready in
  blank "arm" = false /\
  isControlPad (Str.trim "arm") = false /\
  exists s' c' out text,
    exec (h "arm") w
    = {| globals := s'; clock := c'; events := (events w ++ out)%list |} /\
    serialLines out = [text] /\
    notifications out
    = if g_deviceConnected (globals w) && g_txCharacteristic (globals w)
      then [text] else [].
Proof.
  intros h w.
  assert (H1 : blank "arm" = false) by reflexivity.
  assert (H2 : isControlPad (Str.trim "arm") = false) by reflexivity.
  split; [exact H1|]. split; [exact H2|].
  exact (every_command_is_answered_once FloatText.toFloat FloatText.ofFloat
           "arm" w H1 H2).
Defined.

Lemma decimal_arguments_are_read_back_witness :
  let h := handleTextCommand FloatText.toFloat FloatText.ofFloat in
  LONG_MIN <= 250 <= LONG_MAX /\
  Str.toUpperCase (Str.trim " set 250") = "SET " ++ Str.ofInt 250 /\
  g_targetPct (globals (exec (h " set 250") World_ready)) = clampInt 250 0 100.
Proof.
  intros h.
  assert (H : LONG_MIN <= 250 <= LONG_MAX) by (vm_compute; split; discriminate).
  assert (E : Str.toUpperCase (Str.trim " set 250") = "SET " ++ Str.ofInt 250)
    by reflexivity.
  split; [exact H|]. split; [exact E|].
  exact (proj1 (decimal_arguments_are_read_back FloatText.toFloat
                  FloatText.ofFloat " set 250" 250 World_ready H) E).
Defined.

Lemma escClampForwardOnly_idempotent_witness :
  EscConfig_ok EscConfig_default /\
  escClampForwardOnly EscConfig_default
    (escClampForwardOnly EscConfig_default 1200)
  = escClampForwardOnly EscConfig_default 1200 /\
  escClampForwardOnly EscConfig_default
    (escPulseFromPercent EscConfig_default 50)
  = escPulseFromPercent EscConfig_default 50.
Proof.
  assert (H : EscConfig_ok EscConfig_default)
    by (unfold EscConfig_ok; simpl; lia).
  split; [exact H|].
  exact (escClampForwardOnly_idempotent EscConfig_default 1200 50 H).
Defined.

Lemma escPulseFromPercent_monotone_witness :
  EscConfig_ok EscConfig_default /\
  usNeutral EscConfig_default <= usMinFwd EscConfig_default /\
  escPulseFromPercent EscConfig_default 0
  <= escPulseFromPercent EscConfig_default 100 /\
  escPulseFromPercent EscConfig_default 0 = usNeutral EscConfig_default /\
  escPulseFromPercent EscConfig_default 100 = usMaxFwd EscConfig_default /\
  escPulseFromPercent EscConfig_default 300
  = escPulseFromPercent EscConfig_default (300 mod 256).
Proof.
  assert (H : EscConfig_ok EscConfig_default)
    by (unfold EscConfig_ok; simpl; lia).
  assert (Hn : usNeutral EscConfig_default <= usMinFwd EscConfig_default)
    by (simpl; lia).
  assert (Hpq : 0 <= 0 <= 100) by lia.
  assert (Hq : 100 <= 255) by lia.
  destruct (escPulseFromPercent_monotone EscConfig_default 0 100 H Hn Hpq Hq)
    as (M & N0 & N100 & W).
  split; [exact H|]. split; [exact Hn|]. split; [exact M|].
  split; [exact (N0 eq_refl)|]. split; [apply N100; lia|]. apply W.
Defined.

Lemma rpm_estimate_round_trip_witness :
  let batt := g_battVoltage_V Globals_init in
  0 <= 37 <= 100 /\
  percentFromTargetRpm batt (estimateRpmFromPercent batt (F32.of_Z 37)) = 37.
Proof.
  intros batt.
  assert (H : 0 <= 37 <= 100) by lia.
  split; [exact H|]. exact (rpm_estimate_round_trip 37 H).
Defined.

Lemma output_rests_at_target_witness :
  let w := World_slow_ramp in
  let s := globals w in
  let w' := exec applyThrottleWithRamping w in
  g_armed s = true /\
  EscConfig_ok (g_escCfg s) /\
  0 <= g_targetPct s <= 100 /\
  0 <= g_rampTimeMs s < 2 ^ 32 /\
  g_outputPct s = F32.of_Z (g_targetPct s) /\
  g_outputPct (globals w') = F32.of_Z (g_targetPct s) /\
  g_targetPct (globals w') = g_targetPct s /\
  events w'
  = (events w ++ [EscWrite (escPulseFromPercent (g_escCfg s) (g_targetPct s))])%list.
Proof.
  cbv zeta.
  assert (H1 : g_armed (globals World_slow_ramp) = true)
    by (vm_compute; reflexivity).
  assert (H2 : EscConfig_ok (g_escCfg (globals World_slow_ramp)))
    by (vm_compute; repeat split; discriminate).
  assert (H3 : 0 <= g_targetPct (globals World_slow_ramp) <= 100)
    by (vm_compute; split; discriminate).
  assert (H4 : 0 <= g_rampTimeMs (globals World_slow_ramp) < 2 ^ 32)
    by (vm_compute; split; [discriminate | reflexivity]).
  assert (H5 : g_outputPct (globals World_slow_ramp)
               = F32.of_Z (g_targetPct (globals World_slow_ramp)))
    by (vm_compute; reflexivity).
  split; [exact H1|]. split; [exact H2|]. split; [exact H3|].
  split; [exact H4|]. split; [exact H5|].
  exact (output_rests_at_target World_slow_ramp H1 H2 H3 H4 H5).
Defined.

Lemma first_tick_ignores_ramp_witness :
  let w := exec (handleTextCommand FloatText.toFloat FloatText.ofFloat "SET 80")
             World_ready in
  let s := globals w in
  g_armed s = true /\
  0 <= g_targetPct s <= 100 /\
  g_lastLoopMs s = 0 /\
  g_rampTimeMs s = 300 /\
  g_outputPct (globals (exec applyThrottleWithRamping w)) = F32.of_Z 80.
Proof.
  cbv zeta.
  set (w := exec (handleTextCommand FloatText.toFloat FloatText.ofFloat "SET 80")
              World_ready).
  assert (H1 : g_armed (globals w) = true) by (vm_compute; reflexivity).
  assert (H2 : 0 <= g_targetPct (globals w) <= 100)
    by (vm_compute; split; discriminate).
  assert (H3 : g_lastLoopMs (globals w) = 0) by (vm_compute; reflexivity).
  assert (H4 : g_rampTimeMs (globals w) = 300) by (vm_compute; reflexivity).
  assert (H5 : g_targetPct (globals w) = 80) by (vm_compute; reflexivity).
  split; [exact H1|]. split; [exact H2|]. split; [exact H3|].
  split; [exact H4|].
  rewrite <- H5.
  exact (proj1 (first_tick_ignores_ramp w 5 H1 H2) H3).
Defined.

Lemma elapsed_time_survives_rollover_witness :
  let w := {| globals := set_lastLoopMs (uint32_of (2 ^ 32 - 2))
                           (globals World_ramping);
              clock := 2 ^ 32 + 3; events := [] |} in
  let s := globals w in
  clock w = (2 ^ 32 - 2) + 5 /\
  0 <= 5 < 2 ^ 32 /\
  g_armed s = true /\
  g_lastLoopMs s = uint32_of (2 ^ 32 - 2) /\
  uint32_of (2 ^ 32 - 2) <> 0 /\
  g_outputPct (globals (exec applyThrottleWithRamping w))
  = clampFloat (rampStep (g_rampTimeMs s) 5 (g_targetPct s) (g_outputPct s))
      F32.zero F32.hundred.
Proof.
  cbv zeta.
  set (w := {| globals := set_lastLoopMs (uint32_of (2 ^ 32 - 2))
                            (globals World_ramping);
               clock := 2 ^ 32 + 3; events := [] |}).
  assert (H1 : clock w = (2 ^ 32 - 2) + 5) by reflexivity.
  assert (H2 : 0 <= 5 < 2 ^ 32) by (split; [discriminate | reflexivity]).
  assert (H3 : g_armed (globals w) = true) by (vm_compute; reflexivity).
  assert (H4 : g_lastLoopMs (globals w) = uint32_of (2 ^ 32 - 2))
    by reflexivity.
  assert (H5 : uint32_of (2 ^ 32 - 2) <> 0) by (vm_compute; discriminate).
  split; [exact H1|]. split; [exact H2|]. split; [exact H3|].
  split; [exact H4|]. split; [exact H5|].
  exact (proj1 (elapsed_time_survives_rollover FloatText.ofFloat w
                  (2 ^ 32 - 2) 5 H1 H2) H3 H4 H5).
Defined.

Lemma arming_holds_neutral_witness :
  let w := World_unarmed in
  let w' := exec (escArmNeutral 3000) w in
  0 <= 3000 < 2 ^ 31 /\
  EscConfig_ok (g_escCfg (globals w)) /\
  globals w' = set_armed true (globals w) /\
  events w' = (events w ++ [EscWrite (usNeutral (g_escCfg (globals w)))])%list /\
  3000 <= clock w' - clock w < 3000 + 10 /\
  (clock w' - clock w) mod 10 = 0.
Proof.
  intros w w'.
  assert (H1 : 0 <= 3000 < 2 ^ 31) by (split; [discriminate | reflexivity]).
  assert (H2 : EscConfig_ok (g_escCfg (globals w)))
    by (unfold EscConfig_ok; simpl; lia).
  split; [exact H1|]. split; [exact H2|].
  exact (arming_holds_neutral w 3000 H1 H2).
Defined.

Lemma setup_ends_armed_at_neutral_witness :
  let w' := exec (setup FloatText.ofFloat) World_boot in
  EscConfig_ok (g_escCfg (globals World_boot)) /\
  g_armed (globals w') = true /\
  g_targetPct (globals w') = 0 /\
  g_outputPct (globals w') = F32.zero /\
  clock w' = clock World_boot + 3500.
Proof.
  cbv zeta.
  assert (H : EscConfig_ok (g_escCfg (globals World_boot)))
    by (unfold EscConfig_ok; simpl; lia).
  split; [exact H|].
  pose proof (setup_ends_armed_at_neutral FloatText.ofFloat World_boot H) as T.
  cbv zeta in T. destruct T as (A1 & A2 & A3 & _ & _ & _ & _ & A8 & _).
  split; [exact A1|]. split; [exact A2|]. split; [exact A3 | exact A8].
Defined.

Lemma idle_loop_is_one_tick_witness :
  let w := World_ready in
  let w' := exec (loop FloatText.toFloat FloatText.ofFloat None) w in
  g_logEnabled (globals w) = false /\
  w' = exec (delay 5) (exec applyThrottleWithRamping w) /\
  clock w' = clock w + 5 /\
  (exists us, events w' = (events w ++ [EscWrite us])%list).
Proof.
  cbv zeta.
  assert (H : g_logEnabled (globals World_ready) = false)
    by (vm_compute; reflexivity).
  split; [exact H|].
  pose proof (idle_loop_is_one_tick FloatText.toFloat FloatText.ofFloat
                World_ready H) as T.
  cbv zeta in T. destruct T as (A1 & A2 & A3 & _).
  split; [exact A1|]. split; [exact A2 | exact A3].
Defined.

Lemma ramp_tick_makes_progress_witness :
  let w := World_ramping in
  let s := globals w in
  let dt := tick_dt w in
  let target := F32.of_Z (g_targetPct s) in
  let out := g_outputPct s in
  let out' := g_outputPct (globals (exec applyThrottleWithRamping w)) in
  g_armed s = true /\
  g_targetPct s = 80 /\
  g_rampTimeMs s = 300 /\
  OutputPct_ok out /\
  (out' = target \/
   (1 <= dt /\
    g_rampTimeMs s * Z.abs (F32.V target - F32.V out') + 15 * dt * 2 ^ 149
    < g_rampTimeMs s * Z.abs (F32.V target - F32.V out))).
Proof.
  cbv zeta.
  assert (Ha : g_armed (globals World_ramping) = true)
    by (vm_compute; reflexivity).
  assert (Ht : g_targetPct (globals World_ramping) = 80)
    by (vm_compute; reflexivity).
  assert (Hr : g_rampTimeMs (globals World_ramping) = 300)
    by (vm_compute; reflexivity).
  assert (Ho : OutputPct_ok (g_outputPct (globals World_ramping)))
    by (split; [vm_compute; reflexivity | vm_compute; discriminate]).
  assert (Ht' : 0 <= g_targetPct (globals World_ramping) <= 100)
    by (vm_compute; split; discriminate).
  assert (Hr' : 0 <= g_rampTimeMs (globals World_ramping) <= 10000)
    by (vm_compute; split; discriminate).
  pose proof (ramp_tick_makes_progress World_ramping Ha Ht' Hr' Ho) as H.
  cbv zeta in H.
  split; [exact Ha|]. split; [exact Ht|]. split; [exact Hr|].
  split; [exact Ho|]. exact H.
Defined.

Lemma ramp_reaches_target_witness :
  let w := World_ramping in
  let s := globals w in
  let w' := exec (run FloatText.toFloat FloatText.ofFloat
                    (repeat (Loop None) 401)) w in
  g_armed s = true /\
  g_targetPct s = 80 /\
  g_rampTimeMs s = 300 /\
  OutputPct_ok (g_outputPct s) /\
  g_outputPct (globals w') = F32.of_Z (g_targetPct s) /\
  g_targetPct (globals w') = g_targetPct s /\
  clock w' = clock w + 5 * Z.of_nat 401.
Proof.
  cbv zeta.
  assert (Ha : g_armed (globals World_ramping) = true)
    by (vm_compute; reflexivity).
  assert (Ht : g_targetPct (globals World_ramping) = 80)
    by (vm_compute; reflexivity).
  assert (Hr : g_rampTimeMs (globals World_ramping) = 300)
    by (vm_compute; reflexivity).
  assert (Ho : OutputPct_ok (g_outputPct (globals World_ramping)))
    by (split; [vm_compute; reflexivity | vm_compute; discriminate]).
  assert (Ht' : 0 <= g_targetPct (globals World_ramping) <= 100)
    by (vm_compute; split; discriminate).
  assert (Hr' : 0 <= g_rampTimeMs (globals World_ramping) <= 10000)
    by (vm_compute; split; discriminate).
  assert (Hn : 4 * g_rampTimeMs (globals World_ramping)
               <= 3 * (Z.of_nat 401 - 1))
    by (vm_compute; discriminate).
  pose proof (ramp_reaches_target FloatText.toFloat FloatText.ofFloat
                World_ramping 401 Ha Ht' Hr' Ho Hn) as H.
  cbv zeta in H.
  split; [exact Ha|]. split; [exact Ht|]. split; [exact Hr|].
  split; [exact Ho|]. exact H.
Defined.
